(** * MetalBuffer.h: tracked Metal buffers and the ring sub-allocator

    A shallow embedding of [filament/backend/src/metal/MetalBuffer.h]:
    the alignment helper [align], [TrackedMetalBuffer] with its process-wide
    alive counters, and [MetalRingBuffer] with its shared in-flight counter
    and completion handlers.

    Conventions.
    - [NSUInteger], [size_t] and [uint64_t] are 64-bit unsigned; they are
      modelled as [Z] in the range [0, 2^64) and every arithmetic operation
      writes its wrap-around with [wrap].
    - [assert] and [assert_invariant] are modelled as checks that stop the
      run with a [Failure]; a build that compiles them out behaves the same
      on every run where no check fails.
    - Objective-C object references ([id<MTLBuffer>]) are [option positive],
      [nil] being [None].
    - [ScopedAllocationTimer] only reads the wall clock and reports to its
      own diagnostics sink; it changes nothing that is modelled here and is
      left out. *)

From Stdlib Require Import ZArith Lia Bool.
From stdpp Require Import base option list strings numbers.

Local Open Scope Z_scope.

(** ** Machine integers *)

Definition wrap (x : Z) : Z := x mod 2 ^ 64.

(** [~x] on a 64-bit unsigned operand. *)
Definition bnot (x : Z) : Z := wrap (Z.lnot x).

(** ** Outcomes of fallible code *)

Inductive Failure : Type :=
  | AssertFailed            (* assert(...) *)
  | AssertInvariantFailed   (* assert_invariant(...) *)
  | Dangling.               (* dereference of an expired shared counter *)

Inductive Result (A : Type) : Type :=
  | Ok (a : A)
  | Fail (f : Failure).
Arguments Ok {A} a.
Arguments Fail {A} f.

#[global] Instance Result_ret : MRet Result := fun A a => Ok a.
#[global] Instance Result_bind : MBind Result := fun A B f m =>
  match m with
  | Ok a => f a
  | Fail e => Fail e
  end.

(** ** [align] *)

(** The asserted condition [alignment && !(alignment & alignment-1)]. *)
Definition is_power_of_two (alignment : Z) : bool :=
  negb (alignment =? 0) && (Z.land alignment (wrap (alignment - 1)) =? 0).

(** [template <typename TYPE> TYPE align(TYPE p, size_t alignment)], at
    [TYPE = NSUInteger], the only instantiation in this header. *)
Definition align (p alignment : Z) : Result Z :=
  if is_power_of_two alignment
  then Ok (Z.land (wrap (p + alignment - 1)) (bnot (wrap (alignment - 1))))
  else Fail AssertFailed.

(** ** Layouts and the slot size *)

(** [MTLSizeAndAlign] is declared by the Metal framework: two [NSUInteger]s. *)
Module MTL.
Record SizeAndAlign : Type := { size : Z; align : Z }.
End MTL.

(** The three arms of the [#if defined(IOS)] / [TARGET_OS_SIMULATOR] block. *)
Inductive Target : Type := IOS_SIMULATOR | IOS | OTHER.

Definition METAL_CONSTANT_BUFFER_OFFSET_ALIGNMENT (t : Target) : Z :=
  match t with
  | IOS_SIMULATOR => 256
  | IOS => 4
  | OTHER => 32
  end.

Definition computeSlotSize (t : Target) (layout : MTL.SizeAndAlign) : Result Z :=
  inner ← align (MTL.size layout) (MTL.align layout);
  align inner (METAL_CONSTANT_BUFFER_OFFSET_ALIGNMENT t).

(** ** Mathematical rounding, used to state what [align] computes *)

(** The least multiple of [a] that is at least [x]. *)
Definition round_up (x a : Z) : Z := (x + a - 1) / a * a.

(** In range for a 64-bit unsigned value. *)
Definition u64 (x : Z) : Prop := 0 <= x < 2 ^ 64.

(** ** The world the objects live in *)

(** Object references; [None] is [nil]. Command buffers handed to the ring
    are live objects, so they are plain identities. *)
Abbreviation MTLBuffer := positive.
Abbreviation MTLCommandBuffer := positive.

(** Modelled from the spec: [MetalPlatform] is declared in MetalPlatform.h,
    which is not among the sources. It is the optional diagnostics sink
    ([recordStat(name, value)]); this header only asks it
    [hasDebugUpdateStatFunc()] and calls [debugUpdateStat(name, value)]. *)
Record MetalPlatform : Type := { hasDebugUpdateStatFunc : bool }.

(** Modelled from the spec: the Metal device, an external collaborator
    ([allocate(lengthBytes, options) -> handle-or-null], which may fail and
    does not throw). It hands out buffer objects with fresh identities, or
    [nil] when a request fails. [dev_outcomes] decides the coming requests
    in order ([false]: the request fails); once it is used up every request
    succeeds. *)
Record MTLDevice : Type := { dev_next : positive; dev_outcomes : list bool }.

(** The block passed to [addCompletedHandler:]; all it captures is the
    [std::weak_ptr<AtomicCounterType> slots]. *)
Record Handler : Type := { slots : nat }.

Record World : Type := {
  aliveBuffers : list Z;              (* TrackedMetalBuffer::aliveBuffers *)
  platform : option MetalPlatform;    (* TrackedMetalBuffer::platform *)
  stats : list (string * Z);          (* what debugUpdateStat has received *)
  device : MTLDevice;
  counters : list (option Z);         (* shared AtomicCounterType cells;
                                         None once the last owner is gone *)
  handlers : list (MTLCommandBuffer * Handler)
                                      (* completed-handlers not yet run *)
}.

Definition set_aliveBuffers (f : list Z -> list Z) (w : World) : World :=
  {| aliveBuffers := f (aliveBuffers w); platform := platform w;
     stats := stats w; device := device w; counters := counters w;
     handlers := handlers w |}.

Definition set_platform (p : option MetalPlatform) (w : World) : World :=
  {| aliveBuffers := aliveBuffers w; platform := p;
     stats := stats w; device := device w; counters := counters w;
     handlers := handlers w |}.

Definition set_stats (f : list (string * Z) -> list (string * Z)) (w : World) : World :=
  {| aliveBuffers := aliveBuffers w; platform := platform w;
     stats := f (stats w); device := device w; counters := counters w;
     handlers := handlers w |}.

Definition set_device (d : MTLDevice) (w : World) : World :=
  {| aliveBuffers := aliveBuffers w; platform := platform w;
     stats := stats w; device := d; counters := counters w;
     handlers := handlers w |}.

Definition set_counters (f : list (option Z) -> list (option Z)) (w : World) : World :=
  {| aliveBuffers := aliveBuffers w; platform := platform w;
     stats := stats w; device := device w; counters := f (counters w);
     handlers := handlers w |}.

Definition set_handlers
    (f : list (MTLCommandBuffer * Handler) -> list (MTLCommandBuffer * Handler))
    (w : World) : World :=
  {| aliveBuffers := aliveBuffers w; platform := platform w;
     stats := stats w; device := device w; counters := counters w;
     handlers := f (handlers w) |}.

(** ** State and failure monad *)

Definition M (A : Type) : Type := World -> Result (A * World).

#[global] Instance M_ret : MRet M := fun A a w => Ok (a, w).
#[global] Instance M_bind : MBind M := fun A B f m w =>
  match m w with
  | Ok (a, w') => f a w'
  | Fail e => Fail e
  end.

Definition gets {A : Type} (f : World -> A) : M A := fun w => Ok (f w, w).
Definition modify (f : World -> World) : M unit := fun w => Ok (tt, f w).
Definition lift {A : Type} (r : Result A) : M A := fun w =>
  match r with
  | Ok a => Ok (a, w)
  | Fail e => Fail e
  end.

(** Modelled from the spec: the macro [assert_invariant] comes from
    utils/debug.h, which is not among the sources; a violated precondition
    is fatal. *)
Definition assert_invariant (c : bool) : M unit := fun w =>
  if c then Ok (tt, w) else Fail AssertInvariantFailed.

(** Modelled from the spec: [platform->debugUpdateStat(name, value)], the
    sink's [recordStat(name, value)]; the sink keeps what it is sent. *)
Definition debugUpdateStat (name : string) (value : Z) : M unit :=
  modify (set_stats (fun l => l ++ [(name, value)])).

(** [[device newBufferWithLength:length options:options]], answered by the
    device as described at [MTLDevice]. *)
Definition newBufferWithLength (length options : Z) : M (option MTLBuffer) := fun w =>
  let d := device w in
  match dev_outcomes d with
  | false :: rest =>
      Ok (None, set_device {| dev_next := dev_next d; dev_outcomes := rest |} w)
  | true :: rest =>
      Ok (Some (dev_next d),
          set_device {| dev_next := Pos.succ (dev_next d); dev_outcomes := rest |} w)
  | [] =>
      Ok (Some (dev_next d),
          set_device {| dev_next := Pos.succ (dev_next d); dev_outcomes := [] |} w)
  end.

(** Modelled from the spec: [[cmdBuffer addCompletedHandler:block]], the
    execution unit's [addCompletionCallback(fn)]; the block is kept until
    the command buffer completes. *)
Definition addCompletedHandler (cmdBuffer : MTLCommandBuffer) (block : Handler) : M unit :=
  modify (set_handlers (fun l => l ++ [(cmdBuffer, block)])).

(** *** [std::shared_ptr<std::atomic<NSUInteger>>] and its weak references

    A cell is addressed by its index in [counters]. The ring buffer is the
    only owner of its cell, so releasing that owner expires the cell. *)

Definition make_shared (v : Z) : M nat := fun w =>
  Ok (length (counters w), set_counters (fun l => l ++ [Some v]) w).

Definition load (p : nat) : M Z := fun w =>
  match counters w !! p with
  | Some (Some v) => Ok (v, w)
  | _ => Fail Dangling
  end.

Definition fetch_add (p : nat) (d : Z) : M Z := fun w =>
  match counters w !! p with
  | Some (Some v) => Ok (v, set_counters (fun l => <[p := Some (wrap (v + d))]> l) w)
  | _ => Fail Dangling
  end.

Definition fetch_sub (p : nat) (d : Z) : M Z := fun w =>
  match counters w !! p with
  | Some (Some v) => Ok (v, set_counters (fun l => <[p := Some (wrap (v - d))]> l) w)
  | _ => Fail Dangling
  end.

(** [weak_ptr::lock()]: the cell if it is still owned, else nothing. *)
Definition weak_lock (p : nat) : M (option nat) := fun w =>
  match counters w !! p with
  | Some (Some _) => Ok (Some p, w)
  | _ => Ok (None, w)
  end.

(** The owning [shared_ptr] goes away. *)
Definition shared_release (p : nat) : M unit :=
  modify (set_counters (fun l => <[p := None]> l)).

(** ** [TrackedMetalBuffer] *)

Module TrackedMetalBuffer.

Definition EXCESS_BUFFER_COUNT : Z := 30000.

Inductive Type' : Type := NONE | GENERIC | RING | STAGING.

Definition TypeCount : nat := 3.

Definition is_NONE (t : Type') : bool :=
  match t with
  | NONE => true
  | _ => false
  end.

Definition toIndex (t : Type') : Result nat :=
  if is_NONE t then Fail AssertInvariantFailed
  else Ok (match t with
           | NONE | GENERIC => 0%nat
           | RING => 1%nat
           | STAGING => 2%nat
           end).

Record t : Type := { mBuffer : option MTLBuffer; mType : Type' }.

(** [uint64_t getAliveBuffers()] *)
Definition getAliveBuffers : M Z :=
  gets (fun w => fold_left (fun sum v => wrap (sum + v)) (aliveBuffers w) 0).

(** [uint64_t getAliveBuffers(Type type)] *)
Definition getAliveBuffersOf (type : Type') : M Z :=
  assert_invariant (negb (is_NONE type));;
  i ← lift (toIndex type);
  gets (fun w => default 0 (aliveBuffers w !! i)).

Definition setPlatform (p : option MetalPlatform) : M unit :=
  modify (set_platform p).

(** [TrackedMetalBuffer()] and [TrackedMetalBuffer(nullptr_t)] *)
Definition ctor_default : M t := mret {| mBuffer := None; mType := NONE |}.
Definition ctor_nullptr : M t := mret {| mBuffer := None; mType := NONE |}.

(** [TrackedMetalBuffer(id<MTLBuffer> buffer, Type type)] *)
Definition ctor (buffer : option MTLBuffer) (type : Type') : M t :=
  assert_invariant (negb (is_NONE type));;
  match buffer with
  | Some _ =>
      i ← lift (toIndex type);
      modify (set_aliveBuffers (alter (fun v => wrap (v + 1)) i));;
      total ← getAliveBuffers;
      if EXCESS_BUFFER_COUNT <=? total then
        p ← gets platform;
        match p with
        | Some pf =>
            if hasDebugUpdateStatFunc pf then
              v ← getAliveBuffers;
              debugUpdateStat "filament.metal.excess_buffers_allocated" v
            else mret tt
        | None => mret tt
        end
      else mret tt
  | None => mret tt
  end;;
  mret {| mBuffer := buffer; mType := type |}.

(** [~TrackedMetalBuffer()] *)
Definition dtor (b : t) : M unit :=
  match mBuffer b with
  | Some _ =>
      assert_invariant (negb (is_NONE (mType b)));;
      i ← lift (toIndex (mType b));
      modify (set_aliveBuffers (alter (fun v => wrap (v - 1)) i))
  | None => mret tt
  end.

(** [swap]: returns the new [*this] and the new [other]. *)
Definition swap (this other : t) : t * t :=
  ({| mBuffer := mBuffer other; mType := mType other |},
   {| mBuffer := mBuffer this; mType := mType this |}).

(** [lhs = <temporary>]: the temporary is built, [operator=(&&)] swaps, and
    the temporary, now holding the old contents, is destroyed. Returns the
    new [lhs]. *)
Definition assign_temporary (lhs : t) (temporary : M t) : M t :=
  tmp ← temporary;
  let '(lhs', tmp') := swap lhs tmp in
  dtor tmp';;
  mret lhs'.

Definition get (b : t) : option MTLBuffer := mBuffer b.

(** [operator bool] *)
Definition to_bool (b : t) : bool :=
  match mBuffer b with
  | Some _ => true
  | None => false
  end.

End TrackedMetalBuffer.

(** ** [MetalRingBuffer] *)

Module MetalRingBuffer.

Record t : Type := {
  mDevice : unit;             (* the one device of the world *)
  mBuffer : TrackedMetalBuffer.t;
  mAuxBuffer : TrackedMetalBuffer.t;
  mBufferOptions : Z;
  mSlotSizeBytes : Z;
  mSlotCount : Z;
  mCurrentSlot : Z;
  mOccupiedSlots : nat        (* the shared_ptr: index of the cell *)
}.

Definition set_mAuxBuffer (a : TrackedMetalBuffer.t) (r : t) : t :=
  {| mDevice := mDevice r; mBuffer := mBuffer r; mAuxBuffer := a;
     mBufferOptions := mBufferOptions r; mSlotSizeBytes := mSlotSizeBytes r;
     mSlotCount := mSlotCount r; mCurrentSlot := mCurrentSlot r;
     mOccupiedSlots := mOccupiedSlots r |}.

Definition set_mCurrentSlot (c : Z) (r : t) : t :=
  {| mDevice := mDevice r; mBuffer := mBuffer r; mAuxBuffer := mAuxBuffer r;
     mBufferOptions := mBufferOptions r; mSlotSizeBytes := mSlotSizeBytes r;
     mSlotCount := mSlotCount r; mCurrentSlot := c;
     mOccupiedSlots := mOccupiedSlots r |}.

(** The constructor. Members are initialised in declaration order, then the
    body allocates the main buffer. *)
Definition ctor (target : Target) (device_ : unit) (options : Z)
    (layout : MTL.SizeAndAlign) (slotCount : Z) : M t :=
  buffer0 ← TrackedMetalBuffer.ctor_default;
  aux0 ← TrackedMetalBuffer.ctor_nullptr;
  slotSize ← lift (computeSlotSize target layout);
  occupied ← make_shared 1;
  buffer ← TrackedMetalBuffer.assign_temporary buffer0
             (b ← newBufferWithLength (wrap (slotSize * slotCount)) options;
              TrackedMetalBuffer.ctor b TrackedMetalBuffer.RING);
  assert_invariant (TrackedMetalBuffer.to_bool buffer);;
  mret {| mDevice := device_; mBuffer := buffer; mAuxBuffer := aux0;
          mBufferOptions := options; mSlotSizeBytes := slotSize;
          mSlotCount := slotCount; mCurrentSlot := 0;
          mOccupiedSlots := occupied |}.

Definition getCurrentAllocation (r : t) : option MTLBuffer * Z :=
  if TrackedMetalBuffer.to_bool (mAuxBuffer r)
  then (TrackedMetalBuffer.get (mAuxBuffer r), 0)
  else (TrackedMetalBuffer.get (mBuffer r),
        wrap (mCurrentSlot r * mSlotSizeBytes r)).

(** The block registered by [createNewAllocation]. *)
Definition completedHandler (h : Handler) : M unit :=
  s ← weak_lock (slots h);
  match s with
  | Some p => fetch_sub p 1;; mret tt
  | None => mret tt
  end.

(** Returns the allocation and the ring buffer as the call leaves it.
    The remainder [% mSlotCount] is only reached with [mSlotCount] above
    [occupiedSlots], hence nonzero. *)
Definition createNewAllocation (r : t) (cmdBuffer : MTLCommandBuffer)
    : M ((option MTLBuffer * Z) * t) :=
  occupiedSlots ← load (mOccupiedSlots r);
  assert_invariant (occupiedSlots <=? mSlotCount r);;
  if occupiedSlots =? mSlotCount r then
    aux ← TrackedMetalBuffer.assign_temporary (mAuxBuffer r)
            (b ← newBufferWithLength (mSlotSizeBytes r) (mBufferOptions r);
             TrackedMetalBuffer.ctor b TrackedMetalBuffer.RING);
    let r1 := set_mAuxBuffer aux r in
    assert_invariant (TrackedMetalBuffer.to_bool (mAuxBuffer r1));;
    mret ((TrackedMetalBuffer.get (mAuxBuffer r1), 0), r1)
  else
    let r1 := set_mCurrentSlot (wrap (mCurrentSlot r + 1) mod mSlotCount r) r in
    fetch_add (mOccupiedSlots r1) 1;;
    r2 ← (if TrackedMetalBuffer.to_bool (mAuxBuffer r1) then
            aux ← TrackedMetalBuffer.assign_temporary (mAuxBuffer r1)
                    TrackedMetalBuffer.ctor_nullptr;
            mret (set_mAuxBuffer aux r1)
          else
            addCompletedHandler cmdBuffer {| slots := mOccupiedSlots r1 |};;
            mret r1);
    mret (getCurrentAllocation r2, r2).

Definition canAccomodateLayout (target : Target) (r : t)
    (layout : MTL.SizeAndAlign) : Result bool :=
  s ← computeSlotSize target layout;
  mret (s <=? mSlotSizeBytes r).

(** The implicit destructor: members go in reverse declaration order. *)
Definition dtor (r : t) : M unit :=
  shared_release (mOccupiedSlots r);;
  TrackedMetalBuffer.dtor (mAuxBuffer r);;
  TrackedMetalBuffer.dtor (mBuffer r).

End MetalRingBuffer.

(** ** The command queue: completion of command buffers *)

(** Runs the blocks in order. *)
Fixpoint run_handlers (hs : list Handler) : M unit :=
  match hs with
  | [] => mret tt
  | h :: rest => MetalRingBuffer.completedHandler h;; run_handlers rest
  end.

Definition on_buffer (c : MTLCommandBuffer) (ch : MTLCommandBuffer * Handler) : bool :=
  Pos.eqb (fst ch) c.

(** Modelled from the spec: command buffer [c] has finished executing;
    each handler added to it fires exactly once, here in the order they were
    added, and is then gone. *)
Definition complete (c : MTLCommandBuffer) : M unit :=
  hs ← gets handlers;
  modify (set_handlers (List.filter (fun ch => negb (on_buffer c ch))));;
  run_handlers (map snd (List.filter (on_buffer c) hs)).

(** Command buffers finishing one after the other. *)
Fixpoint completions (cs : list MTLCommandBuffer) : M unit :=
  match cs with
  | [] => mret tt
  | c :: rest => complete c;; completions rest
  end.

(** ** Runs of a ring buffer *)

(** The in-flight count: the value of the ring's shared cell, while it is
    owned. *)
Definition in_flight (r : MetalRingBuffer.t) (w : World) : option Z :=
  match counters w !! MetalRingBuffer.mOccupiedSlots r with
  | Some (Some v) => Some v
  | _ => None
  end.

(** The cell is not owned any more (or was never created). *)
Definition expired (p : nat) (w : World) : Prop :=
  match counters w !! p with
  | Some (Some _) => False
  | _ => True
  end.

(** Consecutive [createNewAllocation] calls, one per command buffer, with
    nothing completing in between. *)
Fixpoint allocations (r : MetalRingBuffer.t) (cs : list MTLCommandBuffer)
    : M (list (option MTLBuffer * Z) * MetalRingBuffer.t) :=
  match cs with
  | [] => mret ([], r)
  | c :: rest =>
      '(a, r1) ← MetalRingBuffer.createNewAllocation r c;
      '(more, r2) ← allocations r1 rest;
      mret (a :: more, r2)
  end.

(** What can happen to a ring buffer between construction and
    destruction. *)
Inductive RingEvent : Type :=
  | Allocate (c : MTLCommandBuffer)    (* createNewAllocation(c) *)
  | Completed (c : MTLCommandBuffer).  (* c finished on the GPU *)

Definition ring_step (ev : RingEvent) (r : MetalRingBuffer.t) : M MetalRingBuffer.t :=
  match ev with
  | Allocate c =>
      '(_, r1) ← MetalRingBuffer.createNewAllocation r c;
      mret r1
  | Completed c => complete c;; mret r
  end.

Fixpoint ring_run (evs : list RingEvent) (r : MetalRingBuffer.t) : M MetalRingBuffer.t :=
  match evs with
  | [] => mret r
  | ev :: rest => r1 ← ring_step ev r; ring_run rest r1
  end.

(** The slot the cursor moves to: [(mCurrentSlot + 1) % mSlotCount]. *)
Definition next_slot (r : MetalRingBuffer.t) : Z :=
  wrap (MetalRingBuffer.mCurrentSlot r + 1) mod MetalRingBuffer.mSlotCount r.

(** Handlers of cell [p] that have been added and have not run yet. *)
Definition pending (p : nat) (w : World) : list (MTLCommandBuffer * Handler) :=
  List.filter (fun ch => Nat.eqb (slots (snd ch)) p) (handlers w).

(** The device will not fail a request. *)
Definition device_reliable (w : World) : Prop :=
  Forall (fun b => b = true) (dev_outcomes (device w)).

(** No handler refers to a cell that does not exist yet. *)
Definition handlers_bound (w : World) : Prop :=
  Forall (fun ch => (slots (snd ch) < length (counters w))%nat) (handlers w).

(** The offsets [slotSize * first], [slotSize * (first + 1)], ... ([n] of
    them). *)
Definition slot_offsets (slotSize : Z) (first : Z) (n : nat) : list Z :=
  map (fun k => slotSize * (first + Z.of_nat k)) (seq 0 n).

(** ** Runs of tracked buffers *)

Inductive TrackerOp : Type :=
  | New (buffer : option MTLBuffer) (type : TrackedMetalBuffer.Type')
  | NewNull
  | Delete (i : nat)
  | MoveAssign (dst src : nat).

(** Bookkeeping of a run, kept beside the program state: a construction
    with a non-null handle, or the destruction of an object that holds
    one. *)
Inductive TrackerEvent : Type :=
  | Constructed (type : TrackedMetalBuffer.Type')
  | Destroyed (type : TrackedMetalBuffer.Type').

Abbreviation Objects := (list TrackedMetalBuffer.t).

Definition tracker_step (op : TrackerOp) (st : Objects * list TrackerEvent)
    : M (Objects * list TrackerEvent) :=
  let '(objs, log) := st in
  match op with
  | New buffer type =>
      o ← TrackedMetalBuffer.ctor buffer type;
      mret (objs ++ [o],
            if TrackedMetalBuffer.to_bool o then log ++ [Constructed type] else log)
  | NewNull =>
      o ← TrackedMetalBuffer.ctor_nullptr;
      mret (objs ++ [o], log)
  | Delete i =>
      match objs !! i with
      | Some o =>
          TrackedMetalBuffer.dtor o;;
          mret (delete i objs,
                if TrackedMetalBuffer.to_bool o
                then log ++ [Destroyed (TrackedMetalBuffer.mType o)] else log)
      | None => mret (objs, log)
      end
  | MoveAssign dst src =>
      match objs !! dst, objs !! src with
      | Some a, Some b =>
          let '(a', b') := TrackedMetalBuffer.swap a b in
          mret (<[dst := a']> (<[src := b']> objs), log)
      | _, _ => mret (objs, log)
      end
  end.

Fixpoint tracker_run (ops : list TrackerOp) (st : Objects * list TrackerEvent)
    : M (Objects * list TrackerEvent) :=
  match ops with
  | [] => mret st
  | op :: rest => st1 ← tracker_step op st; tracker_run rest st1
  end.

Fixpoint destroy_all (objs : Objects) : M unit :=
  match objs with
  | [] => mret tt
  | o :: rest => TrackedMetalBuffer.dtor o;; destroy_all rest
  end.

Definition type_eqb (a b : TrackedMetalBuffer.Type') : bool :=
  match a, b with
  | TrackedMetalBuffer.NONE, TrackedMetalBuffer.NONE
  | TrackedMetalBuffer.GENERIC, TrackedMetalBuffer.GENERIC
  | TrackedMetalBuffer.RING, TrackedMetalBuffer.RING
  | TrackedMetalBuffer.STAGING, TrackedMetalBuffer.STAGING => true
  | _, _ => false
  end.

Definition constructions (type : TrackedMetalBuffer.Type') (log : list TrackerEvent) : Z :=
  Z.of_nat (length (List.filter
    (fun e => match e with Constructed ty => type_eqb ty type | _ => false end) log)).

Definition destructions (type : TrackedMetalBuffer.Type') (log : list TrackerEvent) : Z :=
  Z.of_nat (length (List.filter
    (fun e => match e with Destroyed ty => type_eqb ty type | _ => false end) log)).

(** No construction in the run is given the category [NONE]. *)
Definition typed_ops (ops : list TrackerOp) : Prop :=
  Forall (fun op => match op with
                    | New _ type => type <> TrackedMetalBuffer.NONE
                    | _ => True
                    end) ops.

(** Modelled from the spec: the static [aliveBuffers] array is defined in
    MetalBuffer.mm, which is not among the sources; at process start
    nothing is alive. *)
Definition fresh_tracker (w : World) : Prop := aliveBuffers w = [0; 0; 0].

Definition indicator (b : bool) : Z := if b then 1 else 0.

(** Objects of a category that hold a non-null handle. *)
Definition live (type : TrackedMetalBuffer.Type') (objs : Objects) : Z :=
  Z.of_nat (length (List.filter
    (fun o => TrackedMetalBuffer.to_bool o && type_eqb (TrackedMetalBuffer.mType o) type)
    objs)).

(** An object that holds a handle has a category. *)
Definition well_typed (o : TrackedMetalBuffer.t) : Prop :=
  TrackedMetalBuffer.to_bool o = true ->
  TrackedMetalBuffer.mType o <> TrackedMetalBuffer.NONE.

(** The sum [getAliveBuffers()] computes. *)
Definition total_alive (w : World) : Z :=
  fold_left (fun sum v => wrap (sum + v)) (aliveBuffers w) 0.

(** A sink is registered and it has a stat function. *)
Definition has_sink (w : World) : bool :=
  match platform w with
  | Some pf => hasDebugUpdateStatFunc pf
  | None => false
  end.

Definition excess_event (total : Z) : string * Z :=
  ("filament.metal.excess_buffers_allocated"%string, total).

(** What a run of tracked buffers maintains: each counter is the number of
    live handle-holding objects of its category (on 64 bits), and so is the
    difference of the bookkeeping counts. *)
Definition tracker_inv (st : Objects * list TrackerEvent) (w : World) : Prop :=
  aliveBuffers w =
    [wrap (live TrackedMetalBuffer.GENERIC (fst st));
     wrap (live TrackedMetalBuffer.RING (fst st));
     wrap (live TrackedMetalBuffer.STAGING (fst st))] /\
  Forall well_typed (fst st) /\
  forall ty, ty <> TrackedMetalBuffer.NONE ->
    constructions ty (snd st) - destructions ty (snd st) = live ty (fst st).

(** What holds of a ring buffer with [N] slots between calls: its cell is
    owned, and the count is at least one more than the handlers still
    pending on it and at most [N]. *)
Definition ring_inv (N : Z) (r : MetalRingBuffer.t) (w : World) : Prop :=
  MetalRingBuffer.mSlotCount r = N /\
  well_typed (MetalRingBuffer.mAuxBuffer r) /\
  exists v,
    counters w !! MetalRingBuffer.mOccupiedSlots r = Some (Some v) /\
    1 + Z.of_nat (length (pending (MetalRingBuffer.mOccupiedSlots r) w)) <= v <= N.

(** ** Worlds that differ only in diagnostics *)

(** Equal up to the registered sink and what it has received. *)
Definition same_but_diagnostics (w1 w2 : World) : Prop :=
  aliveBuffers w1 = aliveBuffers w2 /\ device w1 = device w2 /\
  counters w1 = counters w2 /\ handlers w1 = handlers w2.

(** Two runs of one computation end alike: same failure, or same value in
    worlds equal up to diagnostics. *)
Definition alike {A : Type} (x y : Result (A * World)) : Prop :=
  match x, y with
  | Ok (a1, w1), Ok (a2, w2) => a1 = a2 /\ same_but_diagnostics w1 w2
  | Fail e1, Fail e2 => e1 = e2
  | _, _ => False
  end.

(** A computation that cannot tell such worlds apart. *)
Definition respects {A : Type} (m : M A) : Prop :=
  forall w1 w2, same_but_diagnostics w1 w2 -> alike (m w1) (m w2).

(** The stated slot size: the larger of size and alignment, rounded up to
    the platform alignment. *)
Definition stated_slot_size (t : Target) (layout : MTL.SizeAndAlign) : Z :=
  round_up (Z.max (MTL.size layout) (MTL.align layout))
           (METAL_CONSTANT_BUFFER_OFFSET_ALIGNMENT t).

(** The stated answer of [canAccomodateLayout]: the layout's size, rounded
    up to its alignment and then to the platform alignment, fits within the
    ring's slot size. *)
Definition stated_fits (t : Target) (r : MetalRingBuffer.t)
    (layout : MTL.SizeAndAlign) : bool :=
  round_up (round_up (MTL.size layout) (MTL.align layout))
           (METAL_CONSTANT_BUFFER_OFFSET_ALIGNMENT t)
    <=? MetalRingBuffer.mSlotSizeBytes r.

(** ** Further runs and views, used by the properties beyond the claims *)

(** Live objects that hold a handle, of whatever category. *)
Definition holders (objs : Objects) : Z :=
  Z.of_nat (length (List.filter TrackedMetalBuffer.to_bool objs)).

(** [createNewAllocation] calls where each command buffer completes before
    the next call is made. *)
Fixpoint paced_allocations (r : MetalRingBuffer.t) (cs : list MTLCommandBuffer)
    : M (list (option MTLBuffer * Z) * MetalRingBuffer.t) :=
  match cs with
  | [] => mret ([], r)
  | c :: rest =>
      '(a, r1) ← MetalRingBuffer.createNewAllocation r c;
      complete c;;
      '(more, r2) ← paced_allocations r1 rest;
      mret (a :: more, r2)
  end.

(** What a run never changes of the ring buffer [r0] it started from, and
    where the cursor and the buffers stay: the cursor below the slot count,
    the main buffer older than anything the device will still create, and
    the auxiliary buffer, when there is one, a ring-category buffer other
    than the main one. *)
Definition ring_frame (r0 r : MetalRingBuffer.t) (w : World) : Prop :=
  MetalRingBuffer.mBuffer r = MetalRingBuffer.mBuffer r0 /\
  MetalRingBuffer.mSlotSizeBytes r = MetalRingBuffer.mSlotSizeBytes r0 /\
  MetalRingBuffer.mSlotCount r = MetalRingBuffer.mSlotCount r0 /\
  MetalRingBuffer.mOccupiedSlots r = MetalRingBuffer.mOccupiedSlots r0 /\
  0 <= MetalRingBuffer.mCurrentSlot r < MetalRingBuffer.mSlotCount r /\
  exists h,
    MetalRingBuffer.mBuffer r0 =
      {| TrackedMetalBuffer.mBuffer := Some h;
         TrackedMetalBuffer.mType := TrackedMetalBuffer.RING |} /\
    (h < dev_next (device w))%positive /\
    (MetalRingBuffer.mAuxBuffer r =
       {| TrackedMetalBuffer.mBuffer := None;
          TrackedMetalBuffer.mType := TrackedMetalBuffer.NONE |} \/
     exists a,
       MetalRingBuffer.mAuxBuffer r =
         {| TrackedMetalBuffer.mBuffer := Some a;
            TrackedMetalBuffer.mType := TrackedMetalBuffer.RING |} /\
       a <> h /\ (a < dev_next (device w))%positive).

(** The ring is full and nothing is pending that would free a slot. *)
Definition saturated (r : MetalRingBuffer.t) (w : World) : Prop :=
  in_flight r w = Some (MetalRingBuffer.mSlotCount r) /\
  pending (MetalRingBuffer.mOccupiedSlots r) w = [].

(** Tracked buffers a ring buffer holds: the main one, and the auxiliary
    one when there is one. *)
Definition ring_share (r : MetalRingBuffer.t) : Z :=
  1 + indicator (TrackedMetalBuffer.to_bool (MetalRingBuffer.mAuxBuffer r)).

(** The offsets of [n] successive slots taken in turn, starting at slot
    [first mod N]. *)
Definition round_robin_offsets (slotSize N first : Z) (n : nat) : list Z :=
  map (fun i => slotSize * ((first + Z.of_nat i) mod N)) (seq 0 n).

(** Adding [k] (on 64 bits) to the ring category's counter. *)
Definition bump (k : Z) (alive : list Z) : list Z :=
  alter (fun v => wrap (v + k)) 1%nat alive.

(** * Properties of [align] *)

Section AlignFacts.

Lemma wrap_small x : u64 x -> wrap x = x.
Proof. intros H. apply Z.mod_small. exact H. Qed.

Lemma wrap_u64 x : u64 (wrap x).
Proof. unfold u64, wrap. apply Z.mod_pos_bound. lia. Qed.

Lemma pow2_bounds k : 0 <= k < 64 -> 1 <= 2 ^ k /\ 2 ^ k <= 2 ^ 63.
Proof.
  intros Hk. split.
  - pose proof (Z.pow_pos_nonneg 2 k). lia.
  - apply Z.pow_le_mono_r; lia.
Qed.

Lemma pow2_u64 k : 0 <= k < 64 -> u64 (2 ^ k).
Proof.
  intros Hk. destruct (pow2_bounds k Hk) as [H1 H2]. unfold u64.
  assert (2 ^ 63 < 2 ^ 64) by (apply Z.pow_lt_mono_r; lia). lia.
Qed.

Lemma is_power_of_two_pow2 k : 0 <= k < 64 -> is_power_of_two (2 ^ k) = true.
Proof.
  intros Hk. destruct (pow2_bounds k Hk) as [H1 H2].
  pose proof (pow2_u64 k Hk) as Hu. unfold u64 in Hu.
  unfold is_power_of_two. apply andb_true_iff. split.
  - apply negb_true_iff, Z.eqb_neq. lia.
  - apply Z.eqb_eq. rewrite wrap_small by (unfold u64; lia).
    replace (2 ^ k - 1) with (Z.ones k) by (rewrite Z.ones_equiv; lia).
    rewrite Z.land_ones by lia. apply Z.mod_same. lia.
Qed.

(** Masking with [~(2^k - 1)] clears the low [k] bits. *)
Lemma land_bnot_mask x k :
  0 <= k < 64 -> u64 x ->
  Z.land x (bnot (wrap (2 ^ k - 1))) = x - x mod 2 ^ k.
Proof.
  intros Hk Hx. destruct (pow2_bounds k Hk) as [H1 H2].
  pose proof (pow2_u64 k Hk) as Hu. unfold u64 in Hu.
  rewrite wrap_small by (unfold u64; lia).
  replace (2 ^ k - 1) with (Z.ones k) by (rewrite Z.ones_equiv; lia).
  unfold bnot, wrap. rewrite <- (Z.land_ones _ 64) by lia.
  rewrite (Z.land_comm (Z.lnot _)), Z.land_assoc.
  rewrite (Z.land_ones x 64) by lia.
  rewrite (Z.mod_small x) by exact Hx.
  rewrite <- Z.ldiff_land, Z.ldiff_ones_r by lia.
  rewrite Z.shiftl_mul_pow2, Z.shiftr_div_pow2 by lia.
  pose proof (Z.div_mod x (2 ^ k)). lia.
Qed.

Lemma align_pow2 p k :
  0 <= k < 64 -> u64 (p + 2 ^ k - 1) ->
  align p (2 ^ k) = Ok (p + 2 ^ k - 1 - (p + 2 ^ k - 1) mod 2 ^ k).
Proof.
  intros Hk Hx. unfold align. rewrite is_power_of_two_pow2 by exact Hk.
  rewrite (wrap_small _ Hx). rewrite land_bnot_mask by assumption. reflexivity.
Qed.

Lemma round_up_eq x a : 0 < a -> round_up x a = x + a - 1 - (x + a - 1) mod a.
Proof.
  intros Ha. unfold round_up. pose proof (Z.div_mod (x + a - 1) a). lia.
Qed.

Lemma round_up_ge x a : 0 < a -> x <= round_up x a.
Proof.
  intros Ha. rewrite round_up_eq by exact Ha.
  pose proof (Z.mod_pos_bound (x + a - 1) a Ha). lia.
Qed.

Lemma round_up_lt x a : 0 < a -> round_up x a < x + a.
Proof.
  intros Ha. rewrite round_up_eq by exact Ha.
  pose proof (Z.mod_pos_bound (x + a - 1) a Ha). lia.
Qed.

Lemma round_up_multiple x a : 0 < a -> round_up x a mod a = 0.
Proof. intros Ha. unfold round_up. apply Z.mod_mul. lia. Qed.

Lemma round_up_least x a m : 0 < a -> m mod a = 0 -> x <= m -> round_up x a <= m.
Proof.
  intros Ha Hm Hx. unfold round_up.
  apply Z.mod_divide in Hm; [|lia]. destruct Hm as [j ->].
  apply Z.mul_le_mono_nonneg_r; [lia|].
  assert ((x + a - 1) / a < j + 1); [|lia].
  apply Z.div_lt_upper_bound; [lia|]. nia.
Qed.

Lemma round_up_fixed x a : 0 < a -> x mod a = 0 -> round_up x a = x.
Proof.
  intros Ha Hx.
  pose proof (round_up_ge x a Ha). pose proof (round_up_least x a x Ha Hx). lia.
Qed.

Lemma align_round_up p k :
  0 <= k < 64 -> u64 (p + 2 ^ k - 1) ->
  align p (2 ^ k) = Ok (round_up p (2 ^ k)).
Proof.
  intros Hk Hx. destruct (pow2_bounds k Hk).
  rewrite round_up_eq by lia. apply align_pow2; assumption.
Qed.

(** A multiple of [2^k] below [2^64] leaves room for [2^k - 1] more. *)
Lemma multiple_room r k :
  0 <= k < 64 -> r mod 2 ^ k = 0 -> r < 2 ^ 64 -> r + 2 ^ k - 1 < 2 ^ 64.
Proof.
  intros Hk Hr Hlt. destruct (pow2_bounds k Hk).
  apply Z.mod_divide in Hr; [|lia]. destruct Hr as [j ->].
  replace (2 ^ 64) with (2 ^ (64 - k) * 2 ^ k) in *
    by (rewrite <- Z.pow_add_r by lia; f_equal; lia).
  assert (j < 2 ^ (64 - k)) by nia. nia.
Qed.

End AlignFacts.

(** * The alignment helper and the slot size *)

Lemma platform_alignment_pow2 t :
  exists j, 0 <= j < 64 /\ METAL_CONSTANT_BUFFER_OFFSET_ALIGNMENT t = 2 ^ j.
Proof.
  destruct t; [exists 8 | exists 2 | exists 5]; split; try lia; reflexivity.
Qed.

Lemma land_le_l x y : 0 <= x -> 0 <= Z.land x y <= x.
Proof.
  intros Hx. apply Z.ldiff_le; [exact Hx|].
  apply Z.bits_inj'. intros n Hn.
  rewrite Z.ldiff_spec, Z.land_spec, Z.bits_0.
  destruct (Z.testbit x n), (Z.testbit y n); reflexivity.
Qed.

Lemma align_result_u64 p a r : align p a = Ok r -> u64 r.
Proof.
  unfold align. destruct (is_power_of_two a); [|discriminate].
  intros [= <-]. pose proof (wrap_u64 (p + a - 1)) as [H0 H1].
  pose proof (land_le_l (wrap (p + a - 1)) (bnot (wrap (a - 1))) H0).
  unfold u64. lia.
Qed.

(** C10, as stated, fails where [p + alignment - 1] wraps around: the
    64-bit sum of [2^64 - 1] and [2 - 1] is 0, so [align] returns 0, which is
    below [p]. *)
Lemma align_wraps_counterexample :
  align (2 ^ 64 - 1) (2 ^ 1) = Ok 0 /\
  ~ (forall p k, u64 p -> 0 <= k < 64 ->
       exists r, align p (2 ^ k) = Ok r /\ p <= r).
Proof.
  split; [reflexivity|].
  intros H. destruct (H (2 ^ 64 - 1) 1) as (r & Hr & Hle).
  - unfold u64. lia.
  - lia.
  - vm_compute in Hr. injection Hr as <-. vm_compute in Hle. apply Hle. reflexivity.
Qed.

(** C10 (amended): for a 64-bit [p] and an alignment [2^k] that fits 64
    bits, whenever [p + 2^k - 1] does not wrap around, [align p (2^k)]
    returns the least multiple of [2^k] that is at least [p]: it is a
    multiple, it is at least [p], no smaller multiple is, it is below
    [p + 2^k], and aligning it again returns it unchanged. *)
Theorem align_least_multiple p k :
  u64 p -> 0 <= k < 64 -> p + 2 ^ k - 1 < 2 ^ 64 ->
  exists r,
    align p (2 ^ k) = Ok r /\
    r mod 2 ^ k = 0 /\
    p <= r /\
    (forall m, m mod 2 ^ k = 0 -> p <= m -> r <= m) /\
    r < p + 2 ^ k /\
    align r (2 ^ k) = Ok r.
Proof.
  intros Hp Hk Hno. destruct (pow2_bounds k Hk) as [Hpos _].
  assert (Hx : u64 (p + 2 ^ k - 1)) by (unfold u64 in *; lia).
  exists (round_up p (2 ^ k)).
  pose proof (round_up_ge p (2 ^ k) ltac:(lia)) as Hge.
  pose proof (round_up_lt p (2 ^ k) ltac:(lia)) as Hlt.
  pose proof (round_up_multiple p (2 ^ k) ltac:(lia)) as Hmul.
  repeat split.
  - apply align_round_up; assumption.
  - exact Hmul.
  - exact Hge.
  - intros m Hm Hpm. apply round_up_least; [lia | assumption | assumption].
  - exact Hlt.
  - rewrite align_round_up.
    + rewrite round_up_fixed; [reflexivity | lia | exact Hmul].
    + exact Hk.
    + pose proof (multiple_room (round_up p (2 ^ k)) k Hk Hmul ltac:(lia)).
      unfold u64 in *. lia.
Qed.

Lemma align_least_multiple_witness :
  exists r,
    align 40 (2 ^ 3) = Ok r /\
    r mod 2 ^ 3 = 0 /\
    40 <= r /\
    (forall m, m mod 2 ^ 3 = 0 -> 40 <= m -> r <= m) /\
    r < 40 + 2 ^ 3 /\
    align r (2 ^ 3) = Ok r.
Proof. apply (align_least_multiple 40 3); unfold u64; lia. Defined.

(** The slot size in mathematical terms, where nothing wraps around. *)
Lemma computeSlotSize_round_up t layout k :
  0 <= k < 64 -> MTL.align layout = 2 ^ k ->
  0 <= MTL.size layout ->
  round_up (MTL.size layout) (2 ^ k) + METAL_CONSTANT_BUFFER_OFFSET_ALIGNMENT t - 1 < 2 ^ 64 ->
  computeSlotSize t layout =
    Ok (round_up (round_up (MTL.size layout) (2 ^ k))
                 (METAL_CONSTANT_BUFFER_OFFSET_ALIGNMENT t)).
Proof.
  intros Hk Ha Hs Hno.
  destruct (pow2_bounds k Hk) as [Hpos _].
  destruct (platform_alignment_pow2 t) as (j & Hj & HM).
  destruct (pow2_bounds j Hj) as [Hposj _].
  pose proof (round_up_ge (MTL.size layout) (2 ^ k) ltac:(lia)) as Hge.
  pose proof (round_up_lt (MTL.size layout) (2 ^ k) ltac:(lia)) as Hlt.
  unfold computeSlotSize. rewrite Ha.
  rewrite align_round_up; [|exact Hk|].
  - cbn. rewrite HM in *. apply align_round_up; [exact Hj|]. unfold u64. lia.
  - pose proof (round_up_multiple (MTL.size layout) (2 ^ k) ltac:(lia)) as Hmul.
    pose proof (multiple_room _ k Hk Hmul ltac:(lia)).
    unfold u64. lia.
Qed.

(** C5, as stated, fails: for size 65 and alignment 64 on a platform whose
    offset alignment is 32 the slot size is 128, while the larger of 65 and
    64 rounded up to 32 is 96. *)
Lemma computeSlotSize_max_counterexample :
  computeSlotSize OTHER {| MTL.size := 65; MTL.align := 64 |} = Ok 128 /\
  stated_slot_size OTHER {| MTL.size := 65; MTL.align := 64 |} = 96 /\
  ~ (forall t layout, computeSlotSize t layout = Ok (stated_slot_size t layout)).
Proof.
  split; [reflexivity|]. split; [reflexivity|].
  intros H. specialize (H OTHER {| MTL.size := 65; MTL.align := 64 |}).
  vm_compute in H. discriminate H.
Qed.

(** C5 (amended): the slot size is the requested size rounded up to the
    requested alignment, and that rounded up to the platform's offset
    alignment (for a power-of-two alignment and sizes that do not wrap
    around); for size 40 and alignment 8 with platform alignment 32 it is
    64. *)
Theorem computeSlotSize_rounds_twice t layout k :
  0 <= k < 64 -> MTL.align layout = 2 ^ k ->
  0 <= MTL.size layout ->
  round_up (MTL.size layout) (2 ^ k) + METAL_CONSTANT_BUFFER_OFFSET_ALIGNMENT t - 1 < 2 ^ 64 ->
  computeSlotSize t layout =
    Ok (round_up (round_up (MTL.size layout) (2 ^ k))
                 (METAL_CONSTANT_BUFFER_OFFSET_ALIGNMENT t)) /\
  computeSlotSize OTHER {| MTL.size := 40; MTL.align := 8 |} = Ok 64.
Proof.
  intros Hk Ha Hs Hno. split; [|reflexivity].
  apply computeSlotSize_round_up; assumption.
Qed.

Lemma computeSlotSize_rounds_twice_witness :
  computeSlotSize IOS {| MTL.size := 9; MTL.align := 8 |} =
    Ok (round_up (round_up 9 (2 ^ 3)) 4) /\
  computeSlotSize OTHER {| MTL.size := 40; MTL.align := 8 |} = Ok 64.
Proof.
  apply (computeSlotSize_rounds_twice IOS {| MTL.size := 9; MTL.align := 8 |} 3);
    try reflexivity; simpl; lia.
Defined.

(** C6, as stated, fails: against a ring whose slots are 64 bytes, the
    layout of size [2^64 - 1] and alignment 1 is accepted, because the
    rounding to the platform alignment wraps around to 0, while the size
    rounded up is [2^64] and does not fit in 64 bytes. *)
Lemma canAccomodateLayout_wraps_counterexample :
  let r := {| MetalRingBuffer.mDevice := tt;
              MetalRingBuffer.mBuffer :=
                {| TrackedMetalBuffer.mBuffer := Some 1%positive;
                   TrackedMetalBuffer.mType := TrackedMetalBuffer.RING |};
              MetalRingBuffer.mAuxBuffer :=
                {| TrackedMetalBuffer.mBuffer := None;
                   TrackedMetalBuffer.mType := TrackedMetalBuffer.NONE |};
              MetalRingBuffer.mBufferOptions := 0;
              MetalRingBuffer.mSlotSizeBytes := 64;
              MetalRingBuffer.mSlotCount := 2;
              MetalRingBuffer.mCurrentSlot := 0;
              MetalRingBuffer.mOccupiedSlots := 0%nat |} in
  let layout := {| MTL.size := 2 ^ 64 - 1; MTL.align := 1 |} in
  computeSlotSize OTHER layout = Ok 0 /\
  MetalRingBuffer.canAccomodateLayout OTHER r layout = Ok true /\
  round_up (round_up (MTL.size layout) (MTL.align layout))
           (METAL_CONSTANT_BUFFER_OFFSET_ALIGNMENT OTHER) = 2 ^ 64 /\
  stated_fits OTHER r layout = false /\
  ~ (forall t r' layout',
       MetalRingBuffer.canAccomodateLayout t r' layout' = Ok (stated_fits t r' layout')).
Proof.
  cbv zeta.
  split; [vm_compute; reflexivity|]. split; [vm_compute; reflexivity|].
  split; [vm_compute; reflexivity|]. split; [vm_compute; reflexivity|].
  intros H.
  specialize (H OTHER
    {| MetalRingBuffer.mDevice := tt;
       MetalRingBuffer.mBuffer :=
         {| TrackedMetalBuffer.mBuffer := Some 1%positive;
            TrackedMetalBuffer.mType := TrackedMetalBuffer.RING |};
       MetalRingBuffer.mAuxBuffer :=
         {| TrackedMetalBuffer.mBuffer := None;
            TrackedMetalBuffer.mType := TrackedMetalBuffer.NONE |};
       MetalRingBuffer.mBufferOptions := 0;
       MetalRingBuffer.mSlotSizeBytes := 64;
       MetalRingBuffer.mSlotCount := 2;
       MetalRingBuffer.mCurrentSlot := 0;
       MetalRingBuffer.mOccupiedSlots := 0%nat |}
    {| MTL.size := 2 ^ 64 - 1; MTL.align := 1 |}).
  vm_compute in H. discriminate H.
Qed.

(** C6 (amended): for every ring buffer and every layout whose alignment is
    a power of two and whose rounded-up size does not wrap around 64 bits,
    [canAccomodateLayout] returns, and returns true exactly when the size
    rounded up to the alignment and then to the platform alignment is at
    most the ring's slot size; for size 64 and alignment 16 against platform
    alignment 32 it returns true exactly when the ring's slot size is at
    least 64. *)
Theorem canAccomodateLayout_iff_fits t r layout k :
  0 <= k < 64 -> MTL.align layout = 2 ^ k -> 0 <= MTL.size layout ->
  round_up (MTL.size layout) (2 ^ k) + METAL_CONSTANT_BUFFER_OFFSET_ALIGNMENT t - 1 < 2 ^ 64 ->
  MetalRingBuffer.canAccomodateLayout t r layout = Ok (stated_fits t r layout) /\
  (stated_fits t r layout = true <->
   round_up (round_up (MTL.size layout) (2 ^ k))
            (METAL_CONSTANT_BUFFER_OFFSET_ALIGNMENT t)
     <= MetalRingBuffer.mSlotSizeBytes r) /\
  (exists b, MetalRingBuffer.canAccomodateLayout OTHER r
               {| MTL.size := 64; MTL.align := 16 |} = Ok b /\
     (b = true <-> 64 <= MetalRingBuffer.mSlotSizeBytes r)).
Proof.
  intros Hk Ha Hs Hno. split; [|split].
  - pose proof (computeSlotSize_round_up t layout k Hk Ha Hs Hno) as Hc.
    unfold MetalRingBuffer.canAccomodateLayout, stated_fits. rewrite Hc, Ha. reflexivity.
  - unfold stated_fits. rewrite Ha. apply Z.leb_le.
  - unfold MetalRingBuffer.canAccomodateLayout.
    replace (computeSlotSize OTHER {| MTL.size := 64; MTL.align := 16 |}) with (Ok 64)
      by reflexivity.
    cbn. eexists. split; [reflexivity|]. apply Z.leb_le.
Qed.

Lemma canAccomodateLayout_iff_fits_witness :
  let r := {| MetalRingBuffer.mDevice := tt;
              MetalRingBuffer.mBuffer :=
                {| TrackedMetalBuffer.mBuffer := Some 1%positive;
                   TrackedMetalBuffer.mType := TrackedMetalBuffer.RING |};
              MetalRingBuffer.mAuxBuffer :=
                {| TrackedMetalBuffer.mBuffer := None;
                   TrackedMetalBuffer.mType := TrackedMetalBuffer.NONE |};
              MetalRingBuffer.mBufferOptions := 0;
              MetalRingBuffer.mSlotSizeBytes := 64;
              MetalRingBuffer.mSlotCount := 2;
              MetalRingBuffer.mCurrentSlot := 0;
              MetalRingBuffer.mOccupiedSlots := 0%nat |} in
  (MetalRingBuffer.canAccomodateLayout OTHER r {| MTL.size := 41; MTL.align := 8 |} =
     Ok (stated_fits OTHER r {| MTL.size := 41; MTL.align := 8 |}) /\
   (stated_fits OTHER r {| MTL.size := 41; MTL.align := 8 |} = true <->
    round_up (round_up 41 (2 ^ 3)) 32 <= 64)) /\
  MetalRingBuffer.canAccomodateLayout OTHER r {| MTL.size := 65; MTL.align := 8 |} =
    Ok (stated_fits OTHER r {| MTL.size := 65; MTL.align := 8 |}) /\
  stated_fits OTHER r {| MTL.size := 41; MTL.align := 8 |} = true /\
  stated_fits OTHER r {| MTL.size := 65; MTL.align := 8 |} = false.
Proof.
  cbv zeta. split; [|split; [|split; reflexivity]].
  - refine ((fun H => conj (proj1 H) (proj1 (proj2 H)))
              (canAccomodateLayout_iff_fits OTHER _ {| MTL.size := 41; MTL.align := 8 |} 3
                 _ _ _ _)); try reflexivity; simpl; lia.
  - refine (proj1 (canAccomodateLayout_iff_fits OTHER _
                     {| MTL.size := 65; MTL.align := 8 |} 3 _ _ _ _));
      try reflexivity; simpl; lia.
Defined.

(** * Tracked buffers *)

Ltac munfold :=
  unfold mbind, mret, M_bind, M_ret, Result_bind, Result_ret,
    gets, modify, lift, assert_invariant in *.

Lemma toIndex_not_NONE ty :
  ty <> TrackedMetalBuffer.NONE ->
  TrackedMetalBuffer.is_NONE ty = false /\
  exists i, TrackedMetalBuffer.toIndex ty = Ok i /\ (i < 3)%nat.
Proof.
  intros H. destruct ty; [congruence| | |];
    (split; [reflexivity|]); eexists; (split; [reflexivity|]); lia.
Qed.

(** What the constructor does when it is given a handle. *)
Lemma ctor_handle h ty w i :
  TrackedMetalBuffer.toIndex ty = Ok i ->
  TrackedMetalBuffer.ctor (Some h) ty w =
    Ok ({| TrackedMetalBuffer.mBuffer := Some h; TrackedMetalBuffer.mType := ty |},
        let w1 := set_aliveBuffers (alter (fun v => wrap (v + 1)) i) w in
        if (TrackedMetalBuffer.EXCESS_BUFFER_COUNT <=? total_alive w1) && has_sink w1
        then set_stats (fun l => l ++ [excess_event (total_alive w1)]) w1
        else w1).
Proof.
  intros Hi. unfold TrackedMetalBuffer.ctor.
  assert (Hn : TrackedMetalBuffer.is_NONE ty = false).
  { unfold TrackedMetalBuffer.toIndex in Hi.
    destruct (TrackedMetalBuffer.is_NONE ty); [discriminate | reflexivity]. }
  munfold. rewrite Hn, Hi. cbn.
  unfold TrackedMetalBuffer.getAliveBuffers, debugUpdateStat, has_sink. munfold. cbn.
  fold (total_alive (set_aliveBuffers (alter (fun v => wrap (v + 1)) i) w)).
  destruct (TrackedMetalBuffer.EXCESS_BUFFER_COUNT <=? _); cbn; [|reflexivity].
  destruct (platform w) as [pf|]; cbn; [|reflexivity].
  destruct (hasDebugUpdateStatFunc pf); reflexivity.
Qed.

Lemma ctor_nil ty w :
  ty <> TrackedMetalBuffer.NONE ->
  TrackedMetalBuffer.ctor None ty w =
    Ok ({| TrackedMetalBuffer.mBuffer := None; TrackedMetalBuffer.mType := ty |}, w).
Proof.
  intros H. destruct (toIndex_not_NONE ty H) as [Hn _].
  unfold TrackedMetalBuffer.ctor. munfold. rewrite Hn. reflexivity.
Qed.

Lemma dtor_handle h ty w i :
  TrackedMetalBuffer.toIndex ty = Ok i ->
  TrackedMetalBuffer.dtor
    {| TrackedMetalBuffer.mBuffer := Some h; TrackedMetalBuffer.mType := ty |} w =
    Ok (tt, set_aliveBuffers (alter (fun v => wrap (v - 1)) i) w).
Proof.
  intros Hi. unfold TrackedMetalBuffer.dtor. cbn.
  assert (Hn : TrackedMetalBuffer.is_NONE ty = false).
  { unfold TrackedMetalBuffer.toIndex in Hi.
    destruct (TrackedMetalBuffer.is_NONE ty); [discriminate | reflexivity]. }
  munfold. rewrite Hn, Hi. reflexivity.
Qed.

Lemma dtor_nil ty w :
  TrackedMetalBuffer.dtor
    {| TrackedMetalBuffer.mBuffer := None; TrackedMetalBuffer.mType := ty |} w = Ok (tt, w).
Proof. reflexivity. Qed.

(** ** Diagnostics do not feed back *)

Section Respects.

Local Ltac split_same :=
  match goal with
  | H : same_but_diagnostics _ _ |- _ =>
      let Ha := fresh "Ha" in let Hd := fresh "Hd" in
      let Hc := fresh "Hc" in let Hh := fresh "Hh" in
      destruct H as (Ha & Hd & Hc & Hh)
  end.

Local Ltac prim :=
  intros w1 w2 Hs; split_same; unfold alike, same_but_diagnostics; cbn;
  repeat match goal with
         | H : _ = _ |- _ => rewrite H
         end.

Lemma same_refl w : same_but_diagnostics w w.
Proof. unfold same_but_diagnostics. auto. Qed.

Lemma respects_ret {A} (a : A) : respects (mret a).
Proof. intros w1 w2 Hs. split; [reflexivity | exact Hs]. Qed.

Lemma respects_bind {A B} (m : M A) (f : A -> M B) :
  respects m -> (forall a, respects (f a)) -> respects (m ≫= f).
Proof.
  intros Hm Hf w1 w2 Hs. specialize (Hm w1 w2 Hs).
  unfold mbind, M_bind. unfold alike in Hm.
  destruct (m w1) as [[a1 w1']|e1], (m w2) as [[a2 w2']|e2]; try contradiction.
  - destruct Hm as [-> Hs']. apply Hf. exact Hs'.
  - exact Hm.
Qed.

Lemma respects_lift {A} (r : Result A) : respects (lift r).
Proof. intros w1 w2 Hs. unfold lift, alike. destruct r; auto. Qed.

Lemma respects_assert_invariant c : respects (assert_invariant c).
Proof. intros w1 w2 Hs. unfold assert_invariant, alike. destruct c; auto. Qed.

Lemma respects_set_aliveBuffers f : respects (modify (set_aliveBuffers f)).
Proof. prim. auto. Qed.

Lemma respects_set_counters f : respects (modify (set_counters f)).
Proof. prim. auto. Qed.

Lemma respects_set_handlers f : respects (modify (set_handlers f)).
Proof. prim. auto. Qed.

Lemma respects_set_stats f : respects (modify (set_stats f)).
Proof. prim. auto. Qed.

Lemma respects_getAliveBuffers : respects TrackedMetalBuffer.getAliveBuffers.
Proof. prim. auto. Qed.

Lemma respects_gets_alive (i : nat) :
  respects (gets (fun w => default 0 (aliveBuffers w !! i))).
Proof. prim. auto. Qed.

Lemma respects_gets_handlers : respects (gets handlers).
Proof. prim. auto. Qed.

Lemma respects_newBufferWithLength len opts : respects (newBufferWithLength len opts).
Proof.
  intros w1 w2 Hs. split_same. unfold newBufferWithLength. rewrite Hd.
  destruct (dev_outcomes (device w2)) as [|[|] rest];
    unfold alike, same_but_diagnostics; cbn; auto.
Qed.

Lemma respects_addCompletedHandler c h : respects (addCompletedHandler c h).
Proof. apply respects_set_handlers. Qed.

Lemma respects_make_shared v : respects (make_shared v).
Proof. prim. auto. Qed.

Lemma respects_load p : respects (load p).
Proof.
  intros w1 w2 Hs. split_same. unfold load. rewrite Hc.
  destruct (counters w2 !! p) as [[v|]|]; unfold alike, same_but_diagnostics; auto.
Qed.

Lemma respects_fetch_add p d : respects (fetch_add p d).
Proof.
  intros w1 w2 Hs. split_same. unfold fetch_add. rewrite Hc.
  destruct (counters w2 !! p) as [[v|]|]; unfold alike, same_but_diagnostics; cbn;
    rewrite ?Hc; auto.
Qed.

Lemma respects_fetch_sub p d : respects (fetch_sub p d).
Proof.
  intros w1 w2 Hs. split_same. unfold fetch_sub. rewrite Hc.
  destruct (counters w2 !! p) as [[v|]|]; unfold alike, same_but_diagnostics; cbn;
    rewrite ?Hc; auto.
Qed.

Lemma respects_weak_lock p : respects (weak_lock p).
Proof.
  intros w1 w2 Hs. split_same. unfold weak_lock. rewrite Hc.
  destruct (counters w2 !! p) as [[v|]|]; unfold alike, same_but_diagnostics; auto.
Qed.

Lemma respects_shared_release p : respects (shared_release p).
Proof. apply respects_set_counters. Qed.

(** The guarded report: its outcome is [tt] and it writes diagnostics
    only, whatever sink is registered. *)
Lemma respects_report (total : Z) :
  respects (if TrackedMetalBuffer.EXCESS_BUFFER_COUNT <=? total then
              p ← gets platform;
              match p with
              | Some pf =>
                  if hasDebugUpdateStatFunc pf then
                    v ← TrackedMetalBuffer.getAliveBuffers;
                    debugUpdateStat "filament.metal.excess_buffers_allocated" v
                  else mret tt
              | None => mret tt
              end
            else mret tt).
Proof.
  destruct (TrackedMetalBuffer.EXCESS_BUFFER_COUNT <=? total); [|apply respects_ret].
  intros w1 w2 Hs. split_same.
  unfold alike, same_but_diagnostics, debugUpdateStat, TrackedMetalBuffer.getAliveBuffers.
  munfold. cbn.
  destruct (platform w1) as [p1|], (platform w2) as [p2|];
    try destruct (hasDebugUpdateStatFunc p1); try destruct (hasDebugUpdateStatFunc p2);
    cbn; auto.
Qed.

Lemma respects_ctor buffer ty : respects (TrackedMetalBuffer.ctor buffer ty).
Proof.
  unfold TrackedMetalBuffer.ctor.
  apply respects_bind; [apply respects_assert_invariant|]. intros _.
  apply respects_bind; [|intros; apply respects_ret].
  destruct buffer; [|apply respects_ret].
  apply respects_bind; [apply respects_lift|]. intros i.
  apply respects_bind; [apply respects_set_aliveBuffers|]. intros _.
  apply respects_bind; [apply respects_getAliveBuffers|]. intros total.
  apply respects_report.
Qed.

Lemma respects_dtor b : respects (TrackedMetalBuffer.dtor b).
Proof.
  unfold TrackedMetalBuffer.dtor. destruct (TrackedMetalBuffer.mBuffer b); [|apply respects_ret].
  apply respects_bind; [apply respects_assert_invariant|]. intros _.
  apply respects_bind; [apply respects_lift|]. intros i.
  apply respects_set_aliveBuffers.
Qed.

Lemma respects_assign_temporary lhs tmp :
  respects tmp -> respects (TrackedMetalBuffer.assign_temporary lhs tmp).
Proof.
  intros Ht. unfold TrackedMetalBuffer.assign_temporary.
  apply respects_bind; [exact Ht|]. intros o.
  destruct (TrackedMetalBuffer.swap lhs o) as [l' t'].
  apply respects_bind; [apply respects_dtor|]. intros _. apply respects_ret.
Qed.

Lemma respects_tracker_step op st : respects (tracker_step op st).
Proof.
  destruct st as [objs log]. destruct op as [b ty| |i|dst src]; cbn.
  - apply respects_bind; [apply respects_ctor|]. intros o. apply respects_ret.
  - apply respects_bind; [apply respects_ret|]. intros o. apply respects_ret.
  - destruct (objs !! i); [|apply respects_ret].
    apply respects_bind; [apply respects_dtor|]. intros _. apply respects_ret.
  - destruct (objs !! dst); [|apply respects_ret].
    destruct (objs !! src); apply respects_ret.
Qed.

Lemma respects_tracker_run ops : forall st, respects (tracker_run ops st).
Proof.
  induction ops as [|op rest IH]; intros st; cbn.
  - apply respects_ret.
  - apply respects_bind; [apply respects_tracker_step | exact IH].
Qed.

Lemma respects_completedHandler h : respects (MetalRingBuffer.completedHandler h).
Proof.
  unfold MetalRingBuffer.completedHandler.
  apply respects_bind; [apply respects_weak_lock|]. intros [p|]; [|apply respects_ret].
  apply respects_bind; [apply respects_fetch_sub|]. intros _. apply respects_ret.
Qed.

Lemma respects_run_handlers hs : respects (run_handlers hs).
Proof.
  induction hs as [|h rest IH]; cbn; [apply respects_ret|].
  apply respects_bind; [apply respects_completedHandler|]. intros _. exact IH.
Qed.

Lemma respects_complete c : respects (complete c).
Proof.
  unfold complete. apply respects_bind; [apply respects_gets_handlers|]. intros hs.
  apply respects_bind; [apply respects_set_handlers|]. intros _.
  apply respects_run_handlers.
Qed.

Lemma respects_createNewAllocation r c :
  respects (MetalRingBuffer.createNewAllocation r c).
Proof.
  unfold MetalRingBuffer.createNewAllocation.
  apply respects_bind; [apply respects_load|]. intros occ.
  apply respects_bind; [apply respects_assert_invariant|]. intros _.
  destruct (occ =? MetalRingBuffer.mSlotCount r).
  - apply respects_bind.
    + apply respects_assign_temporary.
      apply respects_bind; [apply respects_newBufferWithLength|]. intros b.
      apply respects_ctor.
    + intros aux. apply respects_bind; [apply respects_assert_invariant|].
      intros _. apply respects_ret.
  - apply respects_bind; [apply respects_fetch_add|]. intros _.
    apply respects_bind; [|intros r2; apply respects_ret].
    destruct (TrackedMetalBuffer.to_bool _).
    + apply respects_bind; [|intros; apply respects_ret].
      apply respects_assign_temporary. apply respects_ret.
    + apply respects_bind; [apply respects_addCompletedHandler|].
      intros _. apply respects_ret.
Qed.

Lemma respects_ring_run evs : forall r, respects (ring_run evs r).
Proof.
  induction evs as [|ev rest IH]; intros r; cbn; [apply respects_ret|].
  apply respects_bind; [|exact IH].
  destruct ev as [c|c]; cbn.
  - apply respects_bind; [apply respects_createNewAllocation|].
    intros [a r1]. apply respects_ret.
  - apply respects_bind; [apply respects_complete|]. intros _. apply respects_ret.
Qed.

End Respects.

(** ** The excess-allocation report *)

Lemma total_alive_set_stats f w : total_alive (set_stats f w) = total_alive w.
Proof. reflexivity. Qed.

Lemma list_neq_app_one {A} (l : list A) (x : A) : l ++ [x] <> l.
Proof.
  intros H. apply (f_equal (@length A)) in H. rewrite length_app in H. cbn in H. lia.
Qed.

(** C8, as stated, fails when no sink is registered: with 29999 buffers
    alive the construction brings the total to 30000 and nothing is
    reported. *)
Lemma excess_event_needs_sink_counterexample :
  let w := {| aliveBuffers := [29999; 0; 0]; platform := None; stats := [];
              device := {| dev_next := 2%positive; dev_outcomes := [] |};
              counters := []; handlers := [] |} in
  exists o w',
    TrackedMetalBuffer.ctor (Some 1%positive) TrackedMetalBuffer.GENERIC w = Ok (o, w') /\
    TrackedMetalBuffer.getAliveBuffers w' = Ok (30000, w') /\
    stats w' = stats w.
Proof. cbv zeta. eexists. eexists. repeat split; reflexivity. Qed.

(** C8 (amended): a construction with a non-null handle reports the
    excess-allocation event exactly when the total of alive buffers, this one
    included, is at least 30000 and a diagnostics sink with a stat function
    is registered; the report is made at every such construction; and the
    registered sink and what it has received change neither the constructed
    object, nor the counters, nor the outcome of anything run later. *)
Theorem excess_event_iff_threshold_and_sink h ty w :
  ty <> TrackedMetalBuffer.NONE ->
  exists w',
    TrackedMetalBuffer.ctor (Some h) ty w =
      Ok ({| TrackedMetalBuffer.mBuffer := Some h; TrackedMetalBuffer.mType := ty |}, w') /\
    TrackedMetalBuffer.getAliveBuffers w' = Ok (total_alive w', w') /\
    (stats w' = stats w ++ [excess_event (total_alive w')] <->
     30000 <= total_alive w' /\ has_sink w = true) /\
    (stats w' = stats w <-> ~ (30000 <= total_alive w' /\ has_sink w = true)) /\
    (forall h2 ty2, ty2 <> TrackedMetalBuffer.NONE ->
       exists w'',
         TrackedMetalBuffer.ctor (Some h2) ty2 w' =
           Ok ({| TrackedMetalBuffer.mBuffer := Some h2;
                  TrackedMetalBuffer.mType := ty2 |}, w'') /\
         (30000 <= total_alive w' -> 30000 <= total_alive w'' -> has_sink w = true ->
          stats w'' = stats w ++ [excess_event (total_alive w');
                                  excess_event (total_alive w'')])) /\
    (forall w2, same_but_diagnostics w w2 ->
       alike (TrackedMetalBuffer.ctor (Some h) ty w)
             (TrackedMetalBuffer.ctor (Some h) ty w2)) /\
    (forall w2, same_but_diagnostics w' w2 ->
       (forall ops st, alike (tracker_run ops st w') (tracker_run ops st w2)) /\
       (forall evs r, alike (ring_run evs r w') (ring_run evs r w2))).
Proof.
  intros Hty. destruct (toIndex_not_NONE ty Hty) as (_ & i & Hi & _).
  pose proof (ctor_handle h ty w i Hi) as Hctor. cbv zeta in Hctor.
  set (w1 := set_aliveBuffers (alter (fun v => wrap (v + 1)) i) w) in *.
  assert (Hsink : has_sink w1 = has_sink w) by reflexivity.
  assert (Hstats : stats w1 = stats w) by reflexivity.
  assert (Hcases :
    forall wx, wx = (if (TrackedMetalBuffer.EXCESS_BUFFER_COUNT <=? total_alive w1) && has_sink w1
                     then set_stats (fun l => l ++ [excess_event (total_alive w1)]) w1
                     else w1) ->
    total_alive wx = total_alive w1 /\ has_sink wx = has_sink w /\
    ((30000 <= total_alive w1 /\ has_sink w = true) /\
       stats wx = stats w ++ [excess_event (total_alive w1)] \/
     ~ (30000 <= total_alive w1 /\ has_sink w = true) /\ stats wx = stats w)).
  { intros wx ->. unfold TrackedMetalBuffer.EXCESS_BUFFER_COUNT. rewrite Hsink.
    destruct (30000 <=? total_alive w1) eqn:Hle; cbn [andb].
    - apply Z.leb_le in Hle. destruct (has_sink w) eqn:Hs.
      + split; [reflexivity|]. split; [exact Hs|]. left. auto.
      + split; [reflexivity|]. split; [exact Hs|]. right.
        split; [intros [_ ?]; discriminate | reflexivity].
    - apply Z.leb_gt in Hle. split; [reflexivity|]. split; [reflexivity|]. right.
      split; [intros [? _]; lia | reflexivity]. }
  set (w' := if (TrackedMetalBuffer.EXCESS_BUFFER_COUNT <=? total_alive w1) && has_sink w1
             then set_stats (fun l => l ++ [excess_event (total_alive w1)]) w1
             else w1) in *.
  destruct (Hcases w' eq_refl) as (Htot & Hsk & Hcase).
  exists w'. split; [exact Hctor|].
  split; [reflexivity|]. rewrite Htot.
  split; [|split; [|split; [|split]]].
  - destruct Hcase as [[Hc Hst]|[Hc Hst]]; rewrite Hst.
    + tauto.
    + split; [|tauto]. intros H. symmetry in H. apply list_neq_app_one in H. contradiction.
  - destruct Hcase as [[Hc Hst]|[Hc Hst]]; rewrite Hst.
    + split; [|tauto]. intros H. apply list_neq_app_one in H. contradiction.
    + tauto.
  - intros h2 ty2 Hty2. destruct (toIndex_not_NONE ty2 Hty2) as (_ & i2 & Hi2 & _).
    rewrite (ctor_handle h2 ty2 w' i2 Hi2). cbv zeta.
    eexists. split; [reflexivity|].
    set (w2 := set_aliveBuffers (alter (fun v => wrap (v + 1)) i2) w').
    intros H1 H2 Hs.
    assert (Hs2 : has_sink w2 = true) by (change (has_sink w' = true); congruence).
    destruct Hcase as [[Hc Hst]|[Hc Hst]]; [|tauto].
    unfold TrackedMetalBuffer.EXCESS_BUFFER_COUNT in *.
    destruct (30000 <=? total_alive w2) eqn:Hle2; rewrite Hs2; cbn [andb].
    + rewrite total_alive_set_stats.
      change (stats (set_stats (fun l => l ++ [excess_event (total_alive w2)]) w2))
        with (stats w' ++ [excess_event (total_alive w2)]).
      rewrite Hst, <- app_assoc. reflexivity.
    + apply Z.leb_gt in Hle2. cbn [andb] in H2. lia.
  - intros w2 Hs. apply respects_ctor. exact Hs.
  - intros w2 Hs. split.
    + intros ops st. apply respects_tracker_run. exact Hs.
    + intros evs r. apply respects_ring_run. exact Hs.
Qed.

Lemma excess_event_iff_threshold_and_sink_witness :
  exists w',
    TrackedMetalBuffer.ctor (Some 1%positive) TrackedMetalBuffer.RING
      {| aliveBuffers := [29999; 0; 0];
         platform := Some {| hasDebugUpdateStatFunc := true |}; stats := [];
         device := {| dev_next := 2%positive; dev_outcomes := [] |};
         counters := []; handlers := [] |} =
      Ok ({| TrackedMetalBuffer.mBuffer := Some 1%positive;
             TrackedMetalBuffer.mType := TrackedMetalBuffer.RING |}, w') /\
    stats w' = [excess_event 30000].
Proof.
  destruct (excess_event_iff_threshold_and_sink 1%positive TrackedMetalBuffer.RING
              {| aliveBuffers := [29999; 0; 0];
                 platform := Some {| hasDebugUpdateStatFunc := true |}; stats := [];
                 device := {| dev_next := 2%positive; dev_outcomes := [] |};
                 counters := []; handlers := [] |})
    as (w' & Hc & _); [discriminate|].
  exists w'. split; [exact Hc|].
  vm_compute in Hc. injection Hc as <-. reflexivity.
Defined.

(** ** Counting live objects *)

Section Counting.

Context {A : Type} (P : A -> bool).

Lemma count_app (l1 l2 : list A) :
  Z.of_nat (length (List.filter P (l1 ++ l2))) =
  Z.of_nat (length (List.filter P l1)) + Z.of_nat (length (List.filter P l2)).
Proof. rewrite List.filter_app, length_app. lia. Qed.

Lemma count_one (x : A) : Z.of_nat (length (List.filter P [x])) = indicator (P x).
Proof. cbn. destruct (P x); reflexivity. Qed.

Lemma count_nonneg (l : list A) : 0 <= Z.of_nat (length (List.filter P l)).
Proof. lia. Qed.

Lemma count_delete (l : list A) : forall i o,
  l !! i = Some o ->
  Z.of_nat (length (List.filter P (delete i l))) =
  Z.of_nat (length (List.filter P l)) - indicator (P o).
Proof.
  induction l as [|x l IH]; intros i o Hl; [discriminate|].
  destruct i as [|i]; cbn in Hl.
  - injection Hl as ->. cbn. destruct (P o); cbn [length indicator]; lia.
  - change (delete (S i) (x :: l)) with (x :: delete i l). cbn [List.filter].
    specialize (IH i o Hl). destruct (P x); cbn [length]; lia.
Qed.

Lemma count_insert (l : list A) : forall i o x,
  l !! i = Some o ->
  Z.of_nat (length (List.filter P (<[i := x]> l))) =
  Z.of_nat (length (List.filter P l)) - indicator (P o) + indicator (P x).
Proof.
  induction l as [|y l IH]; intros i o x Hl; [discriminate|].
  destruct i as [|i]; cbn in Hl.
  - injection Hl as ->. cbn. destruct (P o), (P x); cbn [length indicator]; lia.
  - change (<[S i := x]> (y :: l)) with (y :: <[i := x]> l). cbn [List.filter].
    specialize (IH i o x Hl). destruct (P y); cbn [length]; lia.
Qed.

End Counting.

(** ** The alive counters along a run *)

Lemma wrap_add_l x y : wrap (wrap x + y) = wrap (x + y).
Proof. unfold wrap. apply Zplus_mod_idemp_l. Qed.

Lemma wrap_sub_l x y : wrap (wrap x - y) = wrap (x - y).
Proof. unfold wrap. apply Zminus_mod_idemp_l. Qed.

Lemma type_eqb_eq a b : type_eqb a b = true <-> a = b.
Proof. destruct a, b; cbn; split; intros; congruence. Qed.

Lemma type_eqb_refl a : type_eqb a a = true.
Proof. destruct a; reflexivity. Qed.

Lemma live_app ty objs o :
  live ty (objs ++ [o]) =
  live ty objs +
  indicator (TrackedMetalBuffer.to_bool o && type_eqb (TrackedMetalBuffer.mType o) ty).
Proof. unfold live. rewrite count_app, count_one. reflexivity. Qed.

Lemma live_nonneg ty objs : 0 <= live ty objs.
Proof. unfold live. lia. Qed.

Lemma constructions_app ty log ty0 :
  constructions ty (log ++ [Constructed ty0]) =
  constructions ty log + indicator (type_eqb ty0 ty).
Proof. unfold constructions. rewrite count_app, count_one. reflexivity. Qed.

Lemma destructions_app_constructed ty log ty0 :
  destructions ty (log ++ [Constructed ty0]) = destructions ty log.
Proof. unfold destructions. rewrite count_app, count_one. cbn. lia. Qed.

Lemma destructions_app ty log ty0 :
  destructions ty (log ++ [Destroyed ty0]) =
  destructions ty log + indicator (type_eqb ty0 ty).
Proof. unfold destructions. rewrite count_app, count_one. reflexivity. Qed.

Lemma constructions_app_destroyed ty log ty0 :
  constructions ty (log ++ [Destroyed ty0]) = constructions ty log.
Proof. unfold constructions. rewrite count_app, count_one. cbn. lia. Qed.

(** The counters after a construction with a handle, whatever is reported. *)
Lemma ctor_handle_alive h ty w i :
  TrackedMetalBuffer.toIndex ty = Ok i ->
  exists w',
    TrackedMetalBuffer.ctor (Some h) ty w =
      Ok ({| TrackedMetalBuffer.mBuffer := Some h; TrackedMetalBuffer.mType := ty |}, w') /\
    aliveBuffers w' = alter (fun v => wrap (v + 1)) i (aliveBuffers w) /\
    device w' = device w /\ counters w' = counters w /\ handlers w' = handlers w.
Proof.
  intros Hi. rewrite (ctor_handle h ty w i Hi). cbv zeta.
  eexists. split; [reflexivity|].
  destruct (_ && _); cbn; auto.
Qed.

Lemma tracker_step_inv op st w :
  tracker_inv st w ->
  match op with
  | New _ ty => ty <> TrackedMetalBuffer.NONE
  | _ => True
  end ->
  exists st' w', tracker_step op st w = Ok (st', w') /\ tracker_inv st' w'.
Proof.
  destruct st as [objs log]. intros (Halive & Hwt & Hcnt) Hop. cbn [fst snd] in *.
  destruct op as [[h|] ty| |i|dst src]; cbn [tracker_step].
  - (* a construction with a handle *)
    destruct (toIndex_not_NONE ty Hop) as (_ & i & Hi & _).
    destruct (ctor_handle_alive h ty w i Hi) as (w' & Hc & Ha & _).
    munfold. rewrite Hc. cbn.
    eexists. eexists. split; [reflexivity|].
    split; [|split]; cbn [fst snd].
    + rewrite Ha, Halive, !live_app. cbn.
      destruct ty; try congruence; cbn in Hi; injection Hi as <-; cbn;
        rewrite wrap_add_l, ?Z.add_0_r; reflexivity.
    + apply Forall_app. split; [exact Hwt|]. constructor; [|constructor].
      intros _. exact Hop.
    + intros ty' Hty'. rewrite constructions_app, destructions_app_constructed, live_app.
      cbn. rewrite <- (Hcnt ty' Hty'). lia.
  - (* a construction with nil *)
    munfold. rewrite (ctor_nil ty w Hop). cbn.
    eexists. eexists. split; [reflexivity|].
    split; [|split]; cbn [fst snd].
    + rewrite Halive, !live_app. cbn. rewrite !Z.add_0_r. reflexivity.
    + apply Forall_app. split; [exact Hwt|]. constructor; [|constructor].
      intros H. discriminate H.
    + intros ty' Hty'. rewrite live_app. cbn. rewrite Z.add_0_r. apply Hcnt. exact Hty'.
  - (* the null constructor *)
    eexists. eexists. split; [reflexivity|].
    split; [|split]; cbn [fst snd].
    + rewrite Halive, !live_app. cbn. rewrite !Z.add_0_r. reflexivity.
    + apply Forall_app. split; [exact Hwt|]. constructor; [|constructor].
      intros H. discriminate H.
    + intros ty' Hty'. rewrite live_app. cbn. rewrite Z.add_0_r. apply Hcnt. exact Hty'.
  - (* a destruction *)
    destruct (objs !! i) as [o|] eqn:Hoi.
    + assert (Hwo : well_typed o).
      { rewrite Forall_forall in Hwt. apply Hwt. apply list_elem_of_In.
        eapply list_elem_of_lookup_2. exact Hoi. }
      assert (Hwt' : Forall well_typed (delete i objs)) by (apply Forall_delete; exact Hwt).
      destruct o as [[h|] ty].
      * assert (Hty : ty <> TrackedMetalBuffer.NONE) by (apply Hwo; reflexivity).
        destruct (toIndex_not_NONE ty Hty) as (_ & j & Hj & _).
        munfold. rewrite (dtor_handle h ty w j Hj). cbn.
        eexists. eexists. split; [reflexivity|].
        split; [|split]; cbn [fst snd].
        -- cbn. rewrite Halive. unfold live.
           rewrite !(count_delete _ objs i _ Hoi). cbn.
           destruct ty; try congruence; cbn in Hj; injection Hj as <-; cbn;
             rewrite wrap_sub_l, ?Z.sub_0_r; reflexivity.
        -- exact Hwt'.
        -- intros ty' Hty'. rewrite destructions_app, constructions_app_destroyed.
           unfold live. rewrite (count_delete _ objs i _ Hoi). cbn.
           pose proof (Hcnt ty' Hty') as Hc. unfold live in Hc. lia.
      * munfold. rewrite dtor_nil. cbn.
        eexists. eexists. split; [reflexivity|].
        split; [|split]; cbn [fst snd].
        -- rewrite Halive. unfold live. rewrite !(count_delete _ objs i _ Hoi). cbn.
           rewrite !Z.sub_0_r. reflexivity.
        -- exact Hwt'.
        -- intros ty' Hty'. unfold live. rewrite (count_delete _ objs i _ Hoi). cbn.
           pose proof (Hcnt ty' Hty') as Hc. unfold live in Hc. lia.
    + eexists. eexists. split; [reflexivity|]. split; [exact Halive|]. split; assumption.
  - (* a move assignment *)
    destruct (objs !! dst) as [a|] eqn:Ha; [|eexists; eexists; split; [reflexivity|];
      split; [exact Halive|]; split; assumption].
    destruct (objs !! src) as [b|] eqn:Hb; [|eexists; eexists; split; [reflexivity|];
      split; [exact Halive|]; split; assumption].
    cbn. eexists. eexists. split; [reflexivity|].
    assert (Hwa : well_typed a).
    { rewrite Forall_forall in Hwt. apply Hwt, list_elem_of_In.
      eapply list_elem_of_lookup_2. exact Ha. }
    assert (Hwb : well_typed b).
    { rewrite Forall_forall in Hwt. apply Hwt, list_elem_of_In.
      eapply list_elem_of_lookup_2. exact Hb. }
    set (a' := {| TrackedMetalBuffer.mBuffer := TrackedMetalBuffer.mBuffer b;
                  TrackedMetalBuffer.mType := TrackedMetalBuffer.mType b |}).
    set (b' := {| TrackedMetalBuffer.mBuffer := TrackedMetalBuffer.mBuffer a;
                  TrackedMetalBuffer.mType := TrackedMetalBuffer.mType a |}).
    assert (Ea : a' = b) by (destruct b; reflexivity).
    assert (Eb : b' = a) by (destruct a; reflexivity).
    rewrite Ea, Eb.
    assert (Hdst : <[src := a]> objs !! dst = Some a).
    { destruct (decide (src = dst)) as [->|Hne].
      - apply list_lookup_insert_eq. eapply lookup_lt_Some. exact Ha.
      - rewrite list_lookup_insert_ne by exact Hne. exact Ha. }
    assert (Hlive : forall ty', live ty' (<[dst := b]> (<[src := a]> objs)) = live ty' objs).
    { intros ty'. unfold live.
      rewrite (count_insert _ _ dst a b Hdst), (count_insert _ _ src b a Hb). lia. }
    split; [|split]; cbn [fst snd].
    + rewrite !Hlive. exact Halive.
    + apply Forall_insert; [apply Forall_insert|]; assumption.
    + intros ty' Hty'. rewrite Hlive. apply Hcnt. exact Hty'.
Qed.

Lemma tracker_run_inv ops : forall st w,
  tracker_inv st w -> typed_ops ops ->
  exists st' w', tracker_run ops st w = Ok (st', w') /\ tracker_inv st' w'.
Proof.
  induction ops as [|op rest IH]; intros st w Hinv Hops; cbn [tracker_run].
  - exists st, w. split; [reflexivity | exact Hinv].
  - apply Forall_cons_1 in Hops as [Hop Hrest].
    destruct (tracker_step_inv op st w Hinv Hop) as (st1 & w1 & Hstep & Hinv1).
    destruct (IH st1 w1 Hinv1 Hrest) as (st' & w' & Hrun & Hinv').
    exists st', w'. split; [|exact Hinv'].
    unfold mbind, M_bind. rewrite Hstep. exact Hrun.
Qed.

Lemma getAliveBuffersOf_lookup ty w i :
  TrackedMetalBuffer.toIndex ty = Ok i ->
  TrackedMetalBuffer.getAliveBuffersOf ty w = Ok (default 0 (aliveBuffers w !! i), w).
Proof.
  intros Hi. unfold TrackedMetalBuffer.getAliveBuffersOf.
  assert (Hn : TrackedMetalBuffer.is_NONE ty = false).
  { unfold TrackedMetalBuffer.toIndex in Hi.
    destruct (TrackedMetalBuffer.is_NONE ty); [discriminate | reflexivity]. }
  munfold. rewrite Hn, Hi. reflexivity.
Qed.

(** A construction with a handle adds one to its category's counter and
    leaves the other counters alone. *)
Lemma ctor_increments_once h ty w :
  ty <> TrackedMetalBuffer.NONE -> length (aliveBuffers w) = 3%nat ->
  exists w1,
    TrackedMetalBuffer.ctor (Some h) ty w =
      Ok ({| TrackedMetalBuffer.mBuffer := Some h; TrackedMetalBuffer.mType := ty |}, w1) /\
    forall ty', ty' <> TrackedMetalBuffer.NONE ->
      exists n,
        TrackedMetalBuffer.getAliveBuffersOf ty' w = Ok (n, w) /\
        TrackedMetalBuffer.getAliveBuffersOf ty' w1 =
          Ok (if type_eqb ty ty' then wrap (n + 1) else n, w1).
Proof.
  intros Hty Hlen. destruct (toIndex_not_NONE ty Hty) as (_ & i & Hi & _).
  destruct (ctor_handle_alive h ty w i Hi) as (w1 & Hc & Ha & _).
  exists w1. split; [exact Hc|]. intros ty' Hty'.
  destruct (toIndex_not_NONE ty' Hty') as (_ & j & Hj & _).
  rewrite (getAliveBuffersOf_lookup ty' w j Hj), (getAliveBuffersOf_lookup ty' w1 j Hj), Ha.
  eexists. split; [reflexivity|].
  destruct (aliveBuffers w) as [|a [|b [|c [|]]]]; try discriminate Hlen.
  destruct ty, ty'; try congruence; cbn in Hi, Hj;
    injection Hi as <-; injection Hj as <-; reflexivity.
Qed.

(** A destruction subtracts one from the category's counter exactly when
    the object holds a handle; otherwise it changes nothing. *)
Lemma dtor_decrements_iff_handle o w :
  well_typed o -> length (aliveBuffers w) = 3%nat ->
  exists w1,
    TrackedMetalBuffer.dtor o w = Ok (tt, w1) /\
    (TrackedMetalBuffer.to_bool o = false -> w1 = w) /\
    forall ty', ty' <> TrackedMetalBuffer.NONE ->
      exists n,
        TrackedMetalBuffer.getAliveBuffersOf ty' w = Ok (n, w) /\
        TrackedMetalBuffer.getAliveBuffersOf ty' w1 =
          Ok (if TrackedMetalBuffer.to_bool o && type_eqb (TrackedMetalBuffer.mType o) ty'
              then wrap (n - 1) else n, w1).
Proof.
  intros Hwo Hlen. destruct o as [[h|] ty].
  - assert (Hty : ty <> TrackedMetalBuffer.NONE) by (apply Hwo; reflexivity).
    destruct (toIndex_not_NONE ty Hty) as (_ & i & Hi & _).
    rewrite (dtor_handle h ty w i Hi). eexists. split; [reflexivity|].
    split; [discriminate|]. intros ty' Hty'.
    destruct (toIndex_not_NONE ty' Hty') as (_ & j & Hj & _).
    rewrite !(getAliveBuffersOf_lookup ty' _ j Hj).
    eexists. split; [reflexivity|]. cbn [aliveBuffers set_aliveBuffers].
    destruct (aliveBuffers w) as [|a [|b [|c [|]]]]; try discriminate Hlen.
    destruct ty, ty'; try congruence; cbn in Hi, Hj;
      injection Hi as <-; injection Hj as <-; reflexivity.
  - rewrite dtor_nil. exists w. split; [reflexivity|]. split; [reflexivity|].
    intros ty' Hty'. destruct (toIndex_not_NONE ty' Hty') as (_ & j & Hj & _).
    rewrite (getAliveBuffersOf_lookup ty' w j Hj). eexists. split; reflexivity.
Qed.

Ltac wrap_list :=
  repeat match goal with
         | |- _ :: _ = _ :: _ => f_equal
         | |- wrap _ = wrap _ => f_equal; lia
         | |- [] = [] => reflexivity
         end.

Lemma destroy_all_counts objs : forall w a b c,
  Forall well_typed objs ->
  aliveBuffers w = [wrap a; wrap b; wrap c] ->
  exists w',
    destroy_all objs w = Ok (tt, w') /\
    aliveBuffers w' =
      [wrap (a - live TrackedMetalBuffer.GENERIC objs);
       wrap (b - live TrackedMetalBuffer.RING objs);
       wrap (c - live TrackedMetalBuffer.STAGING objs)].
Proof.
  induction objs as [|o rest IH]; intros w a b c Hwt Ha; cbn [destroy_all].
  - exists w. split; [reflexivity|]. rewrite Ha. unfold live. cbn.
    rewrite !Z.sub_0_r. reflexivity.
  - apply Forall_cons_1 in Hwt as [Hwo Hrest].
    assert (Hlive : forall ty, live ty (o :: rest) =
      indicator (TrackedMetalBuffer.to_bool o && type_eqb (TrackedMetalBuffer.mType o) ty)
      + live ty rest).
    { intros ty. unfold live. change (o :: rest) with ([o] ++ rest).
      rewrite count_app, count_one. reflexivity. }
    destruct o as [[h|] ty].
    + assert (Hty : ty <> TrackedMetalBuffer.NONE) by (apply Hwo; reflexivity).
      destruct (toIndex_not_NONE ty Hty) as (_ & i & Hi & _).
      unfold mbind, M_bind. rewrite (dtor_handle h ty w i Hi).
      destruct ty; try congruence; cbn in Hi; injection Hi as <-.
      * destruct (IH (set_aliveBuffers (alter (fun v => wrap (v - 1)) 0%nat) w)
                    (a - 1) b c Hrest) as (w' & Hd & Ha').
        { cbn. rewrite Ha. cbn. rewrite wrap_sub_l. reflexivity. }
        exists w'. split; [exact Hd|]. rewrite Ha', !Hlive. cbn. wrap_list.
      * destruct (IH (set_aliveBuffers (alter (fun v => wrap (v - 1)) 1%nat) w)
                    a (b - 1) c Hrest) as (w' & Hd & Ha').
        { cbn. rewrite Ha. cbn. rewrite wrap_sub_l. reflexivity. }
        exists w'. split; [exact Hd|]. rewrite Ha', !Hlive. cbn. wrap_list.
      * destruct (IH (set_aliveBuffers (alter (fun v => wrap (v - 1)) 2%nat) w)
                    a b (c - 1) Hrest) as (w' & Hd & Ha').
        { cbn. rewrite Ha. cbn. rewrite wrap_sub_l. reflexivity. }
        exists w'. split; [exact Hd|]. rewrite Ha', !Hlive. cbn. wrap_list.
    + unfold mbind, M_bind. rewrite dtor_nil.
      destruct (IH w a b c Hrest Ha) as (w' & Hd & Ha').
      exists w'. split; [exact Hd|]. rewrite Ha', !Hlive. cbn. wrap_list.
Qed.

(** C7: from process start, along every run of constructions, null
    constructions, destructions and move assignments: the counter of each
    category equals the number of constructions with a non-null handle
    minus the number of destructions of handle-holding objects of that
    category (on 64 bits, and exactly whenever that number fits); a further
    construction with a non-null handle adds one to its category's counter
    only; destroying a live object subtracts one from its category's
    counter exactly when it holds a handle; and destroying all live objects
    returns the total to 0. *)
Theorem alive_counters_track_objects ops w :
  fresh_tracker w -> typed_ops ops ->
  exists objs log w',
    tracker_run ops ([], []) w = Ok ((objs, log), w') /\
    (forall ty, ty <> TrackedMetalBuffer.NONE ->
       TrackedMetalBuffer.getAliveBuffersOf ty w' =
         Ok (wrap (constructions ty log - destructions ty log), w') /\
       0 <= constructions ty log - destructions ty log /\
       (constructions ty log - destructions ty log < 2 ^ 64 ->
        TrackedMetalBuffer.getAliveBuffersOf ty w' =
          Ok (constructions ty log - destructions ty log, w'))) /\
    (forall h ty, ty <> TrackedMetalBuffer.NONE ->
       exists w1,
         TrackedMetalBuffer.ctor (Some h) ty w' =
           Ok ({| TrackedMetalBuffer.mBuffer := Some h;
                  TrackedMetalBuffer.mType := ty |}, w1) /\
         forall ty', ty' <> TrackedMetalBuffer.NONE ->
           exists n,
             TrackedMetalBuffer.getAliveBuffersOf ty' w' = Ok (n, w') /\
             TrackedMetalBuffer.getAliveBuffersOf ty' w1 =
               Ok (if type_eqb ty ty' then wrap (n + 1) else n, w1)) /\
    (forall i o, objs !! i = Some o ->
       exists w1,
         TrackedMetalBuffer.dtor o w' = Ok (tt, w1) /\
         (TrackedMetalBuffer.to_bool o = false -> w1 = w') /\
         forall ty', ty' <> TrackedMetalBuffer.NONE ->
           exists n,
             TrackedMetalBuffer.getAliveBuffersOf ty' w' = Ok (n, w') /\
             TrackedMetalBuffer.getAliveBuffersOf ty' w1 =
               Ok (if TrackedMetalBuffer.to_bool o
                      && type_eqb (TrackedMetalBuffer.mType o) ty'
                   then wrap (n - 1) else n, w1)) /\
    exists w'',
      destroy_all objs w' = Ok (tt, w'') /\
      TrackedMetalBuffer.getAliveBuffers w'' = Ok (0, w'').
Proof.
  intros Hfresh Hops.
  assert (Hinv0 : tracker_inv ([], []) w).
  { split; [exact Hfresh|]. split; [constructor|]. intros ty _. reflexivity. }
  destruct (tracker_run_inv ops ([], []) w Hinv0 Hops) as ([objs log] & w' & Hrun & Hinv).
  destruct Hinv as (Halive & Hwt & Hcnt). cbn [fst snd] in *.
  assert (Hlen : length (aliveBuffers w') = 3%nat) by (rewrite Halive; reflexivity).
  exists objs, log, w'. split; [exact Hrun|].
  split; [|split; [|split]].
  - intros ty Hty. rewrite (Hcnt ty Hty).
    destruct (toIndex_not_NONE ty Hty) as (_ & i & Hi & _).
    rewrite (getAliveBuffersOf_lookup ty w' i Hi), Halive.
    pose proof (live_nonneg ty objs) as Hnn.
    assert (Hval : default 0
              ([wrap (live TrackedMetalBuffer.GENERIC objs);
                wrap (live TrackedMetalBuffer.RING objs);
                wrap (live TrackedMetalBuffer.STAGING objs)] !! i) = wrap (live ty objs)).
    { destruct ty; try congruence; cbn in Hi; injection Hi as <-; reflexivity. }
    rewrite Hval. split; [reflexivity|]. split; [exact Hnn|].
    intros Hlt. rewrite wrap_small by (unfold u64; lia). reflexivity.
  - intros h ty Hty. apply ctor_increments_once; assumption.
  - intros i o Ho. apply dtor_decrements_iff_handle; [|exact Hlen].
    rewrite Forall_forall in Hwt. apply Hwt, list_elem_of_In.
    eapply list_elem_of_lookup_2. exact Ho.
  - destruct (destroy_all_counts objs w' _ _ _ Hwt Halive) as (w'' & Hd & Ha).
    exists w''. split; [exact Hd|].
    unfold TrackedMetalBuffer.getAliveBuffers, gets. rewrite Ha, !Z.sub_diag. reflexivity.
Qed.

Lemma alive_counters_track_objects_witness :
  exists objs log w',
    tracker_run
      [New (Some 1%positive) TrackedMetalBuffer.RING; NewNull;
       New (Some 2%positive) TrackedMetalBuffer.GENERIC; MoveAssign 1 0; Delete 0]
      ([], [])
      {| aliveBuffers := [0; 0; 0]; platform := None; stats := [];
         device := {| dev_next := 3%positive; dev_outcomes := [] |};
         counters := []; handlers := [] |} = Ok ((objs, log), w') /\
    TrackedMetalBuffer.getAliveBuffersOf TrackedMetalBuffer.RING w' =
      Ok (wrap (constructions TrackedMetalBuffer.RING log
                - destructions TrackedMetalBuffer.RING log), w').
Proof.
  destruct (alive_counters_track_objects
              [New (Some 1%positive) TrackedMetalBuffer.RING; NewNull;
               New (Some 2%positive) TrackedMetalBuffer.GENERIC; MoveAssign 1 0; Delete 0]
              {| aliveBuffers := [0; 0; 0]; platform := None; stats := [];
                 device := {| dev_next := 3%positive; dev_outcomes := [] |};
                 counters := []; handlers := [] |})
    as (objs & log & w' & Hrun & Hcount & _).
  - reflexivity.
  - repeat constructor; discriminate.
  - exists objs, log, w'. split; [exact Hrun|].
    apply (Hcount TrackedMetalBuffer.RING). discriminate.
Defined.

(** * The ring buffer *)

Lemma dtor_keeps o w w1 :
  TrackedMetalBuffer.dtor o w = Ok (tt, w1) ->
  device w1 = device w /\ counters w1 = counters w /\ handlers w1 = handlers w /\
  stats w1 = stats w /\ platform w1 = platform w.
Proof.
  unfold TrackedMetalBuffer.dtor. destruct (TrackedMetalBuffer.mBuffer o).
  - munfold. destruct (negb _); [|discriminate].
    destruct (TrackedMetalBuffer.toIndex _); [|discriminate].
    intros [= <-]. cbn. auto.
  - intros [= <-]. auto.
Qed.

Lemma dtor_well_typed o w :
  well_typed o -> exists w1, TrackedMetalBuffer.dtor o w = Ok (tt, w1).
Proof.
  intros Hwo. destruct o as [[h|] ty].
  - assert (Hty : ty <> TrackedMetalBuffer.NONE) by (apply Hwo; reflexivity).
    destruct (toIndex_not_NONE ty Hty) as (_ & i & Hi & _).
    rewrite (dtor_handle h ty w i Hi). eexists. reflexivity.
  - rewrite dtor_nil. eexists. reflexivity.
Qed.

(** The device's answer to a request. *)
Lemma newBuffer_cases len opts w :
  (exists rest, dev_outcomes (device w) = false :: rest /\
     newBufferWithLength len opts w =
       Ok (None, set_device {| dev_next := dev_next (device w); dev_outcomes := rest |} w)) \/
  (newBufferWithLength len opts w =
     Ok (Some (dev_next (device w)),
         set_device {| dev_next := Pos.succ (dev_next (device w));
                       dev_outcomes := tail (dev_outcomes (device w)) |} w) /\
   hd true (dev_outcomes (device w)) = true).
Proof.
  unfold newBufferWithLength. destruct (dev_outcomes (device w)) as [|[|] rest].
  - right. split; reflexivity.
  - right. split; reflexivity.
  - left. exists rest. split; reflexivity.
Qed.

Lemma device_reliable_head w : device_reliable w -> hd true (dev_outcomes (device w)) = true.
Proof.
  unfold device_reliable. destruct (dev_outcomes (device w)) as [|b rest]; [reflexivity|].
  intros H. apply Forall_cons_1 in H as [-> _]. reflexivity.
Qed.

Lemma device_reliable_tail w :
  device_reliable w -> Forall (fun b => b = true) (tail (dev_outcomes (device w))).
Proof.
  unfold device_reliable. destruct (dev_outcomes (device w)) as [|b rest]; [constructor|].
  intros H. apply Forall_cons_1 in H as [_ H]. exact H.
Qed.

(** Building a tracked ring-category buffer from a fresh device buffer and
    assigning it over [old]. *)
Lemma assign_fresh_buffer old len opts w :
  well_typed old ->
  hd true (dev_outcomes (device w)) = true ->
  exists w',
    TrackedMetalBuffer.assign_temporary old
      (b ← newBufferWithLength len opts;
       TrackedMetalBuffer.ctor b TrackedMetalBuffer.RING) w =
      Ok ({| TrackedMetalBuffer.mBuffer := Some (dev_next (device w));
             TrackedMetalBuffer.mType := TrackedMetalBuffer.RING |}, w') /\
    device w' = {| dev_next := Pos.succ (dev_next (device w));
                   dev_outcomes := tail (dev_outcomes (device w)) |} /\
    counters w' = counters w /\ handlers w' = handlers w.
Proof.
  intros Hwo Hhd.
  destruct (newBuffer_cases len opts w) as [(rest & Hout & _)|[Hnew _]].
  { rewrite Hout in Hhd. discriminate Hhd. }
  set (w1 := set_device _ w) in Hnew.
  destruct (ctor_handle_alive (dev_next (device w)) TrackedMetalBuffer.RING w1 1%nat eq_refl)
    as (w2 & Hc & _ & Hd2 & Hc2 & Hh2).
  assert (Hold : well_typed
            {| TrackedMetalBuffer.mBuffer := TrackedMetalBuffer.mBuffer old;
               TrackedMetalBuffer.mType := TrackedMetalBuffer.mType old |})
    by (destruct old; exact Hwo).
  destruct (dtor_well_typed _ w2 Hold) as (w3 & Hdt).
  destruct (dtor_keeps _ _ _ Hdt) as (Hd3 & Hc3 & Hh3 & _).
  exists w3. split.
  - unfold TrackedMetalBuffer.assign_temporary, TrackedMetalBuffer.swap.
    unfold mbind, M_bind, mret, M_ret. rewrite Hnew. cbv beta iota. rewrite Hc.
    cbn [TrackedMetalBuffer.mBuffer TrackedMetalBuffer.mType]. rewrite Hdt. reflexivity.
  - rewrite Hd3, Hc3, Hh3, Hd2, Hc2, Hh2. auto.
Qed.

(** The same when the device fails the request: the assigned buffer is
    null. *)
Lemma assign_failed_buffer old len opts w rest :
  dev_outcomes (device w) = false :: rest ->
  forall b w',
    TrackedMetalBuffer.assign_temporary old
      (b ← newBufferWithLength len opts;
       TrackedMetalBuffer.ctor b TrackedMetalBuffer.RING) w = Ok (b, w') ->
    TrackedMetalBuffer.to_bool b = false.
Proof.
  intros Hout b w'.
  unfold TrackedMetalBuffer.assign_temporary, TrackedMetalBuffer.swap, newBufferWithLength.
  unfold mbind, M_bind, mret, M_ret. rewrite Hout.
  rewrite ctor_nil by discriminate.
  cbn [TrackedMetalBuffer.mBuffer TrackedMetalBuffer.mType].
  destruct (TrackedMetalBuffer.dtor _ _) as [[[] w2]|e]; [|discriminate].
  intros [= <- _]. reflexivity.
Qed.

Section RingSteps.

Import MetalRingBuffer.

Variable r : MetalRingBuffer.t.
Variable w : World.
Variable v : Z.
Hypothesis Hcell : counters w !! mOccupiedSlots r = Some (Some v).

(** A free slot and no auxiliary buffer: the cursor advances, the count
    grows by one and a handler is added to the command buffer. *)
Lemma createNewAllocation_slot c :
  v < mSlotCount r ->
  TrackedMetalBuffer.to_bool (mAuxBuffer r) = false ->
  createNewAllocation r c w =
    Ok (((TrackedMetalBuffer.get (mBuffer r), wrap (next_slot r * mSlotSizeBytes r)),
         set_mCurrentSlot (next_slot r) r),
        set_handlers (fun l => l ++ [(c, {| slots := mOccupiedSlots r |})])
          (set_counters (fun l => <[mOccupiedSlots r := Some (wrap (v + 1))]> l) w)).
Proof.
  intros Hlt Haux. unfold createNewAllocation, load, fetch_add, addCompletedHandler.
  munfold. rewrite Hcell.
  assert (Hle : (v <=? mSlotCount r) = true) by (apply Z.leb_le; lia).
  assert (Hne : (v =? mSlotCount r) = false) by (apply Z.eqb_neq; lia).
  rewrite Hle, Hne. cbn [mOccupiedSlots set_mCurrentSlot mAuxBuffer]. rewrite Hcell, Haux.
  unfold getCurrentAllocation. cbn [mAuxBuffer set_mCurrentSlot]. rewrite Haux.
  reflexivity.
Qed.

(** A free slot while an auxiliary buffer exists: the cursor advances and
    the count grows by one, the auxiliary buffer is dropped, and no handler
    is added. *)
Lemma createNewAllocation_slot_after_aux c a ty i :
  v < mSlotCount r ->
  mAuxBuffer r = {| TrackedMetalBuffer.mBuffer := Some a; TrackedMetalBuffer.mType := ty |} ->
  TrackedMetalBuffer.toIndex ty = Ok i ->
  createNewAllocation r c w =
    Ok (((TrackedMetalBuffer.get (mBuffer r), wrap (next_slot r * mSlotSizeBytes r)),
         set_mAuxBuffer {| TrackedMetalBuffer.mBuffer := None;
                           TrackedMetalBuffer.mType := TrackedMetalBuffer.NONE |}
           (set_mCurrentSlot (next_slot r) r)),
        set_aliveBuffers (alter (fun x => wrap (x - 1)) i)
          (set_counters (fun l => <[mOccupiedSlots r := Some (wrap (v + 1))]> l) w)).
Proof.
  intros Hlt Haux Hi. unfold createNewAllocation, load, fetch_add.
  munfold. rewrite Hcell.
  assert (Hle : (v <=? mSlotCount r) = true) by (apply Z.leb_le; lia).
  assert (Hne : (v =? mSlotCount r) = false) by (apply Z.eqb_neq; lia).
  rewrite Hle, Hne. cbn [mOccupiedSlots set_mCurrentSlot mAuxBuffer]. rewrite Hcell, Haux.
  cbn [TrackedMetalBuffer.to_bool TrackedMetalBuffer.mBuffer].
  unfold TrackedMetalBuffer.assign_temporary, TrackedMetalBuffer.ctor_nullptr,
    TrackedMetalBuffer.swap.
  munfold. cbn [TrackedMetalBuffer.mBuffer TrackedMetalBuffer.mType].
  rewrite (dtor_handle a ty _ i Hi).
  unfold getCurrentAllocation. reflexivity.
Qed.

(** No free slot: a fresh auxiliary buffer replaces the old one; cursor,
    count and handlers stay as they are. *)
Lemma createNewAllocation_overflow c :
  v = mSlotCount r ->
  well_typed (mAuxBuffer r) ->
  hd true (dev_outcomes (device w)) = true ->
  exists w',
    createNewAllocation r c w =
      Ok (((Some (dev_next (device w)), 0),
           set_mAuxBuffer {| TrackedMetalBuffer.mBuffer := Some (dev_next (device w));
                             TrackedMetalBuffer.mType := TrackedMetalBuffer.RING |} r),
          w') /\
    device w' = {| dev_next := Pos.succ (dev_next (device w));
                   dev_outcomes := tail (dev_outcomes (device w)) |} /\
    counters w' = counters w /\ handlers w' = handlers w.
Proof.
  intros Heq Hwt Hhd.
  destruct (assign_fresh_buffer (mAuxBuffer r) (mSlotSizeBytes r) (mBufferOptions r) w Hwt Hhd)
    as (w' & Hassign & Hd & Hc & Hh).
  exists w'. split; [|auto].
  unfold createNewAllocation, load. unfold mbind at 1 2. unfold M_bind at 1 2.
  rewrite Hcell. unfold assert_invariant.
  assert (Hle : (v <=? mSlotCount r) = true) by (apply Z.leb_le; lia).
  assert (Hne : (v =? mSlotCount r) = true) by (apply Z.eqb_eq; lia).
  rewrite Hle, Hne. unfold mbind at 1. unfold M_bind at 1.
  rewrite Hassign. reflexivity.
Qed.

(** No free slot and the device fails the request: the call stops at
    [assert_invariant(mAuxBuffer)]. *)
Lemma createNewAllocation_overflow_failed c rest :
  v = mSlotCount r ->
  dev_outcomes (device w) = false :: rest ->
  forall res, createNewAllocation r c w <> Ok res.
Proof.
  intros Heq Hout res.
  pose proof (assign_failed_buffer (mAuxBuffer r) (mSlotSizeBytes r) (mBufferOptions r)
                w rest Hout) as Hfail.
  unfold createNewAllocation, load. unfold mbind at 1 2. unfold M_bind at 1 2.
  rewrite Hcell. unfold assert_invariant.
  assert (Hle : (v <=? mSlotCount r) = true) by (apply Z.leb_le; lia).
  assert (Hne : (v =? mSlotCount r) = true) by (apply Z.eqb_eq; lia).
  rewrite Hle, Hne. unfold mbind at 1. unfold M_bind at 1.
  destruct (TrackedMetalBuffer.assign_temporary _ _ w) as [[b w']|e]; [|discriminate].
  specialize (Hfail b w' eq_refl).
  unfold mbind, M_bind. cbn [mAuxBuffer set_mAuxBuffer]. rewrite Hfail. discriminate.
Qed.

End RingSteps.

(** What a successful construction leaves: slot 0 is the current
    allocation, the cell is new and holds 1, there is no auxiliary buffer,
    and the main buffer is the device's newest. *)
Lemma ctor_success target opts layout N w r0 w0 :
  MetalRingBuffer.ctor target tt opts layout N w = Ok (r0, w0) ->
  exists s,
    computeSlotSize target layout = Ok s /\
    r0 = {| MetalRingBuffer.mDevice := tt;
            MetalRingBuffer.mBuffer :=
              {| TrackedMetalBuffer.mBuffer := Some (dev_next (device w));
                 TrackedMetalBuffer.mType := TrackedMetalBuffer.RING |};
            MetalRingBuffer.mAuxBuffer :=
              {| TrackedMetalBuffer.mBuffer := None;
                 TrackedMetalBuffer.mType := TrackedMetalBuffer.NONE |};
            MetalRingBuffer.mBufferOptions := opts;
            MetalRingBuffer.mSlotSizeBytes := s;
            MetalRingBuffer.mSlotCount := N;
            MetalRingBuffer.mCurrentSlot := 0;
            MetalRingBuffer.mOccupiedSlots := length (counters w) |} /\
    device w0 = {| dev_next := Pos.succ (dev_next (device w));
                   dev_outcomes := tail (dev_outcomes (device w)) |} /\
    counters w0 = counters w ++ [Some 1] /\
    handlers w0 = handlers w.
Proof.
  unfold MetalRingBuffer.ctor, TrackedMetalBuffer.ctor_default,
    TrackedMetalBuffer.ctor_nullptr, make_shared.
  unfold mbind at 1 2 3 4 5 6. unfold M_bind at 1 2 3 4 5 6.
  unfold mret at 1 2. unfold M_ret at 1 2. unfold lift.
  destruct (computeSlotSize target layout) as [s|e]; [|discriminate].
  set (w1 := set_counters (fun l => l ++ [Some 1]) w).
  set (nil_buffer := {| TrackedMetalBuffer.mBuffer := None;
                        TrackedMetalBuffer.mType := TrackedMetalBuffer.NONE |}).
  assert (Hnil : well_typed nil_buffer) by (intros H; discriminate H).
  destruct (TrackedMetalBuffer.assign_temporary nil_buffer _ w1) as [[b w2]|e] eqn:E;
    [|discriminate].
  destruct (newBuffer_cases (wrap (s * N)) opts w1) as [(rest & Hout & _)|[_ Hhd]].
  - pose proof (assign_failed_buffer nil_buffer (wrap (s * N)) opts w1 rest Hout b w2 E) as Hb.
    unfold assert_invariant. rewrite Hb. discriminate.
  - destruct (assign_fresh_buffer nil_buffer (wrap (s * N)) opts w1 Hnil Hhd)
      as (w2' & Hassign & Hd & Hc & Hh).
    pose proof (eq_trans (eq_sym E) Hassign) as X. injection X as -> ->.
    unfold assert_invariant. cbn [TrackedMetalBuffer.to_bool TrackedMetalBuffer.mBuffer].
    unfold mret, M_ret. intros [= <- <-].
    exists s. split; [reflexivity|]. split; [reflexivity|].
    rewrite Hd, Hc, Hh. auto.
Qed.

(** ** Consecutive allocations with nothing completing *)

Lemma set_mCurrentSlot_twice c1 c2 r :
  MetalRingBuffer.set_mCurrentSlot c2 (MetalRingBuffer.set_mCurrentSlot c1 r) =
  MetalRingBuffer.set_mCurrentSlot c2 r.
Proof. reflexivity. Qed.

Lemma set_mCurrentSlot_same r :
  MetalRingBuffer.set_mCurrentSlot (MetalRingBuffer.mCurrentSlot r) r = r.
Proof. destruct r; reflexivity. Qed.

Lemma slot_offsets_cons s first n :
  slot_offsets s first (S n) = s * first :: slot_offsets s (first + 1) n.
Proof.
  unfold slot_offsets. rewrite <- cons_seq, <- seq_shift. cbn [map].
  rewrite Z.add_0_r. f_equal. rewrite map_map. apply map_ext.
  intros j. f_equal. lia.
Qed.

Lemma next_slot_small r :
  0 <= MetalRingBuffer.mCurrentSlot r ->
  MetalRingBuffer.mCurrentSlot r + 1 < MetalRingBuffer.mSlotCount r ->
  MetalRingBuffer.mSlotCount r < 2 ^ 64 ->
  next_slot r = MetalRingBuffer.mCurrentSlot r + 1.
Proof.
  intros H0 H1 H2. unfold next_slot. rewrite wrap_small by (unfold u64; lia).
  apply Z.mod_small. lia.
Qed.

Lemma allocations_fresh cs : forall r w k,
  counters w !! MetalRingBuffer.mOccupiedSlots r = Some (Some (k + 1)) ->
  MetalRingBuffer.mCurrentSlot r = k -> 0 <= k ->
  k + Z.of_nat (length cs) < MetalRingBuffer.mSlotCount r ->
  MetalRingBuffer.mSlotCount r < 2 ^ 64 ->
  TrackedMetalBuffer.to_bool (MetalRingBuffer.mAuxBuffer r) = false ->
  exists w',
    allocations r cs w =
      Ok ((map (fun o => (TrackedMetalBuffer.get (MetalRingBuffer.mBuffer r), wrap o))
             (slot_offsets (MetalRingBuffer.mSlotSizeBytes r) (k + 1) (length cs)),
           MetalRingBuffer.set_mCurrentSlot (k + Z.of_nat (length cs)) r), w') /\
    counters w' !! MetalRingBuffer.mOccupiedSlots r =
      Some (Some (k + 1 + Z.of_nat (length cs))) /\
    device w' = device w /\
    handlers w' =
      handlers w ++ map (fun c => (c, {| slots := MetalRingBuffer.mOccupiedSlots r |})) cs.
Proof.
  induction cs as [|c rest IH]; intros r w k Hcell Hcur Hk Hroom HN Haux.
  - exists w. cbn [allocations length slot_offsets seq map]. rewrite Z.add_0_r, <- Hcur.
    rewrite set_mCurrentSlot_same, Z.add_0_r, app_nil_r. subst k. auto.
  - cbn [length] in Hroom. rewrite Nat2Z.inj_succ in Hroom.
    assert (Hnext : next_slot r = k + 1) by (rewrite <- Hcur; apply next_slot_small; lia).
    pose proof (createNewAllocation_slot r w (k + 1) Hcell c ltac:(lia) Haux) as Hstep.
    rewrite Hnext in Hstep.
    assert (Hoff : wrap ((k + 1) * MetalRingBuffer.mSlotSizeBytes r) =
                   wrap (MetalRingBuffer.mSlotSizeBytes r * (k + 1))) by (f_equal; lia).
    rewrite Hoff in Hstep.
    rewrite (wrap_small (k + 1 + 1)) in Hstep by (unfold u64; lia).
    set (r1 := MetalRingBuffer.set_mCurrentSlot (k + 1) r) in *.
    set (w1 := set_handlers _ (set_counters _ w)) in *.
    assert (Hcell1 : counters w1 !! MetalRingBuffer.mOccupiedSlots r1 = Some (Some (k + 1 + 1))).
    { subst w1 r1. cbn. apply list_lookup_insert_eq. eapply lookup_lt_Some. exact Hcell. }
    destruct (IH r1 w1 (k + 1) Hcell1 eq_refl ltac:(lia) ltac:(cbn; lia) HN Haux)
      as (w' & Hrun & Hcell' & Hdev & Hh).
    exists w'. split; [|split; [|split]].
    + cbn [allocations]. unfold mbind, M_bind. rewrite Hstep, Hrun.
      unfold mret, M_ret. cbn [length]. rewrite slot_offsets_cons. cbn [map].
      subst r1. rewrite set_mCurrentSlot_twice. cbn [MetalRingBuffer.mBuffer
        MetalRingBuffer.set_mCurrentSlot MetalRingBuffer.mSlotSizeBytes].
      rewrite Nat2Z.inj_succ.
      replace (k + Z.succ (Z.of_nat (length rest))) with (k + 1 + Z.of_nat (length rest))
        by lia.
      reflexivity.
    + change (MetalRingBuffer.mOccupiedSlots r1) with (MetalRingBuffer.mOccupiedSlots r)
        in Hcell'.
      rewrite Hcell'. cbn [length]. rewrite Nat2Z.inj_succ. do 2 f_equal. lia.
    + rewrite Hdev. reflexivity.
    + rewrite Hh. subst w1. cbn [handlers set_handlers set_counters map].
      rewrite <- app_assoc. reflexivity.
Qed.

Lemma computeSlotSize_u64 t layout s : computeSlotSize t layout = Ok s -> u64 s.
Proof.
  unfold computeSlotSize. destruct (align (MTL.size layout) (MTL.align layout)) as [x|e];
    cbn; [|discriminate].
  apply align_result_u64.
Qed.

Lemma slot_offsets_NoDup s first n : 0 < s -> List.NoDup (slot_offsets s first n).
Proof.
  intros Hs. unfold slot_offsets. apply NoDup_map_NoDup_ForallPairs.
  - intros a b _ _ H. nia.
  - apply seq_NoDup.
Qed.

Lemma pair_offsets_NoDup (h : option MTLBuffer) (l : list Z) :
  List.NoDup l -> List.NoDup (map (fun o => (h, o)) l).
Proof.
  intros H. apply NoDup_map_NoDup_ForallPairs; [|exact H].
  intros a b _ _ [= E]. exact E.
Qed.

(** C1, as stated, fails: with two slots of 64 bytes the first call
    returns offset 64 of the main buffer (slot 0 is the allocation the ring
    starts with, and the count starts at 1), and the second call already
    overflows into an auxiliary buffer. *)
Lemma first_offset_counterexample :
  let w := {| aliveBuffers := [0; 0; 0]; platform := None; stats := [];
              device := {| dev_next := 1%positive; dev_outcomes := [] |};
              counters := []; handlers := [] |} in
  exists r0 w0 r w',
    MetalRingBuffer.ctor OTHER tt 0 {| MTL.size := 40; MTL.align := 8 |} 2 w = Ok (r0, w0) /\
    MetalRingBuffer.mSlotSizeBytes r0 = 64 /\
    TrackedMetalBuffer.get (MetalRingBuffer.mBuffer r0) = Some 1%positive /\
    allocations r0 [2%positive; 3%positive] w0 =
      Ok (([(Some 1%positive, 64); (Some 2%positive, 0)], r), w') /\
    map snd [(Some 1%positive, 64); (Some 2%positive, 0)] <> [0; 64].
Proof.
  cbv zeta. do 4 eexists. split; [reflexivity|]. split; [reflexivity|].
  split; [reflexivity|]. split; [reflexivity|]. discriminate.
Qed.

(** C1 (amended): a ring buffer constructed with [N >= 1] slots starts
    with slot 0 as its current allocation and an in-flight count of 1; the
    next [N - 1] consecutive [createNewAllocation] calls, with nothing
    completing, return the main buffer at offsets [slotSize],
    [2 * slotSize], ..., [(N - 1) * slotSize] in that order; together with
    the initial allocation these are [N] distinct pairs when the slot size
    is positive; and after those calls the in-flight count is [N]. *)
Theorem first_allocations_fill_ring target opts layout N w r0 w0 cs :
  MetalRingBuffer.ctor target tt opts layout N w = Ok (r0, w0) ->
  1 <= N < 2 ^ 64 ->
  N * MetalRingBuffer.mSlotSizeBytes r0 < 2 ^ 64 ->
  Z.of_nat (length cs) = N - 1 ->
  MetalRingBuffer.getCurrentAllocation r0 =
    (TrackedMetalBuffer.get (MetalRingBuffer.mBuffer r0), 0) /\
  in_flight r0 w0 = Some 1 /\
  exists r w',
    allocations r0 cs w0 =
      Ok ((map (fun o => (TrackedMetalBuffer.get (MetalRingBuffer.mBuffer r0), o))
             (slot_offsets (MetalRingBuffer.mSlotSizeBytes r0) 1 (length cs)), r), w') /\
    in_flight r w' = Some N /\
    (0 < MetalRingBuffer.mSlotSizeBytes r0 ->
     List.NoDup ((TrackedMetalBuffer.get (MetalRingBuffer.mBuffer r0), 0) ::
            map (fun o => (TrackedMetalBuffer.get (MetalRingBuffer.mBuffer r0), o))
              (slot_offsets (MetalRingBuffer.mSlotSizeBytes r0) 1 (length cs)))).
Proof.
  intros Hctor HN Hfit Hlen.
  destruct (ctor_success _ _ _ _ _ _ _ Hctor) as (s & Hs & -> & Hdev & Hcnt & Hh).
  pose proof (computeSlotSize_u64 _ _ _ Hs) as [Hs0 _].
  cbn [MetalRingBuffer.mSlotSizeBytes MetalRingBuffer.mBuffer] in *.
  set (r0 := {| MetalRingBuffer.mDevice := tt |}) in *.
  assert (Hcell : counters w0 !! MetalRingBuffer.mOccupiedSlots r0 = Some (Some (0 + 1))).
  { subst r0. cbn [MetalRingBuffer.mOccupiedSlots]. rewrite Hcnt.
    apply list_lookup_middle. reflexivity. }
  split; [reflexivity|].
  split; [unfold in_flight; rewrite Hcell; reflexivity|].
  destruct (allocations_fresh cs r0 w0 0 Hcell eq_refl ltac:(lia))
    as (w' & Hrun & Hcell' & _).
  { subst r0. cbn. lia. }
  { subst r0. cbn. lia. }
  { reflexivity. }
  eexists. exists w'. split.
  { rewrite Hrun. do 3 f_equal. apply map_ext_in. intros o Ho.
    unfold slot_offsets in Ho. apply in_map_iff in Ho as (j & <- & Hj).
    apply in_seq in Hj. rewrite wrap_small; [reflexivity|].
    change (MetalRingBuffer.mSlotSizeBytes r0) with s. unfold u64. nia. }
  split.
  - unfold in_flight.
    change (MetalRingBuffer.mOccupiedSlots (MetalRingBuffer.set_mCurrentSlot _ r0))
      with (MetalRingBuffer.mOccupiedSlots r0).
    rewrite Hcell'. f_equal. lia.
  - intros Hpos.
    assert (Hnd : List.NoDup (0 :: slot_offsets s 1 (length cs))).
    { replace 0 with (s * 0) at 1 by lia. rewrite <- slot_offsets_cons.
      apply slot_offsets_NoDup. exact Hpos. }
    exact (pair_offsets_NoDup (TrackedMetalBuffer.get (MetalRingBuffer.mBuffer r0)) _ Hnd).
Qed.

Lemma first_allocations_fill_ring_witness :
  exists r0 w0 r w',
    MetalRingBuffer.ctor OTHER tt 0 {| MTL.size := 40; MTL.align := 8 |} 3
      {| aliveBuffers := [0; 0; 0]; platform := None; stats := [];
         device := {| dev_next := 1%positive; dev_outcomes := [] |};
         counters := []; handlers := [] |} = Ok (r0, w0) /\
    allocations r0 [5%positive; 6%positive] w0 =
      Ok ((map (fun o => (TrackedMetalBuffer.get (MetalRingBuffer.mBuffer r0), o))
             (slot_offsets (MetalRingBuffer.mSlotSizeBytes r0) 1 2), r), w') /\
    in_flight r w' = Some 3.
Proof.
  eexists. eexists.
  assert (Hctor :
    MetalRingBuffer.ctor OTHER tt 0 {| MTL.size := 40; MTL.align := 8 |} 3
      {| aliveBuffers := [0; 0; 0]; platform := None; stats := [];
         device := {| dev_next := 1%positive; dev_outcomes := [] |};
         counters := []; handlers := [] |} = Ok _) by (vm_compute; reflexivity).
  destruct (first_allocations_fill_ring _ _ _ _ _ _ _ [5%positive; 6%positive] Hctor)
    as (_ & _ & r & w' & Hrun & Hfl & _); [lia | cbn; lia | reflexivity |].
  exists r, w'. split; [exact Hctor|]. split; [exact Hrun | exact Hfl].
Defined.

(** ** The call after the ring is full *)

Lemma allocations_snoc cs : forall r w c,
  allocations r (cs ++ [c]) w =
    match allocations r cs w with
    | Ok ((results, r1), w1) =>
        match MetalRingBuffer.createNewAllocation r1 c w1 with
        | Ok ((a, r2), w2) => Ok ((results ++ [a], r2), w2)
        | Fail e => Fail e
        end
    | Fail e => Fail e
    end.
Proof.
  induction cs as [|c0 rest IH]; intros r w c; cbn [allocations app].
  - unfold mbind, M_bind, mret, M_ret.
    destruct (MetalRingBuffer.createNewAllocation r c w) as [[[a r2] w2]|e]; reflexivity.
  - unfold mbind, M_bind.
    destruct (MetalRingBuffer.createNewAllocation r c0 w) as [[[a0 r1] w1]|e]; [|reflexivity].
    fold (@mbind M M_bind). rewrite IH.
    destruct (allocations r1 rest w1) as [[[results r2] w2]|e]; [|reflexivity].
    unfold mret, M_ret.
    destruct (MetalRingBuffer.createNewAllocation r2 c w2) as [[[a r3] w3]|e]; reflexivity.
Qed.

(** C2: for a ring buffer constructed with [N >= 1] slots on a device
    that does not fail, after [N] consecutive [createNewAllocation] calls
    with nothing completing, the next call returns offset 0 in an auxiliary
    buffer that the device creates at that call: its handle is the device's
    newest, it differs from the main buffer's handle and from every handle
    returned before. *)
Theorem overflow_allocation_is_fresh_aux target opts layout N w r0 w0 cs c :
  MetalRingBuffer.ctor target tt opts layout N w = Ok (r0, w0) ->
  1 <= N < 2 ^ 64 ->
  device_reliable w0 ->
  Z.of_nat (length cs) = N ->
  exists results r w1 h r' w2,
    allocations r0 cs w0 = Ok ((results, r), w1) /\
    MetalRingBuffer.createNewAllocation r c w1 = Ok (((Some h, 0), r'), w2) /\
    h = dev_next (device w1) /\
    dev_next (device w2) = Pos.succ h /\
    TrackedMetalBuffer.get (MetalRingBuffer.mAuxBuffer r') = Some h /\
    MetalRingBuffer.mBuffer r' = MetalRingBuffer.mBuffer r0 /\
    Some h <> TrackedMetalBuffer.get (MetalRingBuffer.mBuffer r0) /\
    Forall (fun a => fst a <> Some h) results.
Proof.
  intros Hctor HN Hrel Hlen.
  destruct (ctor_success _ _ _ _ _ _ _ Hctor) as (s & Hs & -> & Hdev & Hcnt & Hh).
  set (r0 := {| MetalRingBuffer.mDevice := tt |}) in *.
  assert (Hcell : counters w0 !! MetalRingBuffer.mOccupiedSlots r0 = Some (Some (0 + 1))).
  { subst r0. cbn [MetalRingBuffer.mOccupiedSlots]. rewrite Hcnt.
    apply list_lookup_middle. reflexivity. }
  destruct (exists_last (l := cs)) as (front & cN & ->).
  { intros ->. cbn in Hlen. lia. }
  rewrite length_app in Hlen. cbn [length] in Hlen.
  destruct (allocations_fresh front r0 w0 0 Hcell eq_refl ltac:(lia))
    as (w1 & Hrun & Hcell1 & Hdev1 & _).
  { subst r0. cbn. lia. }
  { subst r0. cbn. lia. }
  { reflexivity. }
  set (r1 := MetalRingBuffer.set_mCurrentSlot (0 + Z.of_nat (length front)) r0) in *.
  assert (HcellN : counters w1 !! MetalRingBuffer.mOccupiedSlots r1 = Some (Some N)).
  { change (MetalRingBuffer.mOccupiedSlots r1) with (MetalRingBuffer.mOccupiedSlots r0).
    rewrite Hcell1. do 2 f_equal. lia. }
  assert (Hrel1 : device_reliable w1) by (unfold device_reliable; rewrite Hdev1; exact Hrel).
  (* the N-th call finds the ring full *)
  destruct (createNewAllocation_overflow r1 w1 N HcellN cN eq_refl)
    as (w2 & Hstep2 & Hdev2 & Hcnt2 & _).
  { intros H. discriminate H. }
  { apply device_reliable_head. exact Hrel1. }
  set (r2 := MetalRingBuffer.set_mAuxBuffer _ r1) in *.
  assert (Hcell2 : counters w2 !! MetalRingBuffer.mOccupiedSlots r2 = Some (Some N)).
  { rewrite Hcnt2. exact HcellN. }
  assert (Hrel2 : device_reliable w2).
  { unfold device_reliable. rewrite Hdev2. cbn. apply device_reliable_tail. exact Hrel1. }
  (* and so does the call after it *)
  destruct (createNewAllocation_overflow r2 w2 N Hcell2 c eq_refl)
    as (w3 & Hstep3 & Hdev3 & _).
  { intros _. discriminate. }
  { apply device_reliable_head. exact Hrel2. }
  eexists. exists r2, w2. eexists. eexists. exists w3.
  split; [|split; [exact Hstep3|]].
  { rewrite allocations_snoc, Hrun, Hstep2. reflexivity. }
  assert (Hn1 : dev_next (device w1) = Pos.succ (dev_next (device w)))
    by (rewrite Hdev1, Hdev; reflexivity).
  assert (Hn2 : dev_next (device w2) = Pos.succ (Pos.succ (dev_next (device w))))
    by (rewrite Hdev2; cbn; rewrite Hn1; reflexivity).
  split; [reflexivity|]. split; [rewrite Hdev3; reflexivity|].
  split; [reflexivity|]. split; [reflexivity|]. split.
  - subst r0. cbn. rewrite Hn2. intros [= E]. lia.
  - apply Forall_app. split.
    + apply Forall_forall. intros a Ha. apply in_map_iff in Ha as (o & <- & _).
      subst r0. cbn. rewrite Hn2. intros [= E]. lia.
    + constructor; [|constructor]. cbn. rewrite Hn2, Hn1. intros [= E]. lia.
Qed.

Lemma overflow_allocation_is_fresh_aux_witness :
  exists r0 w0 results r w1 h r' w2,
    MetalRingBuffer.ctor OTHER tt 0 {| MTL.size := 40; MTL.align := 8 |} 2
      {| aliveBuffers := [0; 0; 0]; platform := None; stats := [];
         device := {| dev_next := 1%positive; dev_outcomes := [true; true; true] |};
         counters := []; handlers := [] |} = Ok (r0, w0) /\
    allocations r0 [5%positive; 6%positive] w0 = Ok ((results, r), w1) /\
    MetalRingBuffer.createNewAllocation r 7%positive w1 = Ok (((Some h, 0), r'), w2) /\
    Some h <> TrackedMetalBuffer.get (MetalRingBuffer.mBuffer r0).
Proof.
  eexists. eexists.
  assert (Hctor :
    MetalRingBuffer.ctor OTHER tt 0 {| MTL.size := 40; MTL.align := 8 |} 2
      {| aliveBuffers := [0; 0; 0]; platform := None; stats := [];
         device := {| dev_next := 1%positive; dev_outcomes := [true; true; true] |};
         counters := []; handlers := [] |} = Ok _) by (vm_compute; reflexivity).
  destruct (overflow_allocation_is_fresh_aux _ _ _ _ _ _ _ [5%positive; 6%positive]
              7%positive Hctor)
    as (results & r & w1 & h & r' & w2 & Hrun & Hstep & _ & _ & _ & _ & Hne & _);
    [lia | repeat constructor | reflexivity |].
  exists results, r, w1, h, r', w2. auto.
Defined.

(** ** The completion handler *)

Lemma completedHandler_alive p w v :
  counters w !! p = Some (Some v) ->
  MetalRingBuffer.completedHandler {| slots := p |} w =
    Ok (tt, set_counters (fun l => <[p := Some (wrap (v - 1))]> l) w).
Proof.
  intros H. unfold MetalRingBuffer.completedHandler, weak_lock, fetch_sub.
  unfold mbind, M_bind, mret, M_ret. cbn [slots]. rewrite H. cbv beta iota.
  rewrite H. reflexivity.
Qed.

Lemma completedHandler_expired p w :
  expired p w -> MetalRingBuffer.completedHandler {| slots := p |} w = Ok (tt, w).
Proof.
  unfold expired. intros H. unfold MetalRingBuffer.completedHandler, weak_lock.
  unfold mbind, M_bind, mret, M_ret. cbn [slots].
  destruct (counters w !! p) as [[v|]|]; [contradiction | reflexivity | reflexivity].
Qed.

(** ** An allocation that finds a free slot *)

(** C3, as stated, fails: after the ring overflowed into an auxiliary
    buffer and one slot was freed, the next call takes a slot (the count is
    1, below the slot count 2) and drops the auxiliary buffer, but it adds
    no completion handler: no handler is pending afterwards. *)
Lemma no_handler_after_aux_counterexample :
  exists w',
    (r0 ← MetalRingBuffer.ctor OTHER tt 0 {| MTL.size := 40; MTL.align := 8 |} 2;
     r ← ring_run [Allocate 5%positive; Allocate 6%positive; Completed 5%positive] r0;
     before ← gets (in_flight r);
     '(a, r') ← MetalRingBuffer.createNewAllocation r 7%positive;
     after ← gets (in_flight r');
     added ← gets handlers;
     mret (MetalRingBuffer.mSlotCount r, before,
           TrackedMetalBuffer.to_bool (MetalRingBuffer.mAuxBuffer r),
           a, TrackedMetalBuffer.get (MetalRingBuffer.mBuffer r), after,
           TrackedMetalBuffer.to_bool (MetalRingBuffer.mAuxBuffer r'), added))
      {| aliveBuffers := [0; 0; 0]; platform := None; stats := [];
         device := {| dev_next := 1%positive; dev_outcomes := [] |};
         counters := []; handlers := [] |}
    = Ok ((2, Some 1, true, (Some 1%positive, 0), Some 1%positive, Some 2, false, []), w').
Proof. eexists. vm_compute. reflexivity. Qed.

(** C3 (amended): whenever [createNewAllocation] finds the in-flight
    count below the slot count, the same call advances the cursor to
    [(cursor + 1) mod slotCount], increments the in-flight count by one,
    leaves no auxiliary buffer, and returns the main buffer at the new
    slot's offset; if no auxiliary buffer existed it adds to the command
    buffer one completion handler, which decrements the in-flight count when
    it runs; if one existed, it adds no handler. *)
Theorem free_slot_allocation r w v c :
  counters w !! MetalRingBuffer.mOccupiedSlots r = Some (Some v) ->
  0 <= v < MetalRingBuffer.mSlotCount r ->
  MetalRingBuffer.mSlotCount r < 2 ^ 64 ->
  0 <= MetalRingBuffer.mCurrentSlot r < MetalRingBuffer.mSlotCount r ->
  well_typed (MetalRingBuffer.mAuxBuffer r) ->
  exists r' w',
    MetalRingBuffer.createNewAllocation r c w =
      Ok (((TrackedMetalBuffer.get (MetalRingBuffer.mBuffer r),
            wrap (MetalRingBuffer.mCurrentSlot r' * MetalRingBuffer.mSlotSizeBytes r)),
           r'), w') /\
    MetalRingBuffer.mCurrentSlot r' =
      (MetalRingBuffer.mCurrentSlot r + 1) mod MetalRingBuffer.mSlotCount r /\
    in_flight r' w' = Some (v + 1) /\
    TrackedMetalBuffer.to_bool (MetalRingBuffer.mAuxBuffer r') = false /\
    MetalRingBuffer.getCurrentAllocation r' =
      (TrackedMetalBuffer.get (MetalRingBuffer.mBuffer r),
       wrap (MetalRingBuffer.mCurrentSlot r' * MetalRingBuffer.mSlotSizeBytes r)) /\
    (TrackedMetalBuffer.to_bool (MetalRingBuffer.mAuxBuffer r) = false ->
     handlers w' =
       handlers w ++ [(c, {| slots := MetalRingBuffer.mOccupiedSlots r |})] /\
     exists w'',
       MetalRingBuffer.completedHandler
         {| slots := MetalRingBuffer.mOccupiedSlots r |} w' = Ok (tt, w'') /\
       in_flight r' w'' = Some v) /\
    (TrackedMetalBuffer.to_bool (MetalRingBuffer.mAuxBuffer r) = true ->
     handlers w' = handlers w).
Proof.
  intros Hcell Hv HN Hcur Hwt.
  assert (Hnext : next_slot r =
            (MetalRingBuffer.mCurrentSlot r + 1) mod MetalRingBuffer.mSlotCount r).
  { unfold next_slot. rewrite wrap_small by (unfold u64; lia). reflexivity. }
  assert (Hbound : (MetalRingBuffer.mOccupiedSlots r < length (counters w))%nat)
    by (eapply lookup_lt_Some; exact Hcell).
  assert (Hv1 : wrap (v + 1) = v + 1) by (apply wrap_small; unfold u64; lia).
  destruct (MetalRingBuffer.mAuxBuffer r) as [[a|] ty] eqn:Haux.
  - (* an auxiliary buffer exists *)
    assert (Hty : ty <> TrackedMetalBuffer.NONE) by (apply Hwt; reflexivity).
    destruct (toIndex_not_NONE ty Hty) as (_ & i & Hi & _).
    pose proof (createNewAllocation_slot_after_aux r w v Hcell c a ty i ltac:(lia) Haux Hi)
      as Hstep.
    exists (MetalRingBuffer.set_mAuxBuffer
              {| TrackedMetalBuffer.mBuffer := None;
                 TrackedMetalBuffer.mType := TrackedMetalBuffer.NONE |}
              (MetalRingBuffer.set_mCurrentSlot (next_slot r) r)).
    eexists. split; [exact Hstep|].
    split; [exact Hnext|]. split.
    { unfold in_flight. cbn. rewrite list_lookup_insert_eq by exact Hbound.
      rewrite Hv1. reflexivity. }
    split; [reflexivity|]. split; [reflexivity|].
    split; [intros H; discriminate H|]. intros _. reflexivity.
  - (* none exists *)
    pose proof (createNewAllocation_slot r w v Hcell c ltac:(lia)) as Hstep.
    rewrite Haux in Hstep. specialize (Hstep eq_refl).
    exists (MetalRingBuffer.set_mCurrentSlot (next_slot r) r).
    eexists. split; [exact Hstep|].
    split; [exact Hnext|]. split.
    { unfold in_flight. cbn. rewrite list_lookup_insert_eq by exact Hbound.
      rewrite Hv1. reflexivity. }
    split; [cbn; rewrite Haux; reflexivity|].
    split; [unfold MetalRingBuffer.getCurrentAllocation; cbn; rewrite Haux; reflexivity|].
    split; [|intros H; discriminate H]. intros _. split; [reflexivity|].
    eexists. split.
    + apply completedHandler_alive. cbn. apply list_lookup_insert_eq. exact Hbound.
    + unfold in_flight. cbn. rewrite list_lookup_insert_eq
        by (rewrite length_insert; exact Hbound).
      rewrite Hv1. replace (v + 1 - 1) with v by lia.
      rewrite wrap_small by (unfold u64; lia). reflexivity.
Qed.

Lemma free_slot_allocation_witness :
  exists r' w',
    MetalRingBuffer.createNewAllocation
      {| MetalRingBuffer.mDevice := tt;
         MetalRingBuffer.mBuffer :=
           {| TrackedMetalBuffer.mBuffer := Some 1%positive;
              TrackedMetalBuffer.mType := TrackedMetalBuffer.RING |};
         MetalRingBuffer.mAuxBuffer :=
           {| TrackedMetalBuffer.mBuffer := None;
              TrackedMetalBuffer.mType := TrackedMetalBuffer.NONE |};
         MetalRingBuffer.mBufferOptions := 0;
         MetalRingBuffer.mSlotSizeBytes := 64;
         MetalRingBuffer.mSlotCount := 2;
         MetalRingBuffer.mCurrentSlot := 0;
         MetalRingBuffer.mOccupiedSlots := 0%nat |}
      5%positive
      {| aliveBuffers := [0; 1; 0]; platform := None; stats := [];
         device := {| dev_next := 2%positive; dev_outcomes := [] |};
         counters := [Some 1]; handlers := [] |} =
      Ok (((Some 1%positive, wrap (MetalRingBuffer.mCurrentSlot r' * 64)), r'), w') /\
    MetalRingBuffer.mCurrentSlot r' = (0 + 1) mod 2 /\
    handlers w' = [(5%positive, {| slots := 0%nat |})].
Proof.
  destruct (free_slot_allocation
              {| MetalRingBuffer.mDevice := tt;
                 MetalRingBuffer.mBuffer :=
                   {| TrackedMetalBuffer.mBuffer := Some 1%positive;
                      TrackedMetalBuffer.mType := TrackedMetalBuffer.RING |};
                 MetalRingBuffer.mAuxBuffer :=
                   {| TrackedMetalBuffer.mBuffer := None;
                      TrackedMetalBuffer.mType := TrackedMetalBuffer.NONE |};
                 MetalRingBuffer.mBufferOptions := 0;
                 MetalRingBuffer.mSlotSizeBytes := 64;
                 MetalRingBuffer.mSlotCount := 2;
                 MetalRingBuffer.mCurrentSlot := 0;
                 MetalRingBuffer.mOccupiedSlots := 0%nat |}
              {| aliveBuffers := [0; 1; 0]; platform := None; stats := [];
                 device := {| dev_next := 2%positive; dev_outcomes := [] |};
                 counters := [Some 1]; handlers := [] |}
              1 5%positive)
    as (r' & w' & Hstep & Hcur & _ & _ & _ & Hreg & _).
  - reflexivity.
  - cbn. lia.
  - cbn. lia.
  - cbn. lia.
  - intros H. discriminate H.
  - exists r', w'. split; [exact Hstep|]. split; [exact Hcur|].
    destruct (Hreg eq_refl) as [Hh _]. exact Hh.
Defined.

(** ** Handlers that outlive their ring buffer *)

Lemma expired_insert_other p q x w :
  p <> q -> expired p w ->
  expired p (set_counters (fun l => <[q := x]> l) w).
Proof.
  intros Hne. unfold expired. cbn. rewrite list_lookup_insert_ne by congruence. auto.
Qed.

Lemma completedHandler_total h w :
  exists w', MetalRingBuffer.completedHandler h w = Ok (tt, w') /\
    handlers w' = handlers w /\ forall p, expired p w -> expired p w'.
Proof.
  destruct h as [q]. destruct (counters w !! q) as [[v|]|] eqn:Hq.
  - rewrite (completedHandler_alive q w v Hq). eexists. split; [reflexivity|].
    split; [reflexivity|]. intros p Hp. apply expired_insert_other; [|exact Hp].
    intros ->. unfold expired in Hp. rewrite Hq in Hp. exact Hp.
  - rewrite completedHandler_expired by (unfold expired; rewrite Hq; exact I).
    exists w. auto.
  - rewrite completedHandler_expired by (unfold expired; rewrite Hq; exact I).
    exists w. auto.
Qed.

Lemma run_handlers_total hs : forall w,
  exists w', run_handlers hs w = Ok (tt, w') /\
    handlers w' = handlers w /\ forall p, expired p w -> expired p w'.
Proof.
  induction hs as [|h rest IH]; intros w; cbn [run_handlers].
  - exists w. auto.
  - destruct (completedHandler_total h w) as (w1 & H1 & Hh1 & He1).
    destruct (IH w1) as (w2 & H2 & Hh2 & He2).
    exists w2. unfold mbind, M_bind. rewrite H1. split; [exact H2|].
    split; [congruence|]. auto.
Qed.

Lemma complete_total c w :
  exists w', complete c w = Ok (tt, w') /\
    handlers w' = List.filter (fun ch => negb (on_buffer c ch)) (handlers w) /\
    forall p, expired p w -> expired p w'.
Proof.
  unfold complete, gets, modify. unfold mbind, M_bind.
  destruct (run_handlers_total (map snd (List.filter (on_buffer c) (handlers w)))
              (set_handlers (List.filter (fun ch => negb (on_buffer c ch))) w))
    as (w' & Hrun & Hh & He).
  exists w'. split; [exact Hrun|]. split; [exact Hh|].
  intros p Hp. apply He. exact Hp.
Qed.

Lemma completions_total cs : forall w,
  exists w', completions cs w = Ok (tt, w') /\ forall p, expired p w -> expired p w'.
Proof.
  induction cs as [|c rest IH]; intros w; cbn [completions].
  - exists w. auto.
  - destruct (complete_total c w) as (w1 & H1 & _ & He1).
    destruct (IH w1) as (w2 & H2 & He2).
    exists w2. unfold mbind, M_bind. rewrite H1. split; [exact H2|]. auto.
Qed.

(** Handlers of an expired cell run without effect. *)
Lemma run_handlers_expired p hs : forall w,
  expired p w -> Forall (fun h => slots h = p) hs -> run_handlers hs w = Ok (tt, w).
Proof.
  induction hs as [|h rest IH]; intros w Hp Hall; cbn [run_handlers]; [reflexivity|].
  apply Forall_cons_1 in Hall as [Hh Hrest]. destruct h as [q]. cbn in Hh. subst q.
  unfold mbind, M_bind. rewrite (completedHandler_expired p w Hp). apply IH; assumption.
Qed.

Lemma dtor_expires r w w1 :
  MetalRingBuffer.dtor r w = Ok (tt, w1) ->
  expired (MetalRingBuffer.mOccupiedSlots r) w1.
Proof.
  unfold MetalRingBuffer.dtor, shared_release, modify. unfold mbind, M_bind.
  set (w0 := set_counters _ w).
  destruct (TrackedMetalBuffer.dtor (MetalRingBuffer.mAuxBuffer r) w0) as [[[] wa]|e] eqn:Ea;
    [|discriminate].
  intros Hb. destruct (dtor_keeps _ _ _ Ea) as (_ & Hca & _).
  destruct (dtor_keeps _ _ _ Hb) as (_ & Hcb & _).
  unfold expired. rewrite Hcb, Hca. subst w0. cbn.
  destruct (decide (MetalRingBuffer.mOccupiedSlots r < length (counters w))%nat) as [Hlt|Hge].
  - rewrite list_lookup_insert_eq by exact Hlt. exact I.
  - rewrite list_insert_ge by lia.
    rewrite (proj2 (lookup_ge_None _ _)) by lia. exact I.
Qed.

(** C9: once a ring buffer has been destroyed, its cell is expired and
    stays so whatever command buffers complete afterwards; a completion
    handler of that ring buffer that runs then leaves the whole world as it
    was, and a command buffer carrying only such handlers completes with no
    effect beyond dropping them; while the ring buffer is alive, a handler
    changes nothing but the shared cell, which it decrements by one. *)
Theorem handler_of_destroyed_ring_is_noop r w :
  (forall w1, MetalRingBuffer.dtor r w = Ok (tt, w1) ->
     forall cs, exists w2,
       completions cs w1 = Ok (tt, w2) /\
       expired (MetalRingBuffer.mOccupiedSlots r) w2 /\
       MetalRingBuffer.completedHandler
         {| slots := MetalRingBuffer.mOccupiedSlots r |} w2 = Ok (tt, w2) /\
       forall c,
         Forall (fun ch => on_buffer c ch = true ->
                           slots (snd ch) = MetalRingBuffer.mOccupiedSlots r)
                (handlers w2) ->
         complete c w2 =
           Ok (tt, set_handlers (List.filter (fun ch => negb (on_buffer c ch))) w2)) /\
  (forall v, in_flight r w = Some v ->
     MetalRingBuffer.completedHandler
       {| slots := MetalRingBuffer.mOccupiedSlots r |} w =
       Ok (tt, set_counters
                 (fun l => <[MetalRingBuffer.mOccupiedSlots r := Some (wrap (v - 1))]> l) w)).
Proof.
  split.
  - intros w1 Hd cs. pose proof (dtor_expires r w w1 Hd) as Hexp.
    destruct (completions_total cs w1) as (w2 & Hrun & He).
    exists w2. split; [exact Hrun|]. specialize (He _ Hexp).
    split; [exact He|]. split; [apply completedHandler_expired; exact He|].
    intros c Hall. unfold complete, gets, modify. unfold mbind, M_bind.
    apply (run_handlers_expired (MetalRingBuffer.mOccupiedSlots r)); [exact He|].
    apply Forall_forall. intros h Hh. apply in_map_iff in Hh as ([c' h'] & <- & Hin).
    apply filter_In in Hin as [Hin Hon].
    rewrite List.Forall_forall in Hall. apply (Hall (c', h')); [exact Hin | exact Hon].
  - intros v Hv. apply completedHandler_alive. unfold in_flight in Hv.
    destruct (counters w !! MetalRingBuffer.mOccupiedSlots r) as [[v'|]|];
      [|discriminate|discriminate].
    injection Hv as ->. reflexivity.
Qed.

Lemma handler_of_destroyed_ring_is_noop_witness :
  exists w1 w2,
    (r ← MetalRingBuffer.ctor OTHER tt 0 {| MTL.size := 40; MTL.align := 8 |} 2;
     '(_, r1) ← MetalRingBuffer.createNewAllocation r 5%positive;
     MetalRingBuffer.dtor r1)
      {| aliveBuffers := [0; 0; 0]; platform := None; stats := [];
         device := {| dev_next := 1%positive; dev_outcomes := [] |};
         counters := []; handlers := [] |} = Ok (tt, w1) /\
    handlers w1 = [(5%positive, {| slots := 0%nat |})] /\
    completions [5%positive] w1 = Ok (tt, w2) /\
    MetalRingBuffer.completedHandler {| slots := 0%nat |} w2 = Ok (tt, w2).
Proof.
  set (w := {| aliveBuffers := [0; 1; 0]; platform := None; stats := [];
               device := {| dev_next := 2%positive; dev_outcomes := [] |};
               counters := [Some 2]; handlers := [(5%positive, {| slots := 0%nat |})] |}).
  set (r1 := {| MetalRingBuffer.mDevice := tt;
                MetalRingBuffer.mBuffer :=
                  {| TrackedMetalBuffer.mBuffer := Some 1%positive;
                     TrackedMetalBuffer.mType := TrackedMetalBuffer.RING |};
                MetalRingBuffer.mAuxBuffer :=
                  {| TrackedMetalBuffer.mBuffer := None;
                     TrackedMetalBuffer.mType := TrackedMetalBuffer.NONE |};
                MetalRingBuffer.mBufferOptions := 0;
                MetalRingBuffer.mSlotSizeBytes := 64;
                MetalRingBuffer.mSlotCount := 2;
                MetalRingBuffer.mCurrentSlot := 1;
                MetalRingBuffer.mOccupiedSlots := 0%nat |}).
  set (w1 := {| aliveBuffers := [0; 0; 0]; platform := None; stats := [];
                device := {| dev_next := 2%positive; dev_outcomes := [] |};
                counters := [None]; handlers := [(5%positive, {| slots := 0%nat |})] |}).
  assert (Hd : MetalRingBuffer.dtor r1 w = Ok (tt, w1)) by reflexivity.
  destruct (proj1 (handler_of_destroyed_ring_is_noop r1 w) w1 Hd [5%positive])
    as (w2 & Hrun & _ & Hnoop & _).
  exists w1, w2. split; [reflexivity|]. split; [reflexivity|].
  split; [exact Hrun | exact Hnoop].
Defined.

(** ** The in-flight count along a run *)

Lemma filter_split_length {A} (P Q : A -> bool) (l : list A) :
  length (List.filter P l) =
  (length (List.filter P (List.filter Q l)) +
   length (List.filter P (List.filter (fun x => negb (Q x)) l)))%nat.
Proof.
  induction l as [|x l IH]; [reflexivity|]. cbn [List.filter].
  destruct (Q x); cbn [negb List.filter]; destruct (P x); cbn [length]; lia.
Qed.

Lemma filter_map_snd_length (p : nat) (l : list (MTLCommandBuffer * Handler)) :
  length (List.filter (fun h => Nat.eqb (slots h) p) (map snd l)) =
  length (List.filter (fun ch => Nat.eqb (slots (snd ch)) p) l).
Proof.
  induction l as [|x l IH]; [reflexivity|]. cbn [map List.filter].
  destruct (Nat.eqb (slots (snd x)) p); cbn [length]; lia.
Qed.

(** Running handlers: the cell [p] loses one per handler that refers to
    it; the device and the pending list are not touched. *)
Lemma run_handlers_cell p hs : forall w v,
  counters w !! p = Some (Some v) ->
  Z.of_nat (length (List.filter (fun h => Nat.eqb (slots h) p) hs)) <= v < 2 ^ 64 ->
  exists w',
    run_handlers hs w = Ok (tt, w') /\
    counters w' !! p =
      Some (Some (v - Z.of_nat (length (List.filter (fun h => Nat.eqb (slots h) p) hs)))) /\
    handlers w' = handlers w /\ device w' = device w.
Proof.
  induction hs as [|[q] rest IH]; intros w v Hcell Hk; cbn [run_handlers List.filter].
  - exists w. cbn. rewrite Z.sub_0_r. auto.
  - cbn [List.filter slots] in *. unfold mbind, M_bind.
    destruct (Nat.eqb q p) eqn:Hqp.
    + apply Nat.eqb_eq in Hqp. subst q. cbn [length] in Hk. rewrite Nat2Z.inj_succ in Hk.
      rewrite (completedHandler_alive p w v Hcell).
      rewrite wrap_small by (unfold u64; lia).
      destruct (IH (set_counters (fun l => <[p := Some (v - 1)]> l) w) (v - 1))
        as (w' & Hrun & Hcell' & Hh & Hd).
      { cbn. apply list_lookup_insert_eq. eapply lookup_lt_Some. exact Hcell. }
      { lia. }
      exists w'. split; [exact Hrun|]. split; [|auto].
      rewrite Hcell'. cbn [length]. rewrite Nat2Z.inj_succ. do 2 f_equal. lia.
    + apply Nat.eqb_neq in Hqp.
      destruct (counters w !! q) as [[vq|]|] eqn:Hq.
      * rewrite (completedHandler_alive q w vq Hq).
        destruct (IH (set_counters (fun l => <[q := Some (wrap (vq - 1))]> l) w) v)
          as (w' & Hrun & Hcell' & Hh & Hd).
        { cbn. rewrite list_lookup_insert_ne by exact Hqp. exact Hcell. }
        { exact Hk. }
        exists w'. auto.
      * rewrite completedHandler_expired by (unfold expired; rewrite Hq; exact I).
        apply IH; assumption.
      * rewrite completedHandler_expired by (unfold expired; rewrite Hq; exact I).
        apply IH; assumption.
Qed.

(** A command buffer completes: the count drops by the number of this
    ring's handlers that were added to it, and they are no longer pending. *)
Lemma complete_cell p c w v :
  counters w !! p = Some (Some v) ->
  Z.of_nat (length (pending p w)) <= v < 2 ^ 64 ->
  exists w',
    complete c w = Ok (tt, w') /\
    counters w' !! p =
      Some (Some (v - Z.of_nat (length (List.filter (on_buffer c) (pending p w))))) /\
    Z.of_nat (length (pending p w')) =
      Z.of_nat (length (pending p w))
      - Z.of_nat (length (List.filter (on_buffer c) (pending p w))) /\
    device w' = device w.
Proof.
  intros Hcell Hv. unfold complete, gets, modify. unfold mbind, M_bind.
  unfold pending in *.
  assert (Hcomm : forall l : list (MTLCommandBuffer * Handler),
            length (List.filter (on_buffer c)
                      (List.filter (fun ch => Nat.eqb (slots (snd ch)) p) l)) =
            length (List.filter (fun ch => Nat.eqb (slots (snd ch)) p)
                      (List.filter (on_buffer c) l))).
  { induction l as [|x l IH]; [reflexivity|].
    cbn [List.filter].
    destruct (Nat.eqb (slots (snd x)) p) eqn:HP, (on_buffer c x) eqn:HQ;
      cbn [List.filter length]; rewrite ?HP, ?HQ; cbn [length]; lia. }
  pose proof (filter_split_length (fun ch : MTLCommandBuffer * Handler =>
                                     Nat.eqb (slots (snd ch)) p)
                (on_buffer c) (handlers w)) as Hsplit.
  destruct (run_handlers_cell p (map snd (List.filter (on_buffer c) (handlers w)))
              (set_handlers (List.filter (fun ch => negb (on_buffer c ch))) w) v Hcell)
    as (w' & Hrun & Hcell' & Hh & Hd).
  { rewrite filter_map_snd_length. lia. }
  exists w'. split; [exact Hrun|].
  rewrite filter_map_snd_length in Hcell'.
  split; [rewrite Hcell', Hcomm; reflexivity|].
  split; [|exact Hd].
  rewrite Hh, Hcomm. cbn [handlers set_handlers]. lia.
Qed.

Lemma pending_added p c f w :
  length (pending p (set_handlers (fun l => l ++ [(c, {| slots := p |})])
                       (set_counters f w))) = S (length (pending p w)).
Proof.
  unfold pending. cbn [handlers set_handlers set_counters].
  rewrite List.filter_app, length_app. cbn [List.filter snd slots].
  rewrite Nat.eqb_refl. cbn [length]. lia.
Qed.

(** One [createNewAllocation] from a state that satisfies the invariant:
    it returns and keeps the invariant, unless the ring is full and the
    device fails the request. *)
Lemma allocate_step_cases N r w c :
  1 <= N < 2 ^ 64 -> ring_inv N r w ->
  (exists a r1 w1,
     MetalRingBuffer.createNewAllocation r c w = Ok ((a, r1), w1) /\
     ring_inv N r1 w1 /\
     MetalRingBuffer.mOccupiedSlots r1 = MetalRingBuffer.mOccupiedSlots r /\
     (device_reliable w -> device_reliable w1)) \/
  ((forall res, MetalRingBuffer.createNewAllocation r c w <> Ok res) /\
   ~ device_reliable w).
Proof.
  intros HN (Hcount & Hwt & v & Hcell & Hv).
  assert (Hbound : (MetalRingBuffer.mOccupiedSlots r < length (counters w))%nat)
    by (eapply lookup_lt_Some; exact Hcell).
  destruct (Z.eq_dec v N) as [HvN|HvN].
  - (* the ring is full *)
    destruct (newBuffer_cases (MetalRingBuffer.mSlotSizeBytes r)
                (MetalRingBuffer.mBufferOptions r) w) as [(rest & Hout & _)|[_ Hhd]].
    + right. split.
      * apply (createNewAllocation_overflow_failed r w v Hcell c rest); [lia | exact Hout].
      * intros Hrel. apply device_reliable_head in Hrel. rewrite Hout in Hrel.
        discriminate Hrel.
    + left.
      destruct (createNewAllocation_overflow r w v Hcell c ltac:(lia) Hwt Hhd)
        as (w1 & Hstep & Hd & Hc & Hh).
      eexists. eexists. exists w1. split; [exact Hstep|].
      split; [|split; [reflexivity|]].
      * split; [exact Hcount|]. split; [intros _; discriminate|].
        exists v. cbn [MetalRingBuffer.mOccupiedSlots MetalRingBuffer.set_mAuxBuffer].
        rewrite Hc. split; [exact Hcell|]. unfold pending in *. rewrite Hh. exact Hv.
      * intros Hrel. unfold device_reliable. rewrite Hd. cbn.
        apply device_reliable_tail. exact Hrel.
  - (* a slot is free *)
    left.
    assert (Hv1 : wrap (v + 1) = v + 1) by (apply wrap_small; unfold u64; lia).
    destruct (MetalRingBuffer.mAuxBuffer r) as [[a|] ty] eqn:Haux.
    + assert (Hty : ty <> TrackedMetalBuffer.NONE) by (apply Hwt; reflexivity).
      destruct (toIndex_not_NONE ty Hty) as (_ & i & Hi & _).
      pose proof (createNewAllocation_slot_after_aux r w v Hcell c a ty i
                    ltac:(lia) Haux Hi) as Hstep.
      eexists. eexists. eexists. split; [exact Hstep|].
      split; [|split; [reflexivity | intros Hrel; exact Hrel]].
      split; [exact Hcount|]. split; [intros H; discriminate H|].
      exists (v + 1). split.
      * cbn. rewrite list_lookup_insert_eq by exact Hbound. rewrite Hv1. reflexivity.
      * unfold pending in *. cbn. cbn in Hv. lia.
    + pose proof (createNewAllocation_slot r w v Hcell c ltac:(lia)) as Hstep.
      rewrite Haux in Hstep. specialize (Hstep eq_refl).
      eexists. eexists. eexists. split; [exact Hstep|].
      split; [|split; [reflexivity | intros Hrel; exact Hrel]].
      split; [exact Hcount|]. split; [cbn; rewrite Haux; intros H; discriminate H|].
      exists (v + 1). split.
      * cbn. rewrite list_lookup_insert_eq by exact Hbound. rewrite Hv1. reflexivity.
      * cbn [MetalRingBuffer.mOccupiedSlots MetalRingBuffer.set_mCurrentSlot].
        rewrite pending_added. lia.
Qed.

Lemma ring_step_inv N ev r w :
  1 <= N < 2 ^ 64 -> ring_inv N r w ->
  (forall r' w', ring_step ev r w = Ok (r', w') ->
     ring_inv N r' w' /\
     MetalRingBuffer.mOccupiedSlots r' = MetalRingBuffer.mOccupiedSlots r /\
     (device_reliable w -> device_reliable w')) /\
  (device_reliable w -> exists r' w', ring_step ev r w = Ok (r', w')).
Proof.
  intros HN Hinv. destruct ev as [c|c]; cbn [ring_step]; unfold mbind, M_bind, mret, M_ret.
  - destruct (allocate_step_cases N r w c HN Hinv)
      as [(a & r1 & w1 & Hstep & Hinv1 & Hp & Hrel)|[Hfail Hnrel]].
    + rewrite Hstep. split.
      * intros r' w' [= <- <-]. auto.
      * intros _. exists r1, w1. reflexivity.
    + split.
      * intros r' w' H.
        destruct (MetalRingBuffer.createNewAllocation r c w) as [[[a r1] w1]|e];
          [|discriminate].
        exfalso. apply (Hfail (a, r1, w1)). reflexivity.
      * intros Hrel. contradiction.
  - destruct Hinv as (Hcount & Hwt & v & Hcell & Hv).
    destruct (complete_cell (MetalRingBuffer.mOccupiedSlots r) c w v Hcell ltac:(lia))
      as (w1 & Hstep & Hcell1 & Hpend & Hd).
    rewrite Hstep. split.
    + intros r' w' [= <- <-]. split; [|split; [reflexivity|]].
      * split; [exact Hcount|]. split; [exact Hwt|].
        eexists. split; [exact Hcell1|]. lia.
      * unfold device_reliable. rewrite Hd. auto.
    + intros _. exists r, w1. reflexivity.
Qed.

Lemma ring_run_inv N evs : forall r w,
  1 <= N < 2 ^ 64 -> ring_inv N r w ->
  (forall r' w', ring_run evs r w = Ok (r', w') ->
     ring_inv N r' w' /\
     MetalRingBuffer.mOccupiedSlots r' = MetalRingBuffer.mOccupiedSlots r) /\
  (device_reliable w -> exists r' w', ring_run evs r w = Ok (r', w')).
Proof.
  induction evs as [|ev rest IH]; intros r w HN Hinv; cbn [ring_run].
  - split.
    + intros r' w' [= <- <-]. auto.
    + intros _. exists r, w. reflexivity.
  - destruct (ring_step_inv N ev r w HN Hinv) as [Hsafe Hlive].
    unfold mbind, M_bind. split.
    + intros r' w' Hrun.
      destruct (ring_step ev r w) as [[r1 w1]|e]; [|discriminate].
      destruct (Hsafe r1 w1 eq_refl) as (Hinv1 & Hp1 & _).
      destruct (IH r1 w1 HN Hinv1) as [Hsafe' _].
      destruct (Hsafe' r' w' Hrun) as [Hinv' Hp']. split; [exact Hinv' | congruence].
    + intros Hrel. destruct (Hlive Hrel) as (r1 & w1 & Hstep). rewrite Hstep.
      destruct (Hsafe r1 w1 Hstep) as (Hinv1 & _ & Hrel1).
      destruct (IH r1 w1 HN Hinv1) as [_ Hlive']. apply Hlive'. apply Hrel1. exact Hrel.
Qed.

Lemma filter_bound_nil (n : nat) (l : list (MTLCommandBuffer * Handler)) :
  Forall (fun ch => (slots (snd ch) < n)%nat) l ->
  List.filter (fun ch => Nat.eqb (slots (snd ch)) n) l = [].
Proof.
  induction 1 as [|ch l Hch _ IH]; [reflexivity|]. cbn [List.filter].
  destruct (Nat.eqb (slots (snd ch)) n) eqn:E; [|exact IH].
  apply Nat.eqb_eq in E. lia.
Qed.

Lemma ctor_establishes_inv target opts layout N w r0 w0 :
  MetalRingBuffer.ctor target tt opts layout N w = Ok (r0, w0) ->
  1 <= N -> handlers_bound w ->
  ring_inv N r0 w0 /\ in_flight r0 w0 = Some 1.
Proof.
  intros Hctor HN Hb.
  destruct (ctor_success _ _ _ _ _ _ _ Hctor) as (s & Hs & -> & Hdev & Hcnt & Hh).
  assert (Hcell : counters w0 !! length (counters w) = Some (Some 1)).
  { rewrite Hcnt. apply list_lookup_middle. reflexivity. }
  split.
  - split; [reflexivity|]. split; [intros H; discriminate H|].
    exists 1. cbn [MetalRingBuffer.mOccupiedSlots]. split; [exact Hcell|].
    assert (Hnone : pending (length (counters w)) w0 = []).
    { unfold pending. rewrite Hh. apply filter_bound_nil. exact Hb. }
    rewrite Hnone. cbn. lia.
  - unfold in_flight. cbn [MetalRingBuffer.mOccupiedSlots]. rewrite Hcell. reflexivity.
Qed.

(** Which calls add a handler: exactly those that find a free slot and no
    auxiliary buffer. *)
Lemma allocation_adds_handler N r w v c a r1 w1 :
  1 <= N < 2 ^ 64 -> ring_inv N r w ->
  counters w !! MetalRingBuffer.mOccupiedSlots r = Some (Some v) ->
  MetalRingBuffer.createNewAllocation r c w = Ok ((a, r1), w1) ->
  handlers w1 =
    handlers w ++
    (if (v <? N) && negb (TrackedMetalBuffer.to_bool (MetalRingBuffer.mAuxBuffer r))
     then [(c, {| slots := MetalRingBuffer.mOccupiedSlots r |})] else []).
Proof.
  intros HN (Hcount & Hwt & v' & Hcell' & Hv) Hcell Hstep.
  rewrite Hcell in Hcell'. injection Hcell' as <-.
  destruct (Z.eq_dec v N) as [HvN|HvN].
  - assert (Hlt : (v <? N) = false) by (apply Z.ltb_ge; lia).
    rewrite Hlt. cbn [andb]. rewrite app_nil_r.
    destruct (newBuffer_cases (MetalRingBuffer.mSlotSizeBytes r)
                (MetalRingBuffer.mBufferOptions r) w) as [(rest & Hout & _)|[_ Hhd]].
    + exfalso.
      apply (createNewAllocation_overflow_failed r w v Hcell c rest ltac:(lia) Hout
               (a, r1, w1)).
      exact Hstep.
    + destruct (createNewAllocation_overflow r w v Hcell c ltac:(lia) Hwt Hhd)
        as (w2 & Hstep2 & _ & _ & Hh).
      rewrite Hstep2 in Hstep. injection Hstep as _ _ <-. exact Hh.
  - assert (Hlt : (v <? N) = true) by (apply Z.ltb_lt; lia).
    rewrite Hlt. cbn [andb].
    destruct (MetalRingBuffer.mAuxBuffer r) as [[x|] ty] eqn:Haux.
    + assert (Hty : ty <> TrackedMetalBuffer.NONE) by (apply Hwt; reflexivity).
      destruct (toIndex_not_NONE ty Hty) as (_ & i & Hi & _).
      rewrite (createNewAllocation_slot_after_aux r w v Hcell c x ty i
                 ltac:(lia) Haux Hi) in Hstep.
      injection Hstep as _ _ <-. cbn. rewrite app_nil_r. reflexivity.
    + pose proof (createNewAllocation_slot r w v Hcell c ltac:(lia)) as Hstep2.
      rewrite Haux in Hstep2. specialize (Hstep2 eq_refl).
      rewrite Hstep2 in Hstep. injection Hstep as _ _ <-. reflexivity.
Qed.

(** C4, as stated, fails: the call made for command buffer 7 takes a
    ring slot (main buffer, offset 0) while an auxiliary buffer exists, so no
    handler is added, and when command buffer 7 completes the in-flight
    count stays at 2. *)
Lemma completion_without_decrement_counterexample :
  exists w',
    (r0 ← MetalRingBuffer.ctor OTHER tt 0 {| MTL.size := 40; MTL.align := 8 |} 2;
     r ← ring_run [Allocate 5%positive; Allocate 6%positive; Completed 5%positive] r0;
     '(a, r1) ← MetalRingBuffer.createNewAllocation r 7%positive;
     before ← gets (in_flight r1);
     complete 7%positive;;
     after ← gets (in_flight r1);
     mret (a, TrackedMetalBuffer.get (MetalRingBuffer.mBuffer r1), before, after))
      {| aliveBuffers := [0; 0; 0]; platform := None; stats := [];
         device := {| dev_next := 1%positive; dev_outcomes := [] |};
         counters := []; handlers := [] |}
    = Ok (((Some 1%positive, 0), Some 1%positive, Some 2, Some 2), w').
Proof. eexists. vm_compute. reflexivity. Qed.

(** C4 (amended): for a ring buffer constructed with [N >= 1] slots and
    every interleaving of [createNewAllocation] calls and command-buffer
    completions: the run goes through on a device that does not fail; the
    in-flight count always satisfies [1 <= count <= N]; each pending
    completion handler of the ring decrements the count by exactly one when
    it runs; a completing command buffer decrements the count once for each
    handler the ring added to it; and a call adds one handler exactly when
    it finds a free slot and no auxiliary buffer (none for a call that took
    a slot while an auxiliary buffer existed). *)
Theorem in_flight_count_bounds target opts layout N w r0 w0 evs :
  MetalRingBuffer.ctor target tt opts layout N w = Ok (r0, w0) ->
  1 <= N < 2 ^ 64 -> handlers_bound w ->
  (device_reliable w0 -> exists r w', ring_run evs r0 w0 = Ok (r, w')) /\
  forall r w', ring_run evs r0 w0 = Ok (r, w') ->
    exists v,
      in_flight r w' = Some v /\ 1 <= v <= N /\
      (forall ch, In ch (pending (MetalRingBuffer.mOccupiedSlots r) w') ->
         exists w'',
           MetalRingBuffer.completedHandler (snd ch) w' = Ok (tt, w'') /\
           in_flight r w'' = Some (v - 1)) /\
      (forall c, exists w'',
         complete c w' = Ok (tt, w'') /\
         in_flight r w'' =
           Some (v - Z.of_nat (length (List.filter (on_buffer c)
                                         (pending (MetalRingBuffer.mOccupiedSlots r) w'))))) /\
      (forall c a r1 w1,
         MetalRingBuffer.createNewAllocation r c w' = Ok ((a, r1), w1) ->
         handlers w1 =
           handlers w' ++
           (if (v <? N) && negb (TrackedMetalBuffer.to_bool (MetalRingBuffer.mAuxBuffer r))
            then [(c, {| slots := MetalRingBuffer.mOccupiedSlots r |})] else [])).
Proof.
  intros Hctor HN Hb.
  destruct (ctor_establishes_inv _ _ _ _ _ _ _ Hctor ltac:(lia) Hb) as [Hinv0 _].
  destruct (ring_run_inv N evs r0 w0 HN Hinv0) as [Hsafe Hlive].
  split; [exact Hlive|].
  intros r w' Hrun. destruct (Hsafe r w' Hrun) as [Hinv _].
  pose proof Hinv as (Hcount & Hwt & v & Hcell & Hv).
  assert (Hbound : (MetalRingBuffer.mOccupiedSlots r < length (counters w'))%nat)
    by (eapply lookup_lt_Some; exact Hcell).
  exists v. split; [unfold in_flight; rewrite Hcell; reflexivity|].
  split; [lia|]. split; [|split].
  - intros [c [q]] Hin. unfold pending in Hin. apply filter_In in Hin as [_ Hq].
    cbn in Hq. apply Nat.eqb_eq in Hq. subst q. cbn [snd].
    rewrite (completedHandler_alive _ w' v Hcell). eexists. split; [reflexivity|].
    unfold in_flight. cbn. rewrite list_lookup_insert_eq by exact Hbound.
    rewrite wrap_small by (unfold u64; lia). reflexivity.
  - intros c.
    destruct (complete_cell (MetalRingBuffer.mOccupiedSlots r) c w' v Hcell ltac:(lia))
      as (w'' & Hstep & Hcell'' & _).
    exists w''. split; [exact Hstep|]. unfold in_flight. rewrite Hcell''. reflexivity.
  - intros c a r1 w1 Hstep.
    exact (allocation_adds_handler N r w' v c a r1 w1 HN Hinv Hcell Hstep).
Qed.

Lemma in_flight_count_bounds_witness :
  exists r0 w0 r w' v,
    MetalRingBuffer.ctor OTHER tt 0 {| MTL.size := 40; MTL.align := 8 |} 2
      {| aliveBuffers := [0; 0; 0]; platform := None; stats := [];
         device := {| dev_next := 1%positive; dev_outcomes := [] |};
         counters := []; handlers := [] |} = Ok (r0, w0) /\
    ring_run [Allocate 5%positive; Allocate 6%positive; Completed 5%positive;
              Allocate 7%positive] r0 w0 = Ok (r, w') /\
    in_flight r w' = Some v /\ 1 <= v <= 2.
Proof.
  eexists. eexists.
  assert (Hctor :
    MetalRingBuffer.ctor OTHER tt 0 {| MTL.size := 40; MTL.align := 8 |} 2
      {| aliveBuffers := [0; 0; 0]; platform := None; stats := [];
         device := {| dev_next := 1%positive; dev_outcomes := [] |};
         counters := []; handlers := [] |} = Ok _) by (vm_compute; reflexivity).
  destruct (in_flight_count_bounds _ _ _ _ _ _ _
              [Allocate 5%positive; Allocate 6%positive; Completed 5%positive;
               Allocate 7%positive] Hctor) as [Hlive Hsafe];
    [lia | constructor |].
  destruct Hlive as (r & w' & Hrun); [constructor|].
  destruct (Hsafe r w' Hrun) as (v & Hfl & Hv & _).
  exists r, w', v. auto.
Defined.

(** * Beyond the claims: [align] and the slot size *)

Lemma pow2_64_multiple k : 0 <= k < 64 -> 2 ^ 64 = 2 ^ (64 - k) * 2 ^ k.
Proof. intros Hk. rewrite <- Z.pow_add_r by lia. f_equal. lia. Qed.

(** The asserted condition holds of nothing but powers of two. *)
Lemma is_power_of_two_inv a :
  u64 a -> is_power_of_two a = true -> exists k, 0 <= k < 64 /\ a = 2 ^ k.
Proof.
  intros [Ha0 Ha1] H. unfold is_power_of_two in H.
  apply andb_true_iff in H as [Hnz Hland].
  apply negb_true_iff, Z.eqb_neq in Hnz. apply Z.eqb_eq in Hland.
  rewrite wrap_small in Hland by (unfold u64; lia).
  assert (Hpos : 0 < a) by lia.
  destruct (Z.log2_spec a Hpos) as [Hlo Hhi].
  pose proof (Z.log2_nonneg a) as Hk0.
  assert (Hk : Z.log2 a < 64) by (apply Z.log2_lt_pow2; lia).
  exists (Z.log2 a). split; [lia|].
  destruct (Z.eq_dec a (2 ^ Z.log2 a)) as [E|NE]; [exact E|exfalso].
  assert (Hlog : Z.log2 (a - 1) = Z.log2 a).
  { apply Z.log2_unique; [exact Hk0|]. lia. }
  assert (Hb1 : Z.testbit a (Z.log2 a) = true) by (apply Z.bit_log2; lia).
  assert (Hb2 : Z.testbit (a - 1) (Z.log2 a) = true).
  { rewrite <- Hlog. apply Z.bit_log2. lia. }
  apply (f_equal (fun x => Z.testbit x (Z.log2 a))) in Hland.
  rewrite Z.land_spec, Hb1, Hb2, Z.bits_0 in Hland. discriminate Hland.
Qed.

(** [align] on every 64-bit [p]: the least multiple at or above [p],
    reduced to 64 bits. *)
Lemma align_wrapped p k :
  u64 p -> 0 <= k < 64 -> align p (2 ^ k) = Ok (round_up p (2 ^ k) mod 2 ^ 64).
Proof.
  intros Hp Hk. destruct (pow2_bounds k Hk) as [Hpos Hle].
  assert (H63 : 2 ^ 63 < 2 ^ 64) by (apply Z.pow_lt_mono_r; lia).
  pose proof (round_up_ge p (2 ^ k) ltac:(lia)) as Hge.
  pose proof (round_up_lt p (2 ^ k) ltac:(lia)) as Hlt.
  destruct (Z.lt_ge_cases (p + 2 ^ k - 1) (2 ^ 64)) as [Hno|Hwrap].
  - rewrite align_round_up by (unfold u64 in *; lia).
    rewrite Z.mod_small by (unfold u64 in *; lia). reflexivity.
  - unfold align. rewrite is_power_of_two_pow2 by exact Hk.
    assert (Hw : wrap (p + 2 ^ k - 1) = p + 2 ^ k - 1 - 2 ^ 64).
    { unfold wrap. symmetry. apply Z.mod_unique with 1; unfold u64 in *; lia. }
    rewrite Hw. rewrite land_bnot_mask by (unfold u64 in *; lia). f_equal.
    assert (Hmod : (p + 2 ^ k - 1 - 2 ^ 64) mod 2 ^ k = (p + 2 ^ k - 1) mod 2 ^ k).
    { rewrite (pow2_64_multiple k Hk) at 1.
      replace (p + 2 ^ k - 1 - 2 ^ (64 - k) * 2 ^ k)
        with (p + 2 ^ k - 1 + (- 2 ^ (64 - k)) * 2 ^ k) by ring.
      apply Z.mod_add. lia. }
    rewrite Hmod. rewrite round_up_eq by lia.
    pose proof (Z.mod_pos_bound (p + 2 ^ k - 1 - 2 ^ 64) (2 ^ k) ltac:(lia)) as Hb.
    pose proof (Z.mod_le (p + 2 ^ k - 1 - 2 ^ 64) (2 ^ k) ltac:(lia) ltac:(lia)) as Hml.
    rewrite Hmod in Hb, Hml.
    apply Z.mod_unique with 1; unfold u64 in *; lia.
Qed.

(** X1: [align] returns a value exactly when the alignment is a power of
    two (that fits 64 bits); for any other alignment it stops at its
    [assert]. *)
Theorem align_accepts_exactly_powers_of_two p a :
  u64 a ->
  ((exists r, align p a = Ok r) <-> exists k, 0 <= k < 64 /\ a = 2 ^ k) /\
  (align p a = Fail AssertFailed <-> ~ exists k, 0 <= k < 64 /\ a = 2 ^ k).
Proof.
  intros Ha. unfold align. destruct (is_power_of_two a) eqn:E.
  - pose proof (is_power_of_two_inv a Ha E) as Hk. split.
    + split; [intros _; exact Hk | intros _; eexists; reflexivity].
    + split; [discriminate | intros Hn; contradiction].
  - assert (Hn : ~ exists k, 0 <= k < 64 /\ a = 2 ^ k).
    { intros (k & Hk & ->). rewrite is_power_of_two_pow2 in E by exact Hk. discriminate E. }
    split.
    + split; [intros (r & Hr); discriminate Hr | intros Hk; contradiction].
    + split; [intros _; exact Hn | reflexivity].
Qed.

Lemma align_accepts_exactly_powers_of_two_witness :
  ((exists r, align 40 12 = Ok r) <-> exists k, 0 <= k < 64 /\ 12 = 2 ^ k) /\
  (align 40 12 = Fail AssertFailed <-> ~ exists k, 0 <= k < 64 /\ 12 = 2 ^ k).
Proof. apply (align_accepts_exactly_powers_of_two 40 12). unfold u64. lia. Defined.

(** X2: on every 64-bit [p], [align p (2^k)] is the least multiple of
    [2^k] at or above [p], reduced modulo [2^64]; so for [p] above
    [2^64 - 2^k] it is 0. *)
Theorem align_wraps_to_zero p k :
  u64 p -> 0 <= k < 64 ->
  align p (2 ^ k) = Ok (round_up p (2 ^ k) mod 2 ^ 64) /\
  (2 ^ 64 - 2 ^ k < p -> align p (2 ^ k) = Ok 0).
Proof.
  intros Hp Hk. split; [apply align_wrapped; assumption|].
  intros Hhigh. rewrite align_wrapped by assumption. f_equal.
  destruct (pow2_bounds k Hk) as [Hpos Hle].
  pose proof (round_up_ge p (2 ^ k) ltac:(lia)) as Hge.
  pose proof (round_up_lt p (2 ^ k) ltac:(lia)) as Hlt.
  pose proof (round_up_multiple p (2 ^ k) ltac:(lia)) as Hmul.
  apply Z.mod_divide in Hmul; [|lia]. destruct Hmul as [j Hj].
  pose proof (pow2_64_multiple k Hk) as H64. unfold u64 in Hp.
  remember (round_up p (2 ^ k)) as R. remember (2 ^ k) as A.
  remember (2 ^ (64 - k)) as B. remember (2 ^ 64) as T.
  assert (Hj1 : B - 1 < j) by nia.
  assert (Hj2 : j < B + 1) by nia.
  assert (R = T) by nia. subst R. rewrite H. apply Z.mod_same. lia.
Qed.

Lemma align_wraps_to_zero_witness :
  align (2 ^ 64 - 3) (2 ^ 2) = Ok (round_up (2 ^ 64 - 3) (2 ^ 2) mod 2 ^ 64) /\
  (2 ^ 64 - 2 ^ 2 < 2 ^ 64 - 3 -> align (2 ^ 64 - 3) (2 ^ 2) = Ok 0).
Proof. apply (align_wraps_to_zero (2 ^ 64 - 3) 2); unfold u64; lia. Defined.

(** X3: the values [align] leaves unchanged are exactly the multiples of
    the alignment. *)
Theorem align_fixes_exactly_multiples p k :
  u64 p -> 0 <= k < 64 ->
  (align p (2 ^ k) = Ok p <-> p mod 2 ^ k = 0).
Proof.
  intros Hp Hk. destruct (pow2_bounds k Hk) as [Hpos Hle].
  rewrite align_wrapped by assumption.
  pose proof (round_up_ge p (2 ^ k) ltac:(lia)) as Hge.
  pose proof (round_up_lt p (2 ^ k) ltac:(lia)) as Hlt.
  pose proof (round_up_multiple p (2 ^ k) ltac:(lia)) as Hmul.
  split.
  - intros [= E].
    destruct (Z.lt_ge_cases (round_up p (2 ^ k)) (2 ^ 64)) as [Hsmall|Hbig].
    + rewrite Z.mod_small in E by (unfold u64 in Hp; lia). rewrite <- E. exact Hmul.
    + assert (E' : round_up p (2 ^ k) mod 2 ^ 64 = round_up p (2 ^ k) - 2 ^ 64).
      { symmetry. apply Z.mod_unique with 1; unfold u64 in Hp; lia. }
      assert (H63 : 2 ^ 63 < 2 ^ 64) by (apply Z.pow_lt_mono_r; lia).
      unfold u64 in Hp. lia.
  - intros Hm. rewrite round_up_fixed by (lia || exact Hm).
    rewrite Z.mod_small by exact Hp. reflexivity.
Qed.

Lemma align_fixes_exactly_multiples_witness :
  align 96 (2 ^ 5) = Ok 96 <-> 96 mod 2 ^ 5 = 0.
Proof. apply (align_fixes_exactly_multiples 96 5); unfold u64; lia. Defined.

(** X4: [align] is monotone where the larger argument does not wrap
    around. *)
Theorem align_monotone p q k :
  0 <= p <= q -> 0 <= k < 64 -> q + 2 ^ k - 1 < 2 ^ 64 ->
  exists rp rq,
    align p (2 ^ k) = Ok rp /\ align q (2 ^ k) = Ok rq /\ rp <= rq.
Proof.
  intros Hpq Hk Hno. destruct (pow2_bounds k Hk) as [Hpos Hle].
  exists (round_up p (2 ^ k)), (round_up q (2 ^ k)).
  split; [apply align_round_up; [exact Hk | unfold u64; lia]|].
  split; [apply align_round_up; [exact Hk | unfold u64; lia]|].
  apply round_up_least; [lia | apply round_up_multiple; lia |].
  pose proof (round_up_ge q (2 ^ k) ltac:(lia)). lia.
Qed.

Lemma align_monotone_witness :
  exists rp rq, align 33 (2 ^ 4) = Ok rp /\ align 50 (2 ^ 4) = Ok rq /\ rp <= rq.
Proof. apply (align_monotone 33 50 4); lia. Defined.

Lemma round_up_mono x y a : 0 < a -> x <= y -> round_up x a <= round_up y a.
Proof.
  intros Ha Hxy. apply round_up_least; [exact Ha | apply round_up_multiple; exact Ha |].
  pose proof (round_up_ge y a Ha). lia.
Qed.

Lemma round_up_zero a : 0 < a -> round_up 0 a = 0.
Proof.
  intros Ha. apply round_up_fixed; [exact Ha | apply Z.mod_0_l; lia].
Qed.

Lemma pow2_divide i j : 0 <= i <= j -> (2 ^ i | 2 ^ j).
Proof.
  intros H. exists (2 ^ (j - i)). rewrite <- Z.pow_add_r by lia. f_equal. lia.
Qed.

Lemma multiple_of_smaller_pow2 x i j : 0 <= i <= j -> x mod 2 ^ j = 0 -> x mod 2 ^ i = 0.
Proof.
  intros H Hx.
  assert (0 < 2 ^ i) by (apply Z.pow_pos_nonneg; lia).
  assert (0 < 2 ^ j) by (apply Z.pow_pos_nonneg; lia).
  apply Z.mod_divide; [lia|]. apply Z.mod_divide in Hx; [|lia].
  eapply Z.divide_trans; [apply pow2_divide; exact H | exact Hx].
Qed.

(** X5: the slot size (where nothing wraps around) is at least the
    requested size, is a multiple of the requested alignment and of the
    platform's offset alignment, and is 0 only for a request of size 0. *)
Theorem slot_size_is_aligned t layout k :
  0 <= k < 64 -> MTL.align layout = 2 ^ k ->
  0 <= MTL.size layout ->
  round_up (MTL.size layout) (2 ^ k) + METAL_CONSTANT_BUFFER_OFFSET_ALIGNMENT t - 1 < 2 ^ 64 ->
  exists s,
    computeSlotSize t layout = Ok s /\
    MTL.size layout <= s /\
    s mod 2 ^ k = 0 /\
    s mod METAL_CONSTANT_BUFFER_OFFSET_ALIGNMENT t = 0 /\
    (s = 0 <-> MTL.size layout = 0).
Proof.
  intros Hk Ha Hs Hno. eexists. split; [apply (computeSlotSize_round_up t layout k); assumption|].
  destruct (pow2_bounds k Hk) as [Hpos _].
  destruct (platform_alignment_pow2 t) as (j & Hj & HM). rewrite HM in *.
  destruct (pow2_bounds j Hj) as [Hposj _].
  set (inner := round_up (MTL.size layout) (2 ^ k)).
  pose proof (round_up_ge (MTL.size layout) (2 ^ k) ltac:(lia)) as Hge1.
  pose proof (round_up_multiple (MTL.size layout) (2 ^ k) ltac:(lia)) as Hmul1.
  pose proof (round_up_ge inner (2 ^ j) ltac:(lia)) as Hge2.
  pose proof (round_up_multiple inner (2 ^ j) ltac:(lia)) as Hmul2.
  fold inner in Hge1, Hmul1.
  split; [lia|]. split; [|split; [exact Hmul2|]].
  - destruct (Z.le_gt_cases k j) as [Hkj|Hjk].
    + apply (multiple_of_smaller_pow2 _ k j); [lia | exact Hmul2].
    + rewrite round_up_fixed; [exact Hmul1 | lia |].
      apply (multiple_of_smaller_pow2 _ j k); [lia | exact Hmul1].
  - split.
    + intros H0. lia.
    + intros H0. subst inner. rewrite H0. rewrite round_up_zero by lia.
      apply round_up_zero. lia.
Qed.

Lemma slot_size_is_aligned_witness :
  exists s,
    computeSlotSize IOS_SIMULATOR {| MTL.size := 300; MTL.align := 16 |} = Ok s /\
    300 <= s /\ s mod 2 ^ 4 = 0 /\ s mod 256 = 0 /\ (s = 0 <-> 300 = 0).
Proof.
  apply (slot_size_is_aligned IOS_SIMULATOR {| MTL.size := 300; MTL.align := 16 |} 4);
    try reflexivity; simpl; lia.
Defined.

(** X6: a ring buffer accommodates the layout it was constructed with. *)
Theorem ring_accommodates_own_layout target opts layout N w r0 w0 :
  MetalRingBuffer.ctor target tt opts layout N w = Ok (r0, w0) ->
  MetalRingBuffer.canAccomodateLayout target r0 layout = Ok true.
Proof.
  intros Hctor.
  destruct (ctor_success _ _ _ _ _ _ _ Hctor) as (s & Hs & -> & _).
  unfold MetalRingBuffer.canAccomodateLayout. rewrite Hs. cbn.
  rewrite Z.leb_refl. reflexivity.
Qed.

Lemma ring_accommodates_own_layout_witness :
  exists r0 w0,
    MetalRingBuffer.ctor OTHER tt 0 {| MTL.size := 40; MTL.align := 8 |} 2
      {| aliveBuffers := [0; 0; 0]; platform := None; stats := [];
         device := {| dev_next := 1%positive; dev_outcomes := [] |};
         counters := []; handlers := [] |} = Ok (r0, w0) /\
    MetalRingBuffer.canAccomodateLayout OTHER r0 {| MTL.size := 40; MTL.align := 8 |} = Ok true.
Proof.
  eexists. eexists.
  assert (Hctor :
    MetalRingBuffer.ctor OTHER tt 0 {| MTL.size := 40; MTL.align := 8 |} 2
      {| aliveBuffers := [0; 0; 0]; platform := None; stats := [];
         device := {| dev_next := 1%positive; dev_outcomes := [] |};
         counters := []; handlers := [] |} = Ok _) by (vm_compute; reflexivity).
  split; [exact Hctor|].
  exact (ring_accommodates_own_layout _ _ _ _ _ _ _ Hctor).
Defined.

(** X7: a ring buffer that accommodates a layout accommodates every
    smaller size at the same alignment. *)
Theorem smaller_layout_fits t r s1 s2 k :
  0 <= k < 64 -> 0 <= s2 <= s1 ->
  round_up s1 (2 ^ k) + METAL_CONSTANT_BUFFER_OFFSET_ALIGNMENT t - 1 < 2 ^ 64 ->
  MetalRingBuffer.canAccomodateLayout t r {| MTL.size := s1; MTL.align := 2 ^ k |} = Ok true ->
  MetalRingBuffer.canAccomodateLayout t r {| MTL.size := s2; MTL.align := 2 ^ k |} = Ok true.
Proof.
  intros Hk Hs Hno.
  destruct (pow2_bounds k Hk) as [Hpos _].
  destruct (platform_alignment_pow2 t) as (j & Hj & HM).
  destruct (pow2_bounds j Hj) as [Hposj _].
  pose proof (round_up_mono s2 s1 (2 ^ k) ltac:(lia) ltac:(lia)) as Hin.
  unfold MetalRingBuffer.canAccomodateLayout.
  rewrite (computeSlotSize_round_up t {| MTL.size := s1; MTL.align := 2 ^ k |} k)
    by (cbn; (lia || reflexivity)).
  rewrite (computeSlotSize_round_up t {| MTL.size := s2; MTL.align := 2 ^ k |} k)
    by (cbn; (lia || reflexivity)).
  cbn. intros [= H]. f_equal. apply Z.leb_le. apply Z.leb_le in H.
  pose proof (round_up_mono (round_up s2 (2 ^ k)) (round_up s1 (2 ^ k))
                (METAL_CONSTANT_BUFFER_OFFSET_ALIGNMENT t) ltac:(lia) Hin).
  lia.
Qed.

Lemma smaller_layout_fits_witness :
  MetalRingBuffer.canAccomodateLayout OTHER
    {| MetalRingBuffer.mDevice := tt;
       MetalRingBuffer.mBuffer :=
         {| TrackedMetalBuffer.mBuffer := Some 1%positive;
            TrackedMetalBuffer.mType := TrackedMetalBuffer.RING |};
       MetalRingBuffer.mAuxBuffer :=
         {| TrackedMetalBuffer.mBuffer := None;
            TrackedMetalBuffer.mType := TrackedMetalBuffer.NONE |};
       MetalRingBuffer.mBufferOptions := 0;
       MetalRingBuffer.mSlotSizeBytes := 64;
       MetalRingBuffer.mSlotCount := 2;
       MetalRingBuffer.mCurrentSlot := 0;
       MetalRingBuffer.mOccupiedSlots := 0%nat |}
    {| MTL.size := 10; MTL.align := 2 ^ 3 |} = Ok true.
Proof.
  apply (smaller_layout_fits OTHER _ 40 10 3); try reflexivity; simpl; lia.
Defined.

(** * Beyond the claims: tracked buffers *)

(** X8: [toIndex] stops at its [assert_invariant] exactly for [NONE], and
    gives the other categories distinct indices below [TypeCount]: no two
    categories share a counter. *)
Theorem toIndex_separates_categories :
  (forall t, TrackedMetalBuffer.toIndex t = Fail AssertInvariantFailed <->
             t = TrackedMetalBuffer.NONE) /\
  (forall t1 t2 i,
     TrackedMetalBuffer.toIndex t1 = Ok i -> TrackedMetalBuffer.toIndex t2 = Ok i ->
     t1 = t2 /\ (i < TrackedMetalBuffer.TypeCount)%nat).
Proof.
  split.
  - intros t. destruct t; cbn; split; intros H; congruence.
  - intros t1 t2 i H1 H2. unfold TrackedMetalBuffer.TypeCount.
    destruct t1, t2; cbn in H1, H2; try discriminate;
      injection H1 as <-; try discriminate H2; split; (reflexivity || lia).
Qed.

Lemma toIndex_separates_categories_witness :
  TrackedMetalBuffer.RING = TrackedMetalBuffer.RING /\ (1 < TrackedMetalBuffer.TypeCount)%nat.
Proof.
  apply (proj2 toIndex_separates_categories TrackedMetalBuffer.RING TrackedMetalBuffer.RING 1%nat);
    reflexivity.
Defined.

Lemma live_sum objs :
  Forall well_typed objs ->
  live TrackedMetalBuffer.GENERIC objs + live TrackedMetalBuffer.RING objs
  + live TrackedMetalBuffer.STAGING objs = holders objs.
Proof.
  induction 1 as [|o rest Ho _ IH]; [reflexivity|].
  unfold live, holders in *. cbn [List.filter].
  destruct o as [[h|] ty]; cbn [TrackedMetalBuffer.to_bool TrackedMetalBuffer.mBuffer
    TrackedMetalBuffer.mType andb] in *.
  - assert (Hty : ty <> TrackedMetalBuffer.NONE) by (apply Ho; reflexivity).
    destruct ty; try congruence; cbn [type_eqb length]; lia.
  - exact IH.
Qed.

Lemma holders_le_length objs : 0 <= holders objs <= Z.of_nat (length objs).
Proof.
  unfold holders. split; [lia|]. apply inj_le. apply List.filter_length_le.
Qed.

Lemma wrap_sum3 a b c :
  wrap (wrap (wrap (wrap a) + wrap b) + wrap c) = wrap (a + b + c).
Proof.
  unfold wrap. rewrite Zmod_mod, Zplus_mod_idemp_l, Zplus_mod_idemp_r.
  replace (a mod 2 ^ 64 + b mod 2 ^ 64 + c) with (a mod 2 ^ 64 + (b mod 2 ^ 64 + c)) by ring.
  rewrite Zplus_mod_idemp_l.
  replace (a + (b mod 2 ^ 64 + c)) with (b mod 2 ^ 64 + (a + c)) by ring.
  rewrite Zplus_mod_idemp_l. f_equal. ring.
Qed.

Lemma total_of_inv st w :
  tracker_inv st w -> total_alive w = wrap (holders (fst st)).
Proof.
  intros (Halive & Hwt & _). unfold total_alive. rewrite Halive. cbn [fold_left].
  rewrite <- (live_sum _ Hwt). rewrite Z.add_0_l. apply wrap_sum3.
Qed.

(** X9: along every run from process start, [getAliveBuffers()] is the
    number of live objects that hold a handle, whatever their category (on
    64 bits, and exactly whenever that number fits). *)
Theorem total_alive_counts_holders ops w :
  fresh_tracker w -> typed_ops ops ->
  exists objs log w',
    tracker_run ops ([], []) w = Ok ((objs, log), w') /\
    TrackedMetalBuffer.getAliveBuffers w' = Ok (wrap (holders objs), w') /\
    (holders objs < 2 ^ 64 ->
     TrackedMetalBuffer.getAliveBuffers w' = Ok (holders objs, w')).
Proof.
  intros Hfresh Hops.
  assert (Hinv0 : tracker_inv ([], []) w).
  { split; [exact Hfresh|]. split; [constructor|]. intros ty _. reflexivity. }
  destruct (tracker_run_inv ops ([], []) w Hinv0 Hops) as ([objs log] & w' & Hrun & Hinv).
  exists objs, log, w'. split; [exact Hrun|].
  pose proof (total_of_inv _ _ Hinv) as Htot. cbn [fst] in Htot.
  unfold TrackedMetalBuffer.getAliveBuffers, gets. fold (total_alive w'). rewrite Htot.
  split; [reflexivity|]. intros Hfit.
  pose proof (holders_le_length objs).
  rewrite wrap_small by (unfold u64; lia). reflexivity.
Qed.

Lemma total_alive_counts_holders_witness :
  exists objs log w',
    tracker_run
      [New (Some 1%positive) TrackedMetalBuffer.RING;
       New (Some 2%positive) TrackedMetalBuffer.STAGING; NewNull; Delete 0]
      ([], [])
      {| aliveBuffers := [0; 0; 0]; platform := None; stats := [];
         device := {| dev_next := 3%positive; dev_outcomes := [] |};
         counters := []; handlers := [] |} = Ok ((objs, log), w') /\
    TrackedMetalBuffer.getAliveBuffers w' = Ok (wrap (holders objs), w').
Proof.
  destruct (total_alive_counts_holders
              [New (Some 1%positive) TrackedMetalBuffer.RING;
               New (Some 2%positive) TrackedMetalBuffer.STAGING; NewNull; Delete 0]
              {| aliveBuffers := [0; 0; 0]; platform := None; stats := [];
                 device := {| dev_next := 3%positive; dev_outcomes := [] |};
                 counters := []; handlers := [] |})
    as (objs & log & w' & Hrun & Htot & _).
  - reflexivity.
  - repeat constructor; discriminate.
  - exists objs, log, w'. auto.
Defined.

Lemma ctor_keeps_length h ty w o w1 :
  TrackedMetalBuffer.ctor (Some h) ty w = Ok (o, w1) ->
  length (aliveBuffers w1) = length (aliveBuffers w).
Proof.
  unfold TrackedMetalBuffer.ctor. unfold mbind at 1. unfold M_bind at 1.
  unfold assert_invariant. destruct (negb (TrackedMetalBuffer.is_NONE ty)) eqn:Hn; [|discriminate].
  apply negb_true_iff in Hn.
  assert (Hty : ty <> TrackedMetalBuffer.NONE) by (intros ->; discriminate Hn).
  destruct (toIndex_not_NONE ty Hty) as (_ & i & Hi & _).
  destruct (ctor_handle_alive h ty w i Hi) as (w' & Hc & Ha & _).
  unfold TrackedMetalBuffer.ctor in Hc. unfold mbind at 1 in Hc. unfold M_bind at 1 in Hc.
  unfold assert_invariant in Hc. rewrite Hn in Hc. cbn [negb] in Hc.
  intros H. rewrite Hc in H. injection H as _ <-. rewrite Ha. apply length_alter.
Qed.

Lemma alive_entry_u64 w i :
  Forall u64 (aliveBuffers w) -> u64 (default 0 (aliveBuffers w !! i)).
Proof.
  intros Hall. destruct (aliveBuffers w !! i) as [x|] eqn:E; cbn.
  - rewrite Forall_forall in Hall. apply Hall. apply list_elem_of_In.
    eapply list_elem_of_lookup_2. exact E.
  - unfold u64. lia.
Qed.

(** X10: assigning a tracked buffer destroys what the left side held and
    adopts the right side. Assigning a newly constructed buffer with a
    handle raises its category's counter by one and lowers by one the
    counter of the category whose handle the left side held (so replacing a
    buffer by one of the same category leaves every counter as it was);
    assigning [nil] only lowers the latter. *)
Theorem assignment_nets_counters old h ty w :
  ty <> TrackedMetalBuffer.NONE -> well_typed old ->
  length (aliveBuffers w) = 3%nat -> Forall u64 (aliveBuffers w) ->
  (exists w',
     TrackedMetalBuffer.assign_temporary old (TrackedMetalBuffer.ctor (Some h) ty) w =
       Ok ({| TrackedMetalBuffer.mBuffer := Some h; TrackedMetalBuffer.mType := ty |}, w') /\
     forall ty', ty' <> TrackedMetalBuffer.NONE ->
       exists n,
         TrackedMetalBuffer.getAliveBuffersOf ty' w = Ok (n, w) /\
         TrackedMetalBuffer.getAliveBuffersOf ty' w' =
           Ok (wrap (n + indicator (type_eqb ty ty')
                     - indicator (TrackedMetalBuffer.to_bool old
                                  && type_eqb (TrackedMetalBuffer.mType old) ty')), w')) /\
  (exists w',
     TrackedMetalBuffer.assign_temporary old TrackedMetalBuffer.ctor_nullptr w =
       Ok ({| TrackedMetalBuffer.mBuffer := None;
              TrackedMetalBuffer.mType := TrackedMetalBuffer.NONE |}, w') /\
     forall ty', ty' <> TrackedMetalBuffer.NONE ->
       exists n,
         TrackedMetalBuffer.getAliveBuffersOf ty' w = Ok (n, w) /\
         TrackedMetalBuffer.getAliveBuffersOf ty' w' =
           Ok (wrap (n - indicator (TrackedMetalBuffer.to_bool old
                                    && type_eqb (TrackedMetalBuffer.mType old) ty')), w')).
Proof.
  intros Hty Hwo Hlen Hu64.
  assert (Hold : {| TrackedMetalBuffer.mBuffer := TrackedMetalBuffer.mBuffer old;
                    TrackedMetalBuffer.mType := TrackedMetalBuffer.mType old |} = old)
    by (destruct old; reflexivity).
  split.
  - destruct (ctor_increments_once h ty w Hty Hlen) as (w1 & Hc & Hinc).
    assert (Hlen1 : length (aliveBuffers w1) = 3%nat)
      by (rewrite (ctor_keeps_length _ _ _ _ _ Hc); exact Hlen).
    destruct (dtor_decrements_iff_handle old w1 Hwo Hlen1) as (w2 & Hd & _ & Hdec).
    exists w2. split.
    + unfold TrackedMetalBuffer.assign_temporary, TrackedMetalBuffer.swap.
      unfold mbind, M_bind, mret, M_ret. rewrite Hc. cbv beta iota.
      rewrite Hold, Hd. reflexivity.
    + intros ty' Hty'. destruct (Hinc ty' Hty') as (n & Hn & Hn1).
      destruct (Hdec ty' Hty') as (m & Hm & Hm2).
      rewrite Hn1 in Hm. injection Hm as <-.
      exists n. split; [exact Hn|]. rewrite Hm2. do 2 f_equal.
      assert (Hnu : u64 n).
      { destruct (toIndex_not_NONE ty' Hty') as (_ & i & Hi & _).
        rewrite (getAliveBuffersOf_lookup ty' w i Hi) in Hn. injection Hn as <-.
        apply alive_entry_u64. exact Hu64. }
      destruct (type_eqb ty ty'),
        (TrackedMetalBuffer.to_bool old && type_eqb (TrackedMetalBuffer.mType old) ty');
        cbn [indicator].
      * rewrite wrap_sub_l. reflexivity.
      * f_equal. lia.
      * f_equal. lia.
      * rewrite Z.add_0_r, Z.sub_0_r. symmetry. apply wrap_small. exact Hnu.
  - destruct (dtor_decrements_iff_handle old w Hwo Hlen) as (w2 & Hd & _ & Hdec).
    exists w2. split.
    + unfold TrackedMetalBuffer.assign_temporary, TrackedMetalBuffer.swap,
        TrackedMetalBuffer.ctor_nullptr.
      unfold mbind, M_bind, mret, M_ret. cbv beta iota.
      cbn [TrackedMetalBuffer.mBuffer TrackedMetalBuffer.mType]. rewrite Hold, Hd. reflexivity.
    + intros ty' Hty'. destruct (Hdec ty' Hty') as (m & Hm & Hm2).
      exists m. split; [exact Hm|]. rewrite Hm2. do 2 f_equal.
      assert (Hmu : u64 m).
      { destruct (toIndex_not_NONE ty' Hty') as (_ & i & Hi & _).
        rewrite (getAliveBuffersOf_lookup ty' w i Hi) in Hm. injection Hm as <-.
        apply alive_entry_u64. exact Hu64. }
      destruct (TrackedMetalBuffer.to_bool old && type_eqb (TrackedMetalBuffer.mType old) ty');
        cbn [indicator]; [reflexivity|].
      rewrite Z.sub_0_r. symmetry. apply wrap_small. exact Hmu.
Qed.

Lemma assignment_nets_counters_witness :
  exists w',
    TrackedMetalBuffer.assign_temporary
      {| TrackedMetalBuffer.mBuffer := Some 1%positive;
         TrackedMetalBuffer.mType := TrackedMetalBuffer.RING |}
      (TrackedMetalBuffer.ctor (Some 2%positive) TrackedMetalBuffer.RING)
      {| aliveBuffers := [0; 1; 0]; platform := None; stats := [];
         device := {| dev_next := 3%positive; dev_outcomes := [] |};
         counters := []; handlers := [] |} =
      Ok ({| TrackedMetalBuffer.mBuffer := Some 2%positive;
             TrackedMetalBuffer.mType := TrackedMetalBuffer.RING |}, w') /\
    aliveBuffers w' = [0; 1; 0].
Proof.
  destruct (assignment_nets_counters
              {| TrackedMetalBuffer.mBuffer := Some 1%positive;
                 TrackedMetalBuffer.mType := TrackedMetalBuffer.RING |}
              2%positive TrackedMetalBuffer.RING
              {| aliveBuffers := [0; 1; 0]; platform := None; stats := [];
                 device := {| dev_next := 3%positive; dev_outcomes := [] |};
                 counters := []; handlers := [] |})
    as [(w' & Ha & _) _].
  - discriminate.
  - intros _. discriminate.
  - reflexivity.
  - repeat constructor; unfold u64; lia.
  - exists w'. split; [exact Ha|]. vm_compute in Ha. injection Ha as <-. reflexivity.
Defined.

(** A step reports nothing when no sink is registered or when the objects
    it leaves alive are fewer than the threshold. *)
Lemma tracker_step_quiet op st w st' w' :
  tracker_inv st w ->
  match op with
  | New _ ty => ty <> TrackedMetalBuffer.NONE
  | _ => True
  end ->
  has_sink w = false \/ Z.of_nat (length (fst st)) + 1 < 30000 ->
  tracker_step op st w = Ok (st', w') ->
  stats w' = stats w /\ platform w' = platform w /\
  (length (fst st') <= length (fst st) + 1)%nat.
Proof.
  intros Hinv Hop Hq Hstep.
  destruct (tracker_step_inv op st w Hinv Hop) as (st2 & w2 & Hstep2 & Hinv2).
  rewrite Hstep in Hstep2. injection Hstep2 as <- <-.
  destruct st as [objs log]. cbn [fst] in *.
  destruct op as [[h|] ty| |i|dst src]; cbn [tracker_step] in Hstep.
  - destruct (toIndex_not_NONE ty Hop) as (_ & i & Hi & _).
    unfold mbind, M_bind, mret, M_ret in Hstep.
    rewrite (ctor_handle h ty w i Hi) in Hstep. cbv zeta in Hstep.
    injection Hstep as <- Hw. cbn [fst]. rewrite length_app. cbn [length].
    split; [|split; [|lia]].
    + set (w1 := set_aliveBuffers (alter (fun v => wrap (v + 1)) i) w) in *.
      assert (Hcond : (TrackedMetalBuffer.EXCESS_BUFFER_COUNT <=? total_alive w1)
                      && has_sink w1 = false).
      { destruct Hq as [Hns|Hfew].
        - change (has_sink w1) with (has_sink w). rewrite Hns. apply andb_false_r.
        - apply andb_false_iff. left. apply Z.leb_gt.
          assert (Htot : total_alive w1 = total_alive w').
          { rewrite <- Hw. destruct (_ && _); reflexivity. }
          rewrite Htot, (total_of_inv _ _ Hinv2). cbn [fst].
          pose proof (holders_le_length (objs ++ [ {| TrackedMetalBuffer.mBuffer := Some h;
                                                       TrackedMetalBuffer.mType := ty |} ])) as Hh.
          rewrite length_app in Hh. cbn [length] in Hh.
          unfold TrackedMetalBuffer.EXCESS_BUFFER_COUNT.
          rewrite wrap_small by (unfold u64; lia). lia. }
      rewrite Hcond in Hw. rewrite <- Hw. reflexivity.
    + rewrite <- Hw. destruct (_ && _); reflexivity.
  - unfold mbind, M_bind, mret, M_ret in Hstep. rewrite (ctor_nil ty w Hop) in Hstep.
    injection Hstep as <- <-. cbn [fst]. rewrite length_app. cbn [length].
    split; [reflexivity|]. split; [reflexivity|lia].
  - injection Hstep as <- <-. cbn [fst]. rewrite length_app. cbn [length].
    split; [reflexivity|]. split; [reflexivity|lia].
  - destruct (objs !! i) as [o|] eqn:Ho.
    + unfold mbind, M_bind, mret, M_ret in Hstep.
      destruct (TrackedMetalBuffer.dtor o w) as [[[] w1]|e] eqn:Hd; [|discriminate].
      injection Hstep as <- <-. destruct (dtor_keeps _ _ _ Hd) as (_ & _ & _ & Hs & Hp).
      cbn [fst]. rewrite length_delete by (rewrite Ho; eauto).
      split; [exact Hs|]. split; [exact Hp|lia].
    + injection Hstep as <- <-. cbn [fst]. split; [reflexivity|]. split; [reflexivity|lia].
  - destruct (objs !! dst) as [a|]; [destruct (objs !! src) as [b|]|];
      cbn in Hstep; injection Hstep as <- <-; cbn [fst]; rewrite ?length_insert;
      (split; [reflexivity|]; split; [reflexivity|lia]).
Qed.

Lemma tracker_run_quiet ops : forall st w st' w',
  tracker_inv st w -> typed_ops ops ->
  has_sink w = false \/ Z.of_nat (length (fst st)) + Z.of_nat (length ops) < 30000 ->
  tracker_run ops st w = Ok (st', w') ->
  stats w' = stats w.
Proof.
  induction ops as [|op rest IH]; intros st w st' w' Hinv Hops Hq Hrun;
    cbn [tracker_run] in Hrun.
  - injection Hrun as _ <-. reflexivity.
  - apply Forall_cons_1 in Hops as [Hop Hrest].
    unfold mbind, M_bind in Hrun.
    destruct (tracker_step op st w) as [[st1 w1]|e] eqn:Hstep; [|discriminate].
    destruct (tracker_step_inv op st w Hinv Hop) as (st2 & w2 & Hstep2 & Hinv1).
    rewrite Hstep in Hstep2. injection Hstep2 as <- <-.
    cbn [length] in Hq. rewrite Nat2Z.inj_succ in Hq.
    destruct (tracker_step_quiet op st w st1 w1 Hinv Hop ltac:(lia || (destruct Hq; [left; assumption | right; lia])) Hstep)
      as (Hs & Hp & Hl).
    rewrite <- Hs. apply (IH st1 w1 st' w' Hinv1 Hrest); [|exact Hrun].
    destruct Hq as [Hns|Hfew].
    + left. unfold has_sink in *. rewrite Hp. exact Hns.
    + right. lia.
Qed.

(** X11: no construction reports the excess-allocation event while fewer
    than 30000 tracked buffers have been constructed since process start,
    or while no sink with a stat function is registered: the sink receives
    nothing along such a run. *)
Theorem no_report_below_threshold ops w :
  fresh_tracker w -> typed_ops ops ->
  has_sink w = false \/ Z.of_nat (length ops) < 30000 ->
  exists objs log w',
    tracker_run ops ([], []) w = Ok ((objs, log), w') /\ stats w' = stats w.
Proof.
  intros Hfresh Hops Hq.
  assert (Hinv0 : tracker_inv ([], []) w).
  { split; [exact Hfresh|]. split; [constructor|]. intros ty _. reflexivity. }
  destruct (tracker_run_inv ops ([], []) w Hinv0 Hops) as ([objs log] & w' & Hrun & _).
  exists objs, log, w'. split; [exact Hrun|].
  apply (tracker_run_quiet ops ([], []) w (objs, log) w' Hinv0 Hops); [|exact Hrun].
  cbn. destruct Hq; [left; assumption | right; lia].
Qed.

Lemma no_report_below_threshold_witness :
  exists objs log w',
    tracker_run
      [New (Some 1%positive) TrackedMetalBuffer.RING;
       New (Some 2%positive) TrackedMetalBuffer.GENERIC]
      ([], [])
      {| aliveBuffers := [0; 0; 0];
         platform := Some {| hasDebugUpdateStatFunc := true |}; stats := [];
         device := {| dev_next := 3%positive; dev_outcomes := [] |};
         counters := []; handlers := [] |} = Ok ((objs, log), w') /\
    stats w' = [].
Proof.
  apply (no_report_below_threshold
           [New (Some 1%positive) TrackedMetalBuffer.RING;
            New (Some 2%positive) TrackedMetalBuffer.GENERIC]
           {| aliveBuffers := [0; 0; 0];
              platform := Some {| hasDebugUpdateStatFunc := true |}; stats := [];
              device := {| dev_next := 3%positive; dev_outcomes := [] |};
              counters := []; handlers := [] |}).
  - reflexivity.
  - repeat constructor; discriminate.
  - right. cbn. lia.
Defined.

(** * Beyond the claims: the ring buffer *)

(** X12: after any [createNewAllocation] that returns, [getCurrentAllocation]
    gives the allocation that call returned, on the overflow path as on the
    slot path. *)
Theorem current_allocation_is_last_returned r c w a r' w' :
  MetalRingBuffer.createNewAllocation r c w = Ok ((a, r'), w') ->
  MetalRingBuffer.getCurrentAllocation r' = a.
Proof.
  unfold MetalRingBuffer.createNewAllocation.
  unfold mbind at 1 2. unfold M_bind at 1 2.
  destruct (load (MetalRingBuffer.mOccupiedSlots r) w) as [[occ w0]|e]; [|discriminate].
  destruct (assert_invariant (occ <=? MetalRingBuffer.mSlotCount r) w0) as [[[] w1]|e];
    [|discriminate].
  destruct (occ =? MetalRingBuffer.mSlotCount r).
  - unfold mbind at 1. unfold M_bind at 1.
    destruct (TrackedMetalBuffer.assign_temporary _ _ w1) as [[aux w2]|e]; [|discriminate].
    unfold mbind, M_bind, assert_invariant, mret, M_ret.
    cbn [MetalRingBuffer.mAuxBuffer MetalRingBuffer.set_mAuxBuffer].
    destruct (TrackedMetalBuffer.to_bool aux) eqn:Haux; [|discriminate].
    intros [= <- <- _]. unfold MetalRingBuffer.getCurrentAllocation.
    cbn [MetalRingBuffer.mAuxBuffer MetalRingBuffer.set_mAuxBuffer]. rewrite Haux. reflexivity.
  - unfold mbind at 1. unfold M_bind at 1.
    destruct (fetch_add _ 1 w1) as [[old w2]|e]; [|discriminate].
    unfold mbind at 1. unfold M_bind at 1.
    match goal with
    | |- match ?m w2 with _ => _ end = _ -> _ => destruct (m w2) as [[r2 w3]|e]; [|discriminate]
    end.
    unfold mret, M_ret. intros [= <- <- _]. reflexivity.
Qed.

Lemma current_allocation_is_last_returned_witness :
  exists a r' w',
    MetalRingBuffer.createNewAllocation
      {| MetalRingBuffer.mDevice := tt;
         MetalRingBuffer.mBuffer :=
           {| TrackedMetalBuffer.mBuffer := Some 1%positive;
              TrackedMetalBuffer.mType := TrackedMetalBuffer.RING |};
         MetalRingBuffer.mAuxBuffer :=
           {| TrackedMetalBuffer.mBuffer := None;
              TrackedMetalBuffer.mType := TrackedMetalBuffer.NONE |};
         MetalRingBuffer.mBufferOptions := 0;
         MetalRingBuffer.mSlotSizeBytes := 64;
         MetalRingBuffer.mSlotCount := 1;
         MetalRingBuffer.mCurrentSlot := 0;
         MetalRingBuffer.mOccupiedSlots := 0%nat |}
      5%positive
      {| aliveBuffers := [0; 1; 0]; platform := None; stats := [];
         device := {| dev_next := 2%positive; dev_outcomes := [] |};
         counters := [Some 1]; handlers := [] |} = Ok ((a, r'), w') /\
    MetalRingBuffer.getCurrentAllocation r' = a.
Proof.
  eexists. eexists. eexists.
  assert (Hstep :
    MetalRingBuffer.createNewAllocation
      {| MetalRingBuffer.mDevice := tt;
         MetalRingBuffer.mBuffer :=
           {| TrackedMetalBuffer.mBuffer := Some 1%positive;
              TrackedMetalBuffer.mType := TrackedMetalBuffer.RING |};
         MetalRingBuffer.mAuxBuffer :=
           {| TrackedMetalBuffer.mBuffer := None;
              TrackedMetalBuffer.mType := TrackedMetalBuffer.NONE |};
         MetalRingBuffer.mBufferOptions := 0;
         MetalRingBuffer.mSlotSizeBytes := 64;
         MetalRingBuffer.mSlotCount := 1;
         MetalRingBuffer.mCurrentSlot := 0;
         MetalRingBuffer.mOccupiedSlots := 0%nat |}
      5%positive
      {| aliveBuffers := [0; 1; 0]; platform := None; stats := [];
         device := {| dev_next := 2%positive; dev_outcomes := [] |};
         counters := [Some 1]; handlers := [] |} = Ok _) by (vm_compute; reflexivity).
  split; [exact Hstep|].
  exact (current_allocation_is_last_returned _ _ _ _ _ _ Hstep).
Defined.

Lemma next_slot_range r :
  0 < MetalRingBuffer.mSlotCount r -> 0 <= next_slot r < MetalRingBuffer.mSlotCount r.
Proof. intros H. unfold next_slot. apply Z.mod_pos_bound. exact H. Qed.

(** One call from a state within the frame: the state stays within it, and
    the call returns either a slot of the main buffer or offset 0 of the
    auxiliary buffer it has just created. *)
Lemma allocate_frame r0 r w c a r1 w1 :
  1 <= MetalRingBuffer.mSlotCount r0 < 2 ^ 64 ->
  ring_inv (MetalRingBuffer.mSlotCount r0) r w -> ring_frame r0 r w ->
  MetalRingBuffer.createNewAllocation r c w = Ok ((a, r1), w1) ->
  ring_frame r0 r1 w1 /\
  (a = (TrackedMetalBuffer.get (MetalRingBuffer.mBuffer r0),
        wrap (MetalRingBuffer.mCurrentSlot r1 * MetalRingBuffer.mSlotSizeBytes r0)) /\
   TrackedMetalBuffer.to_bool (MetalRingBuffer.mAuxBuffer r1) = false /\
   device w1 = device w \/
   a = (Some (dev_next (device w)), 0) /\
   Some (dev_next (device w)) <> TrackedMetalBuffer.get (MetalRingBuffer.mBuffer r0) /\
   TrackedMetalBuffer.get (MetalRingBuffer.mAuxBuffer r1) = Some (dev_next (device w)) /\
   MetalRingBuffer.mCurrentSlot r1 = MetalRingBuffer.mCurrentSlot r /\
   in_flight r w = Some (MetalRingBuffer.mSlotCount r0)).
Proof.
  intros HN (Hcount & Hwt & v & Hcell & Hv) (Hb & Hs & Hc & Hp & Hcur & h & Hmain & Hh & Haux)
    Hstep.
  destruct (Z.eq_dec v (MetalRingBuffer.mSlotCount r0)) as [HvN|HvN].
  - (* the ring is full *)
    destruct (newBuffer_cases (MetalRingBuffer.mSlotSizeBytes r)
                (MetalRingBuffer.mBufferOptions r) w) as [(rest & Hout & _)|[_ Hhd]].
    { exfalso.
      apply (createNewAllocation_overflow_failed r w v Hcell c rest ltac:(lia) Hout
               (a, r1, w1)).
      exact Hstep. }
    destruct (createNewAllocation_overflow r w v Hcell c ltac:(lia) Hwt Hhd)
      as (w2 & Hstep2 & Hd & _ & _).
    rewrite Hstep2 in Hstep. injection Hstep as <- <- <-.
    split.
    + split; [exact Hb|]. split; [exact Hs|]. split; [exact Hc|]. split; [exact Hp|].
      split; [exact Hcur|]. exists h. split; [exact Hmain|]. rewrite Hd. cbn [dev_next].
      split; [lia|]. right. exists (dev_next (device w)).
      split; [reflexivity|]. split; lia.
    + right. split; [reflexivity|]. rewrite Hmain. cbn.
      split; [intros [= E]; lia|]. split; [reflexivity|]. split; [reflexivity|].
      unfold in_flight. rewrite Hcell, HvN. reflexivity.
  - (* a slot is free *)
    pose proof (next_slot_range r ltac:(lia)) as Hnext.
    destruct Haux as [Haux|(x & Haux & Hxh & Hx)].
    + pose proof (createNewAllocation_slot r w v Hcell c ltac:(lia)) as Hstep2.
      rewrite Haux in Hstep2. specialize (Hstep2 eq_refl).
      rewrite Hstep2 in Hstep. injection Hstep as <- <- <-.
      split.
      * split; [exact Hb|]. split; [exact Hs|]. split; [exact Hc|]. split; [exact Hp|].
        split; [exact Hnext|]. exists h. split; [exact Hmain|]. split; [exact Hh|].
        left. exact Haux.
      * left. cbn [MetalRingBuffer.mCurrentSlot MetalRingBuffer.set_mCurrentSlot
                   MetalRingBuffer.mAuxBuffer].
        rewrite Hb, Hs, Haux. auto.
    + pose proof (createNewAllocation_slot_after_aux r w v Hcell c x
                    TrackedMetalBuffer.RING 1%nat ltac:(lia) Haux eq_refl) as Hstep2.
      rewrite Hstep2 in Hstep. injection Hstep as <- <- <-.
      split.
      * split; [exact Hb|]. split; [exact Hs|]. split; [exact Hc|]. split; [exact Hp|].
        split; [exact Hnext|]. exists h. split; [exact Hmain|]. split; [exact Hh|].
        left. reflexivity.
      * left. cbn [MetalRingBuffer.mCurrentSlot MetalRingBuffer.set_mCurrentSlot
                   MetalRingBuffer.set_mAuxBuffer MetalRingBuffer.mAuxBuffer].
        rewrite Hb, Hs. auto.
Qed.

Lemma ring_step_frame r0 ev r w r' w' :
  1 <= MetalRingBuffer.mSlotCount r0 < 2 ^ 64 ->
  ring_inv (MetalRingBuffer.mSlotCount r0) r w -> ring_frame r0 r w ->
  ring_step ev r w = Ok (r', w') -> ring_frame r0 r' w'.
Proof.
  intros HN Hinv Hframe. destruct ev as [c|c]; cbn [ring_step];
    unfold mbind, M_bind, mret, M_ret.
  - destruct (MetalRingBuffer.createNewAllocation r c w) as [[[a r1] w1]|e] eqn:Hstep;
      [|discriminate].
    intros [= <- <-]. apply (allocate_frame r0 r w c a r1 w1 HN Hinv Hframe Hstep).
  - destruct Hinv as (_ & _ & v & Hcell & Hv).
    destruct (complete_cell (MetalRingBuffer.mOccupiedSlots r) c w v Hcell ltac:(lia))
      as (w1 & Hstep & _ & _ & Hd).
    rewrite Hstep. intros [= <- <-].
    destruct Hframe as (Hb & Hs & Hc & Hp & Hcur & h & Hmain & Hh & Haux).
    split; [exact Hb|]. split; [exact Hs|]. split; [exact Hc|]. split; [exact Hp|].
    split; [exact Hcur|]. exists h. rewrite Hd. auto.
Qed.

Lemma ring_run_frame r0 evs : forall r w r' w',
  1 <= MetalRingBuffer.mSlotCount r0 < 2 ^ 64 ->
  ring_inv (MetalRingBuffer.mSlotCount r0) r w -> ring_frame r0 r w ->
  ring_run evs r w = Ok (r', w') ->
  ring_inv (MetalRingBuffer.mSlotCount r0) r' w' /\ ring_frame r0 r' w'.
Proof.
  induction evs as [|ev rest IH]; intros r w r' w' HN Hinv Hframe; cbn [ring_run].
  - intros [= <- <-]. auto.
  - unfold mbind, M_bind.
    destruct (ring_step ev r w) as [[r1 w1]|e] eqn:Hstep; [|discriminate].
    intros Hrun.
    destruct (ring_step_inv _ ev r w HN Hinv) as [Hsafe _].
    destruct (Hsafe r1 w1 Hstep) as (Hinv1 & _ & _).
    pose proof (ring_step_frame r0 ev r w r1 w1 HN Hinv Hframe Hstep) as Hframe1.
    exact (IH r1 w1 r' w' HN Hinv1 Hframe1 Hrun).
Qed.

Lemma ctor_establishes_frame target opts layout N w r0 w0 :
  MetalRingBuffer.ctor target tt opts layout N w = Ok (r0, w0) ->
  1 <= N ->
  MetalRingBuffer.mSlotCount r0 = N /\ 0 <= MetalRingBuffer.mSlotSizeBytes r0 /\
  ring_frame r0 r0 w0.
Proof.
  intros Hctor HN.
  destruct (ctor_success _ _ _ _ _ _ _ Hctor) as (s & Hs & -> & Hdev & _).
  pose proof (computeSlotSize_u64 _ _ _ Hs) as [Hs0 _].
  split; [reflexivity|]. split; [exact Hs0|].
  unfold ring_frame. cbn. repeat (split; [reflexivity || lia|]).
  exists (dev_next (device w)). split; [reflexivity|]. rewrite Hdev. cbn.
  split; [lia|]. left. reflexivity.
Qed.

(** X13: along every run of a ring buffer with [N >= 1] slots, each
    [createNewAllocation] returns either the main buffer at an offset
    [k * slotSize] with [0 <= k < N], so that the slot ends within the
    [N * slotSize] bytes of the main buffer, or offset 0 of an auxiliary
    buffer other than the main buffer. *)
Theorem allocations_stay_in_bounds target opts layout N w r0 w0 evs r w' c a r1 w1 :
  MetalRingBuffer.ctor target tt opts layout N w = Ok (r0, w0) ->
  1 <= N < 2 ^ 64 ->
  N * MetalRingBuffer.mSlotSizeBytes r0 < 2 ^ 64 ->
  handlers_bound w ->
  ring_run evs r0 w0 = Ok (r, w') ->
  MetalRingBuffer.createNewAllocation r c w' = Ok ((a, r1), w1) ->
  (exists k,
     0 <= k < N /\
     a = (TrackedMetalBuffer.get (MetalRingBuffer.mBuffer r0),
          k * MetalRingBuffer.mSlotSizeBytes r0) /\
     snd a + MetalRingBuffer.mSlotSizeBytes r0 <= N * MetalRingBuffer.mSlotSizeBytes r0) \/
  (exists h,
     a = (Some h, 0) /\
     Some h <> TrackedMetalBuffer.get (MetalRingBuffer.mBuffer r0) /\
     TrackedMetalBuffer.get (MetalRingBuffer.mAuxBuffer r1) = Some h).
Proof.
  intros Hctor HN Hfit Hb Hrun Hstep.
  destruct (ctor_establishes_inv _ _ _ _ _ _ _ Hctor ltac:(lia) Hb) as [Hinv0 _].
  destruct (ctor_establishes_frame _ _ _ _ _ _ _ Hctor ltac:(lia)) as (HcN & Hs0 & Hframe0).
  rewrite <- HcN in Hinv0, HN.
  destruct (ring_run_frame r0 evs r0 w0 r w' HN Hinv0 Hframe0 Hrun) as [Hinv Hframe].
  destruct (allocate_frame r0 r w' c a r1 w1 HN Hinv Hframe Hstep)
    as [Hframe1 [(Ha & _ & _)|(Ha & Hne & Haux & _)]].
  - left. destruct Hframe1 as (_ & _ & Hc1 & _ & Hcur1 & _).
    exists (MetalRingBuffer.mCurrentSlot r1). rewrite Hc1, HcN in Hcur1.
    split; [exact Hcur1|].
    assert (Hw : wrap (MetalRingBuffer.mCurrentSlot r1 * MetalRingBuffer.mSlotSizeBytes r0) =
                 MetalRingBuffer.mCurrentSlot r1 * MetalRingBuffer.mSlotSizeBytes r0).
    { apply wrap_small. unfold u64. nia. }
    rewrite Hw in Ha. split; [exact Ha|]. rewrite Ha. cbn [snd]. nia.
  - right. exists (dev_next (device w')). auto.
Qed.

Lemma allocations_stay_in_bounds_witness :
  exists r0 w0 r w' a r1 w1,
    MetalRingBuffer.ctor OTHER tt 0 {| MTL.size := 40; MTL.align := 8 |} 3
      {| aliveBuffers := [0; 0; 0]; platform := None; stats := [];
         device := {| dev_next := 1%positive; dev_outcomes := [] |};
         counters := []; handlers := [] |} = Ok (r0, w0) /\
    ring_run [Allocate 5%positive; Completed 5%positive; Allocate 6%positive] r0 w0
      = Ok (r, w') /\
    MetalRingBuffer.createNewAllocation r 7%positive w' = Ok ((a, r1), w1) /\
    ((exists k,
        0 <= k < 3 /\
        a = (TrackedMetalBuffer.get (MetalRingBuffer.mBuffer r0),
             k * MetalRingBuffer.mSlotSizeBytes r0) /\
        snd a + MetalRingBuffer.mSlotSizeBytes r0 <= 3 * MetalRingBuffer.mSlotSizeBytes r0) \/
     (exists h,
        a = (Some h, 0) /\
        Some h <> TrackedMetalBuffer.get (MetalRingBuffer.mBuffer r0) /\
        TrackedMetalBuffer.get (MetalRingBuffer.mAuxBuffer r1) = Some h)).
Proof.
  assert (Hctor :
    MetalRingBuffer.ctor OTHER tt 0 {| MTL.size := 40; MTL.align := 8 |} 3
      {| aliveBuffers := [0; 0; 0]; platform := None; stats := [];
         device := {| dev_next := 1%positive; dev_outcomes := [] |};
         counters := []; handlers := [] |} = Ok _) by (vm_compute; reflexivity).
  match type of Hctor with
  | _ = Ok (?r0, ?w0) =>
      assert (Hrun :
        ring_run [Allocate 5%positive; Completed 5%positive; Allocate 6%positive] r0 w0
          = Ok _) by (vm_compute; reflexivity)
  end.
  match type of Hrun with
  | _ = Ok (?r, ?w') =>
      assert (Hstep : MetalRingBuffer.createNewAllocation r 7%positive w' = Ok _)
        by (vm_compute; reflexivity)
  end.
  do 7 eexists.
  split; [exact Hctor|]. split; [exact Hrun|]. split; [exact Hstep|].
  apply (allocations_stay_in_bounds _ _ _ _ _ _ _ _ _ _ _ _ _ _ Hctor
           ltac:(lia) ltac:(cbn; lia) ltac:(constructor) Hrun Hstep).
Defined.

Lemma round_robin_offsets_cons s N first n :
  round_robin_offsets s N first (S n) =
  s * (first mod N) :: round_robin_offsets s N (first mod N + 1) n.
Proof.
  unfold round_robin_offsets. rewrite <- cons_seq, <- seq_shift. cbn [map].
  rewrite Z.add_0_r. f_equal. rewrite map_map. apply map_ext.
  intros i. f_equal. rewrite Nat2Z.inj_succ.
  replace (first mod N + 1 + Z.of_nat i) with (first mod N + (1 + Z.of_nat i)) by ring.
  rewrite Zplus_mod_idemp_l. f_equal. lia.
Qed.

Lemma pending_single p c f w :
  pending p w = [] ->
  pending p (set_handlers (fun l => l ++ [(c, {| slots := p |})]) (set_counters f w)) =
    [(c, {| slots := p |})].
Proof.
  unfold pending. cbn [handlers set_handlers set_counters]. intros H.
  rewrite List.filter_app, H. cbn [List.filter snd slots]. rewrite Nat.eqb_refl. reflexivity.
Qed.

(** Calls paced by completions take the slots in turn and never fill the
    ring. *)
Lemma paced_round_robin cs : forall r w k,
  counters w !! MetalRingBuffer.mOccupiedSlots r = Some (Some 1) ->
  pending (MetalRingBuffer.mOccupiedSlots r) w = [] ->
  MetalRingBuffer.mCurrentSlot r = k ->
  0 <= k < MetalRingBuffer.mSlotCount r ->
  2 <= MetalRingBuffer.mSlotCount r < 2 ^ 64 ->
  TrackedMetalBuffer.to_bool (MetalRingBuffer.mAuxBuffer r) = false ->
  exists w',
    paced_allocations r cs w =
      Ok ((map (fun o => (TrackedMetalBuffer.get (MetalRingBuffer.mBuffer r), wrap o))
             (round_robin_offsets (MetalRingBuffer.mSlotSizeBytes r)
                (MetalRingBuffer.mSlotCount r) (k + 1) (length cs)),
           MetalRingBuffer.set_mCurrentSlot
             ((k + Z.of_nat (length cs)) mod MetalRingBuffer.mSlotCount r) r), w') /\
    counters w' !! MetalRingBuffer.mOccupiedSlots r = Some (Some 1) /\
    pending (MetalRingBuffer.mOccupiedSlots r) w' = [] /\
    device w' = device w.
Proof.
  induction cs as [|c rest IH]; intros r w k Hcell Hpend Hcur Hk HN Haux.
  - exists w. cbn [paced_allocations length round_robin_offsets seq map].
    rewrite Z.add_0_r, Z.mod_small by lia. rewrite <- Hcur, set_mCurrentSlot_same. auto.
  - assert (Hnext : next_slot r = (k + 1) mod MetalRingBuffer.mSlotCount r).
    { unfold next_slot. rewrite Hcur, wrap_small by (unfold u64; lia). reflexivity. }
    pose proof (Z.mod_pos_bound (k + 1) (MetalRingBuffer.mSlotCount r) ltac:(lia)) as Hrange.
    pose proof (createNewAllocation_slot r w 1 Hcell c ltac:(lia) Haux) as Hstep.
    rewrite Hnext in Hstep.
    set (k1 := (k + 1) mod MetalRingBuffer.mSlotCount r) in *.
    set (r1 := MetalRingBuffer.set_mCurrentSlot k1 r) in *.
    set (w1 := set_handlers _ (set_counters _ w)) in *.
    assert (Hbound : (MetalRingBuffer.mOccupiedSlots r < length (counters w))%nat)
      by (eapply lookup_lt_Some; exact Hcell).
    assert (Hcell1 : counters w1 !! MetalRingBuffer.mOccupiedSlots r = Some (Some 2)).
    { subst w1. cbn. apply list_lookup_insert_eq. exact Hbound. }
    assert (Hpend1 : pending (MetalRingBuffer.mOccupiedSlots r) w1 =
                     [(c, {| slots := MetalRingBuffer.mOccupiedSlots r |})]).
    { subst w1. apply pending_single. exact Hpend. }
    destruct (complete_cell (MetalRingBuffer.mOccupiedSlots r) c w1 2 Hcell1)
      as (w2 & Hcomp & Hcell2 & Hpend2 & Hdev2).
    { rewrite Hpend1. cbn. lia. }
    rewrite Hpend1 in Hcell2, Hpend2. cbn [List.filter] in Hcell2, Hpend2.
    unfold on_buffer in Hcell2, Hpend2. cbn [fst] in Hcell2, Hpend2.
    rewrite Pos.eqb_refl in Hcell2, Hpend2. cbn [length] in Hcell2, Hpend2.
    assert (Hpend2' : pending (MetalRingBuffer.mOccupiedSlots r) w2 = []).
    { apply length_zero_iff_nil. lia. }
    destruct (IH r1 w2 k1) as (w' & Hrun & Hcell' & Hpend' & Hdev').
    { exact Hcell2. } { exact Hpend2'. } { reflexivity. } { exact Hrange. }
    { exact HN. } { exact Haux. }
    exists w'. split; [|split; [exact Hcell'|split; [exact Hpend'|]]].
    + cbn [paced_allocations]. unfold mbind, M_bind. rewrite Hstep, Hcomp.
      fold (@mbind M M_bind). unfold mbind, M_bind. rewrite Hrun. unfold mret, M_ret.
      cbn [length]. rewrite round_robin_offsets_cons. cbn [map].
      change (MetalRingBuffer.mBuffer r1) with (MetalRingBuffer.mBuffer r).
      change (MetalRingBuffer.mSlotSizeBytes r1) with (MetalRingBuffer.mSlotSizeBytes r).
      change (MetalRingBuffer.mSlotCount r1) with (MetalRingBuffer.mSlotCount r).
      subst r1. rewrite set_mCurrentSlot_twice. fold k1.
      replace (wrap (k1 * MetalRingBuffer.mSlotSizeBytes r))
        with (wrap (MetalRingBuffer.mSlotSizeBytes r * k1)) by (f_equal; lia).
      replace ((k1 + Z.of_nat (length rest)) mod MetalRingBuffer.mSlotCount r)
        with ((k + Z.of_nat (S (length rest))) mod MetalRingBuffer.mSlotCount r).
      * reflexivity.
      * subst k1. rewrite Zplus_mod_idemp_l. f_equal. lia.
    + rewrite Hdev', Hdev2. reflexivity.
Qed.

(** X14: when every command buffer completes before the next call, a ring
    buffer with [N >= 2] slots never overflows: the calls return the main
    buffer's slots 1, 2, ..., N-1, 0, 1, ... in turn, the in-flight count is
    back at 1 after each completion, and the device is never asked for an
    auxiliary buffer. *)
Theorem paced_allocations_cycle target opts layout N w r0 w0 cs :
  MetalRingBuffer.ctor target tt opts layout N w = Ok (r0, w0) ->
  2 <= N < 2 ^ 64 ->
  N * MetalRingBuffer.mSlotSizeBytes r0 < 2 ^ 64 ->
  handlers_bound w ->
  exists r w',
    paced_allocations r0 cs w0 =
      Ok ((map (fun o => (TrackedMetalBuffer.get (MetalRingBuffer.mBuffer r0), o))
             (round_robin_offsets (MetalRingBuffer.mSlotSizeBytes r0) N 1 (length cs)),
           r), w') /\
    in_flight r w' = Some 1 /\
    TrackedMetalBuffer.to_bool (MetalRingBuffer.mAuxBuffer r) = false /\
    device w' = device w0.
Proof.
  intros Hctor HN Hfit Hb.
  destruct (ctor_establishes_inv _ _ _ _ _ _ _ Hctor ltac:(lia) Hb)
    as [(_ & _ & v & Hcell & Hv) Hfl].
  unfold in_flight in Hfl. rewrite Hcell in Hfl. injection Hfl as ->.
  assert (Hpend : pending (MetalRingBuffer.mOccupiedSlots r0) w0 = []).
  { apply length_zero_iff_nil. lia. }
  destruct (ctor_success _ _ _ _ _ _ _ Hctor) as (s & Hs & Hr0 & _).
  pose proof (computeSlotSize_u64 _ _ _ Hs) as [Hs0 _].
  assert (HsN : MetalRingBuffer.mSlotCount r0 = N) by (rewrite Hr0; reflexivity).
  assert (Hss : MetalRingBuffer.mSlotSizeBytes r0 = s) by (rewrite Hr0; reflexivity).
  destruct (paced_round_robin cs r0 w0 0 Hcell Hpend) as (w' & Hrun & Hcell' & _ & Hdev).
  { rewrite Hr0. reflexivity. } { lia. } { lia. } { rewrite Hr0. reflexivity. }
  eexists. exists w'. split; [|split; [|split; [|exact Hdev]]].
  - rewrite Hrun, HsN. do 3 f_equal. apply map_ext_in. intros o Ho.
    unfold round_robin_offsets in Ho. apply in_map_iff in Ho as (j & <- & _).
    rewrite wrap_small; [reflexivity|]. rewrite Hss in Hfit |- *. unfold u64.
    match goal with
    | |- context [?x mod N] =>
        pose proof (Z.mod_pos_bound x N ltac:(lia)) as Hm; remember (x mod N) as m
    end.
    clear - Hm Hfit Hs0 HN.
    split; [nia|]. apply Z.le_lt_trans with (N * s); [nia | exact Hfit].
  - unfold in_flight.
    change (MetalRingBuffer.mOccupiedSlots (MetalRingBuffer.set_mCurrentSlot _ r0))
      with (MetalRingBuffer.mOccupiedSlots r0).
    rewrite Hcell'. reflexivity.
  - rewrite Hr0. reflexivity.
Qed.

Lemma paced_allocations_cycle_witness :
  exists r0 w0 r w',
    MetalRingBuffer.ctor OTHER tt 0 {| MTL.size := 40; MTL.align := 8 |} 2
      {| aliveBuffers := [0; 0; 0]; platform := None; stats := [];
         device := {| dev_next := 1%positive; dev_outcomes := [] |};
         counters := []; handlers := [] |} = Ok (r0, w0) /\
    paced_allocations r0 [5%positive; 6%positive; 7%positive] w0 =
      Ok ((map (fun o => (TrackedMetalBuffer.get (MetalRingBuffer.mBuffer r0), o))
             (round_robin_offsets (MetalRingBuffer.mSlotSizeBytes r0) 2 1 3), r), w') /\
    in_flight r w' = Some 1.
Proof.
  assert (Hctor :
    MetalRingBuffer.ctor OTHER tt 0 {| MTL.size := 40; MTL.align := 8 |} 2
      {| aliveBuffers := [0; 0; 0]; platform := None; stats := [];
         device := {| dev_next := 1%positive; dev_outcomes := [] |};
         counters := []; handlers := [] |} = Ok _) by (vm_compute; reflexivity).
  destruct (paced_allocations_cycle _ _ _ _ _ _ _ [5%positive; 6%positive; 7%positive] Hctor)
    as (r & w' & Hrun & Hfl & _); [lia | cbn; lia | constructor |].
  do 2 eexists. exists r, w'. split; [exact Hctor|]. split; [exact Hrun | exact Hfl].
Defined.

(** ** A full ring with nothing pending *)

Lemma saturated_allocate N r w c a r1 w1 :
  1 <= N < 2 ^ 64 -> ring_inv N r w -> saturated r w ->
  MetalRingBuffer.createNewAllocation r c w = Ok ((a, r1), w1) ->
  a = (Some (dev_next (device w)), 0) /\
  MetalRingBuffer.mCurrentSlot r1 = MetalRingBuffer.mCurrentSlot r /\
  MetalRingBuffer.mSlotCount r1 = MetalRingBuffer.mSlotCount r /\
  MetalRingBuffer.mOccupiedSlots r1 = MetalRingBuffer.mOccupiedSlots r /\
  counters w1 = counters w /\ handlers w1 = handlers w.
Proof.
  intros HN (Hcount & Hwt & v & Hcell & Hv) [Hfull _] Hstep.
  unfold in_flight in Hfull. rewrite Hcell in Hfull. injection Hfull as HvN.
  destruct (newBuffer_cases (MetalRingBuffer.mSlotSizeBytes r)
              (MetalRingBuffer.mBufferOptions r) w) as [(rest & Hout & _)|[_ Hhd]].
  { exfalso.
    apply (createNewAllocation_overflow_failed r w v Hcell c rest HvN Hout (a, r1, w1)).
    exact Hstep. }
  destruct (createNewAllocation_overflow r w v Hcell c HvN Hwt Hhd)
    as (w2 & Hstep2 & _ & Hc & Hh).
  rewrite Hstep2 in Hstep. injection Hstep as <- <- <-.
  repeat split; (reflexivity || assumption).
Qed.

Lemma saturated_step N ev r w r' w' :
  1 <= N < 2 ^ 64 -> ring_inv N r w -> saturated r w ->
  ring_step ev r w = Ok (r', w') -> saturated r' w'.
Proof.
  intros HN Hinv Hsat. destruct ev as [c|c]; cbn [ring_step];
    unfold mbind, M_bind, mret, M_ret.
  - destruct (MetalRingBuffer.createNewAllocation r c w) as [[[a r1] w1]|e] eqn:Hstep;
      [|discriminate].
    intros [= <- <-].
    destruct (saturated_allocate N r w c a r1 w1 HN Hinv Hsat Hstep)
      as (_ & _ & Hc & Hp & Hcnt & Hh).
    destruct Hsat as [Hfull Hpend]. unfold saturated, in_flight, pending in *.
    rewrite Hc, Hp, Hcnt, Hh. auto.
  - destruct Hinv as (_ & _ & v & Hcell & Hv). destruct Hsat as [Hfull Hpend].
    destruct (complete_cell (MetalRingBuffer.mOccupiedSlots r) c w v Hcell ltac:(lia))
      as (w1 & Hstep & Hcell1 & Hpend1 & _).
    rewrite Hstep. intros [= <- <-].
    rewrite Hpend in Hcell1, Hpend1. cbn in Hcell1, Hpend1. rewrite Z.sub_0_r in Hcell1.
    unfold in_flight in Hfull. rewrite Hcell in Hfull.
    split.
    + unfold in_flight. rewrite Hcell1. exact Hfull.
    + apply length_zero_iff_nil. lia.
Qed.

Lemma saturated_run N evs : forall r w r' w',
  1 <= N < 2 ^ 64 -> ring_inv N r w -> saturated r w ->
  ring_run evs r w = Ok (r', w') ->
  ring_inv N r' w' /\ saturated r' w'.
Proof.
  induction evs as [|ev rest IH]; intros r w r' w' HN Hinv Hsat; cbn [ring_run].
  - intros [= <- <-]. auto.
  - unfold mbind, M_bind.
    destruct (ring_step ev r w) as [[r1 w1]|e] eqn:Hstep; [|discriminate].
    intros Hrun.
    destruct (ring_step_inv N ev r w HN Hinv) as [Hsafe _].
    destruct (Hsafe r1 w1 Hstep) as (Hinv1 & _ & _).
    pose proof (saturated_step N ev r w r1 w1 HN Hinv Hsat Hstep) as Hsat1.
    exact (IH r1 w1 r' w' HN Hinv1 Hsat1 Hrun).
Qed.

(** X15: once a ring buffer's in-flight count equals its slot count while
    none of its completion handlers is pending, it stays so whatever calls
    and completions follow, and every later [createNewAllocation] returns
    offset 0 of an auxiliary buffer created at that call, leaving the cursor
    where it was. *)
Theorem full_ring_without_pending_stays_full
    target opts layout N w r0 w0 evs1 r w1 evs2 r' w' c a r1 w2 :
  MetalRingBuffer.ctor target tt opts layout N w = Ok (r0, w0) ->
  1 <= N < 2 ^ 64 -> handlers_bound w ->
  ring_run evs1 r0 w0 = Ok (r, w1) ->
  saturated r w1 ->
  ring_run evs2 r w1 = Ok (r', w') ->
  saturated r' w' /\
  (MetalRingBuffer.createNewAllocation r' c w' = Ok ((a, r1), w2) ->
   a = (Some (dev_next (device w')), 0) /\
   MetalRingBuffer.mCurrentSlot r1 = MetalRingBuffer.mCurrentSlot r' /\
   in_flight r1 w2 = Some N).
Proof.
  intros Hctor HN Hb Hrun1 Hsat Hrun2.
  destruct (ctor_establishes_inv _ _ _ _ _ _ _ Hctor ltac:(lia) Hb) as [Hinv0 _].
  destruct (ring_run_inv N evs1 r0 w0 HN Hinv0) as [Hsafe _].
  destruct (Hsafe r w1 Hrun1) as [Hinv _].
  destruct (saturated_run N evs2 r w1 r' w' HN Hinv Hsat Hrun2) as [Hinv' Hsat'].
  split; [exact Hsat'|]. intros Hstep.
  destruct (saturated_allocate N r' w' c a r1 w2 HN Hinv' Hsat' Hstep)
    as (Ha & Hcur & Hc & Hp & Hcnt & _).
  split; [exact Ha|]. split; [exact Hcur|].
  destruct Hsat' as [Hfull _]. destruct Hinv' as (HcN & _).
  unfold in_flight in *. rewrite Hp, Hcnt, Hfull, HcN. reflexivity.
Qed.

Lemma full_ring_without_pending_stays_full_witness :
  exists r0 w0 r w1 r' w',
    MetalRingBuffer.ctor OTHER tt 0 {| MTL.size := 40; MTL.align := 8 |} 2
      {| aliveBuffers := [0; 0; 0]; platform := None; stats := [];
         device := {| dev_next := 1%positive; dev_outcomes := [] |};
         counters := []; handlers := [] |} = Ok (r0, w0) /\
    ring_run [Allocate 5%positive; Allocate 6%positive; Completed 5%positive;
              Allocate 7%positive] r0 w0 = Ok (r, w1) /\
    ring_run [Completed 7%positive; Allocate 8%positive; Completed 8%positive] r w1
      = Ok (r', w') /\
    saturated r' w'.
Proof.
  assert (Hctor :
    MetalRingBuffer.ctor OTHER tt 0 {| MTL.size := 40; MTL.align := 8 |} 2
      {| aliveBuffers := [0; 0; 0]; platform := None; stats := [];
         device := {| dev_next := 1%positive; dev_outcomes := [] |};
         counters := []; handlers := [] |} = Ok _) by (vm_compute; reflexivity).
  match type of Hctor with
  | _ = Ok (?r0, ?w0) =>
      assert (Hrun1 :
        ring_run [Allocate 5%positive; Allocate 6%positive; Completed 5%positive;
                  Allocate 7%positive] r0 w0 = Ok _) by (vm_compute; reflexivity)
  end.
  match type of Hrun1 with
  | _ = Ok (?r, ?w1) =>
      assert (Hrun2 :
        ring_run [Completed 7%positive; Allocate 8%positive; Completed 8%positive] r w1
          = Ok _) by (vm_compute; reflexivity);
      assert (Hsat : saturated r w1) by (split; reflexivity)
  end.
  do 6 eexists. split; [exact Hctor|]. split; [exact Hrun1|]. split; [exact Hrun2|].
  match type of Hctor with
  | _ = Ok (?r0, ?w0) =>
      exact (proj1 (full_ring_without_pending_stays_full
                      _ _ _ _ _ _ _ _ _ _ _ _ _ 9%positive (None, 0) r0 w0
                      Hctor ltac:(lia) ltac:(constructor) Hrun1 Hsat Hrun2))
  end.
Defined.

(** X16: a ring buffer constructed with a single slot never hands out its
    slot again: every [createNewAllocation], whatever came before, returns
    offset 0 of an auxiliary buffer created at that call, which is not the
    main buffer, and the in-flight count stays 1. *)
Theorem single_slot_ring_always_overflows target opts layout w r0 w0 evs r w' c a r1 w1 :
  MetalRingBuffer.ctor target tt opts layout 1 w = Ok (r0, w0) ->
  handlers_bound w ->
  ring_run evs r0 w0 = Ok (r, w') ->
  MetalRingBuffer.createNewAllocation r c w' = Ok ((a, r1), w1) ->
  a = (Some (dev_next (device w')), 0) /\
  fst a <> TrackedMetalBuffer.get (MetalRingBuffer.mBuffer r0) /\
  in_flight r1 w1 = Some 1.
Proof.
  intros Hctor Hb Hrun Hstep.
  assert (HN : 1 <= 1 < 2 ^ 64) by lia.
  destruct (ctor_establishes_inv _ _ _ _ _ _ _ Hctor ltac:(lia) Hb) as [Hinv0 Hfl0].
  destruct (ctor_establishes_frame _ _ _ _ _ _ _ Hctor ltac:(lia)) as (HcN & _ & Hframe0).
  assert (Hsat0 : saturated r0 w0).
  { split; [rewrite HcN; exact Hfl0|].
    destruct Hinv0 as (_ & _ & v & Hcell & Hv).
    apply length_zero_iff_nil. unfold in_flight in Hfl0. rewrite Hcell in Hfl0.
    injection Hfl0 as ->. lia. }
  destruct (saturated_run 1 evs r0 w0 r w' HN Hinv0 Hsat0 Hrun) as [Hinv Hsat].
  assert (HN' : 1 <= MetalRingBuffer.mSlotCount r0 < 2 ^ 64) by (rewrite HcN; lia).
  assert (Hinv0' : ring_inv (MetalRingBuffer.mSlotCount r0) r0 w0) by (rewrite HcN; exact Hinv0).
  destruct (ring_run_frame r0 evs r0 w0 r w' HN' Hinv0' Hframe0 Hrun)
    as [_ (_ & _ & _ & _ & _ & h & Hmain & Hh & _)].
  destruct (saturated_allocate 1 r w' c a r1 w1 HN Hinv Hsat Hstep)
    as (Ha & _ & Hc & Hp & Hcnt & _).
  split; [exact Ha|]. split.
  - rewrite Ha, Hmain. cbn. intros [= E]. lia.
  - destruct Hsat as [Hfull _]. destruct Hinv as (HcN1 & _).
    unfold in_flight in *. rewrite Hp, Hcnt, Hfull, HcN1. reflexivity.
Qed.

Lemma single_slot_ring_always_overflows_witness :
  exists r0 w0 r w' a r1 w1,
    MetalRingBuffer.ctor OTHER tt 0 {| MTL.size := 40; MTL.align := 8 |} 1
      {| aliveBuffers := [0; 0; 0]; platform := None; stats := [];
         device := {| dev_next := 1%positive; dev_outcomes := [] |};
         counters := []; handlers := [] |} = Ok (r0, w0) /\
    ring_run [Allocate 5%positive; Completed 5%positive] r0 w0 = Ok (r, w') /\
    MetalRingBuffer.createNewAllocation r 6%positive w' = Ok ((a, r1), w1) /\
    a = (Some (dev_next (device w')), 0) /\
    fst a <> TrackedMetalBuffer.get (MetalRingBuffer.mBuffer r0) /\
    in_flight r1 w1 = Some 1.
Proof.
  assert (Hctor :
    MetalRingBuffer.ctor OTHER tt 0 {| MTL.size := 40; MTL.align := 8 |} 1
      {| aliveBuffers := [0; 0; 0]; platform := None; stats := [];
         device := {| dev_next := 1%positive; dev_outcomes := [] |};
         counters := []; handlers := [] |} = Ok _) by (vm_compute; reflexivity).
  match type of Hctor with
  | _ = Ok (?r0, ?w0) =>
      assert (Hrun :
        ring_run [Allocate 5%positive; Completed 5%positive] r0 w0 = Ok _)
        by (vm_compute; reflexivity)
  end.
  match type of Hrun with
  | _ = Ok (?r, ?w') =>
      assert (Hstep : MetalRingBuffer.createNewAllocation r 6%positive w' = Ok _)
        by (vm_compute; reflexivity)
  end.
  do 7 eexists. split; [exact Hctor|]. split; [exact Hrun|]. split; [exact Hstep|].
  exact (single_slot_ring_always_overflows _ _ _ _ _ _ _ _ _ _ _ _ _
           Hctor ltac:(constructor) Hrun Hstep).
Defined.

(** ** The tracked buffers a ring buffer holds *)

Lemma bump_bump a b l : bump b (bump a l) = bump (a + b) l.
Proof.
  unfold bump. destruct l as [|x [|y rest]]; [reflexivity | reflexivity |].
  cbn. rewrite wrap_add_l. do 3 f_equal. lia.
Qed.

Lemma bump_zero l : Forall u64 l -> bump 0 l = l.
Proof.
  unfold bump. destruct l as [|x [|y rest]]; [reflexivity | reflexivity |].
  intros H. apply Forall_cons_1 in H as [_ H]. apply Forall_cons_1 in H as [Hy _].
  cbn. rewrite Z.add_0_r, wrap_small by exact Hy. reflexivity.
Qed.

Lemma alter_decrement_bump l : alter (fun v => wrap (v - 1)) 1%nat l = bump (-1) l.
Proof.
  unfold bump. destruct l as [|x [|y rest]]; [reflexivity | reflexivity |].
  cbn. do 3 f_equal.
Qed.

Lemma ctor_ring_alive h w :
  exists w',
    TrackedMetalBuffer.ctor (Some h) TrackedMetalBuffer.RING w =
      Ok ({| TrackedMetalBuffer.mBuffer := Some h;
             TrackedMetalBuffer.mType := TrackedMetalBuffer.RING |}, w') /\
    aliveBuffers w' = bump 1 (aliveBuffers w).
Proof.
  destruct (ctor_handle_alive h TrackedMetalBuffer.RING w 1%nat eq_refl) as (w' & Hc & Ha & _).
  exists w'. split; [exact Hc | exact Ha].
Qed.

(** A ring-category buffer or none. *)
Lemma dtor_ring_alive o w :
  o = {| TrackedMetalBuffer.mBuffer := None;
         TrackedMetalBuffer.mType := TrackedMetalBuffer.NONE |} \/
  (exists a, o = {| TrackedMetalBuffer.mBuffer := Some a;
                    TrackedMetalBuffer.mType := TrackedMetalBuffer.RING |}) ->
  forall base k, aliveBuffers w = bump k base ->
  exists w',
    TrackedMetalBuffer.dtor o w = Ok (tt, w') /\
    aliveBuffers w' = bump (k - indicator (TrackedMetalBuffer.to_bool o)) base /\
    counters w' = counters w.
Proof.
  intros [->|(a & ->)] base k Hk.
  - exists w. cbn. rewrite Z.sub_0_r. auto.
  - rewrite (dtor_handle a TrackedMetalBuffer.RING w 1%nat eq_refl).
    eexists. split; [reflexivity|]. cbn [aliveBuffers set_aliveBuffers counters set_counters].
    split; [|reflexivity].
    rewrite alter_decrement_bump, Hk, bump_bump. cbn. f_equal.
Qed.

Lemma assign_fresh_alive old len opts w b w' base k :
  old = {| TrackedMetalBuffer.mBuffer := None;
           TrackedMetalBuffer.mType := TrackedMetalBuffer.NONE |} \/
  (exists a, old = {| TrackedMetalBuffer.mBuffer := Some a;
                      TrackedMetalBuffer.mType := TrackedMetalBuffer.RING |}) ->
  aliveBuffers w = bump k base ->
  TrackedMetalBuffer.assign_temporary old
    (x ← newBufferWithLength len opts;
     TrackedMetalBuffer.ctor x TrackedMetalBuffer.RING) w = Ok (b, w') ->
  TrackedMetalBuffer.to_bool b = true ->
  aliveBuffers w' = bump (k + 1 - indicator (TrackedMetalBuffer.to_bool old)) base.
Proof.
  intros Hold Hk Hassign Hb.
  destruct (newBuffer_cases len opts w) as [(rest & Hout & _)|[Hnew _]].
  { rewrite (assign_failed_buffer old len opts w rest Hout b w' Hassign) in Hb.
    discriminate Hb. }
  set (w1 := set_device _ w) in Hnew.
  destruct (ctor_ring_alive (dev_next (device w)) w1) as (w2 & Hc & Ha2).
  assert (Hold' : {| TrackedMetalBuffer.mBuffer := TrackedMetalBuffer.mBuffer old;
                     TrackedMetalBuffer.mType := TrackedMetalBuffer.mType old |} = old)
    by (destruct old; reflexivity).
  assert (Hk2 : aliveBuffers w2 = bump (k + 1) base).
  { rewrite Ha2. change (aliveBuffers w1) with (aliveBuffers w). rewrite Hk. apply bump_bump. }
  destruct (dtor_ring_alive old w2 Hold base (k + 1) Hk2) as (w3 & Hd & Ha3 & _).
  unfold TrackedMetalBuffer.assign_temporary, TrackedMetalBuffer.swap in Hassign.
  unfold mbind, M_bind, mret, M_ret in Hassign. rewrite Hnew in Hassign.
  cbv beta iota in Hassign. rewrite Hc in Hassign.
  cbn [TrackedMetalBuffer.mBuffer TrackedMetalBuffer.mType] in Hassign.
  rewrite Hold', Hd in Hassign. injection Hassign as _ <-. exact Ha3.
Qed.

Lemma ctor_alive target opts layout N w r0 w0 :
  MetalRingBuffer.ctor target tt opts layout N w = Ok (r0, w0) ->
  Forall u64 (aliveBuffers w) ->
  aliveBuffers w0 = bump 1 (aliveBuffers w).
Proof.
  intros Hctor Hu. revert Hctor.
  unfold MetalRingBuffer.ctor, TrackedMetalBuffer.ctor_default,
    TrackedMetalBuffer.ctor_nullptr, make_shared.
  unfold mbind at 1 2 3 4 5 6. unfold M_bind at 1 2 3 4 5 6.
  unfold mret at 1 2. unfold M_ret at 1 2. unfold lift.
  destruct (computeSlotSize target layout) as [s|e]; [|discriminate].
  set (w1 := set_counters (fun l => l ++ [Some 1]) w).
  destruct (TrackedMetalBuffer.assign_temporary _ _ w1) as [[b w2]|e] eqn:E; [|discriminate].
  unfold assert_invariant. destruct (TrackedMetalBuffer.to_bool b) eqn:Hb; [|discriminate].
  unfold mret, M_ret. intros [= _ <-].
  assert (Hk : aliveBuffers w1 = bump 0 (aliveBuffers w))
    by (rewrite bump_zero by exact Hu; reflexivity).
  rewrite (assign_fresh_alive _ _ _ _ _ _ _ 0 (or_introl eq_refl) Hk E Hb). cbn. reflexivity.
Qed.

Lemma run_handlers_keeps_alive hs : forall w w',
  run_handlers hs w = Ok (tt, w') -> aliveBuffers w' = aliveBuffers w.
Proof.
  induction hs as [|[q] rest IH]; intros w w'; cbn [run_handlers].
  - intros [= <-]. reflexivity.
  - unfold mbind, M_bind.
    destruct (counters w !! q) as [[vq|]|] eqn:Hq.
    + rewrite (completedHandler_alive q w vq Hq). intros H. rewrite (IH _ _ H). reflexivity.
    + rewrite completedHandler_expired by (unfold expired; rewrite Hq; exact I). apply IH.
    + rewrite completedHandler_expired by (unfold expired; rewrite Hq; exact I). apply IH.
Qed.

Lemma complete_keeps_alive c w w' :
  complete c w = Ok (tt, w') -> aliveBuffers w' = aliveBuffers w.
Proof.
  unfold complete, gets, modify. unfold mbind, M_bind. intros H.
  rewrite (run_handlers_keeps_alive _ _ _ H). reflexivity.
Qed.

Lemma aux_shape_share r :
  MetalRingBuffer.mAuxBuffer r =
    {| TrackedMetalBuffer.mBuffer := None;
       TrackedMetalBuffer.mType := TrackedMetalBuffer.NONE |} \/
  (exists a, MetalRingBuffer.mAuxBuffer r =
               {| TrackedMetalBuffer.mBuffer := Some a;
                  TrackedMetalBuffer.mType := TrackedMetalBuffer.RING |}) ->
  ring_share r = 1 + indicator (TrackedMetalBuffer.to_bool (MetalRingBuffer.mAuxBuffer r)).
Proof. reflexivity. Qed.

(** One call keeps the ring category's counter at what it was before the
    ring buffer existed plus the buffers the ring holds. *)
Lemma allocate_alive r0 r w c a r1 w1 base :
  1 <= MetalRingBuffer.mSlotCount r0 < 2 ^ 64 ->
  ring_inv (MetalRingBuffer.mSlotCount r0) r w -> ring_frame r0 r w ->
  aliveBuffers w = bump (ring_share r) base ->
  MetalRingBuffer.createNewAllocation r c w = Ok ((a, r1), w1) ->
  aliveBuffers w1 = bump (ring_share r1) base.
Proof.
  intros HN (Hcount & Hwt & v & Hcell & Hv) (_ & _ & _ & _ & _ & h & _ & _ & Haux) Hk Hstep.
  assert (Hshape :
    MetalRingBuffer.mAuxBuffer r =
      {| TrackedMetalBuffer.mBuffer := None;
         TrackedMetalBuffer.mType := TrackedMetalBuffer.NONE |} \/
    (exists x, MetalRingBuffer.mAuxBuffer r =
                 {| TrackedMetalBuffer.mBuffer := Some x;
                    TrackedMetalBuffer.mType := TrackedMetalBuffer.RING |})).
  { destruct Haux as [E|(x & E & _)]; [left; exact E | right; exists x; exact E]. }
  destruct (Z.eq_dec v (MetalRingBuffer.mSlotCount r0)) as [HvN|HvN].
  - revert Hstep. unfold MetalRingBuffer.createNewAllocation, load.
    unfold mbind at 1 2. unfold M_bind at 1 2. rewrite Hcell. unfold assert_invariant.
    assert (Hle : (v <=? MetalRingBuffer.mSlotCount r) = true) by (apply Z.leb_le; lia).
    assert (Heq : (v =? MetalRingBuffer.mSlotCount r) = true) by (apply Z.eqb_eq; lia).
    rewrite Hle, Heq. unfold mbind at 1. unfold M_bind at 1.
    destruct (TrackedMetalBuffer.assign_temporary _ _ w) as [[b w2]|e] eqn:E; [|discriminate].
    unfold mbind, M_bind, mret, M_ret.
    cbn [MetalRingBuffer.mAuxBuffer MetalRingBuffer.set_mAuxBuffer].
    destruct (TrackedMetalBuffer.to_bool b) eqn:Hb; [|discriminate].
    intros [= _ <- <-].
    rewrite (assign_fresh_alive _ _ _ _ _ _ _ _ Hshape Hk E Hb).
    unfold ring_share. cbn [MetalRingBuffer.mAuxBuffer MetalRingBuffer.set_mAuxBuffer].
    rewrite Hb. cbn [indicator]. f_equal. lia.
  - destruct Hshape as [Hnil|(x & Hx)].
    + pose proof (createNewAllocation_slot r w v Hcell c ltac:(lia)) as Hstep2.
      rewrite Hnil in Hstep2. specialize (Hstep2 eq_refl).
      rewrite Hstep2 in Hstep. injection Hstep as _ <- <-.
      cbn [aliveBuffers set_handlers set_counters]. rewrite Hk. reflexivity.
    + pose proof (createNewAllocation_slot_after_aux r w v Hcell c x
                    TrackedMetalBuffer.RING 1%nat ltac:(lia) Hx eq_refl) as Hstep2.
      rewrite Hstep2 in Hstep. injection Hstep as _ <- <-.
      cbn [aliveBuffers set_aliveBuffers set_counters].
      rewrite alter_decrement_bump, Hk, bump_bump. unfold ring_share. rewrite Hx. cbn.
      reflexivity.
Qed.

Lemma ring_run_alive r0 base evs : forall r w r' w',
  1 <= MetalRingBuffer.mSlotCount r0 < 2 ^ 64 ->
  ring_inv (MetalRingBuffer.mSlotCount r0) r w -> ring_frame r0 r w ->
  aliveBuffers w = bump (ring_share r) base ->
  ring_run evs r w = Ok (r', w') ->
  aliveBuffers w' = bump (ring_share r') base.
Proof.
  induction evs as [|ev rest IH]; intros r w r' w' HN Hinv Hframe Hk; cbn [ring_run].
  - intros [= <- <-]. exact Hk.
  - unfold mbind, M_bind.
    destruct (ring_step ev r w) as [[r1 w1]|e] eqn:Hstep; [|discriminate].
    intros Hrun.
    destruct (ring_step_inv _ ev r w HN Hinv) as [Hsafe _].
    destruct (Hsafe r1 w1 Hstep) as (Hinv1 & _ & _).
    pose proof (ring_step_frame r0 ev r w r1 w1 HN Hinv Hframe Hstep) as Hframe1.
    apply (IH r1 w1 r' w' HN Hinv1 Hframe1); [|exact Hrun].
    destruct ev as [c|c]; cbn [ring_step] in Hstep; unfold mbind, M_bind, mret, M_ret in Hstep.
    + destruct (MetalRingBuffer.createNewAllocation r c w) as [[[a r2] w2]|e] eqn:Hcna;
        [|discriminate].
      injection Hstep as <- <-.
      exact (allocate_alive r0 r w c a r2 w2 base HN Hinv Hframe Hk Hcna).
    + destruct (complete c w) as [[[] w2]|e] eqn:Hcomp; [|discriminate].
      injection Hstep as <- <-. rewrite (complete_keeps_alive _ _ _ Hcomp). exact Hk.
Qed.

(** X17: a ring buffer accounts for the tracked buffers it holds: at any
    point of a run the ring category's alive counter is what it was before
    the ring buffer was constructed plus one for the main buffer and one for
    the auxiliary buffer when there is one, and destroying the ring buffer
    at that point returns every alive counter to its value before the
    construction. *)
Theorem ring_lifetime_restores_alive_counters target opts layout N w r0 w0 evs r w1 :
  MetalRingBuffer.ctor target tt opts layout N w = Ok (r0, w0) ->
  1 <= N < 2 ^ 64 -> handlers_bound w -> Forall u64 (aliveBuffers w) ->
  ring_run evs r0 w0 = Ok (r, w1) ->
  aliveBuffers w1 = bump (ring_share r) (aliveBuffers w) /\
  exists w2,
    MetalRingBuffer.dtor r w1 = Ok (tt, w2) /\ aliveBuffers w2 = aliveBuffers w.
Proof.
  intros Hctor HN Hb Hu Hrun.
  destruct (ctor_establishes_inv _ _ _ _ _ _ _ Hctor ltac:(lia) Hb) as [Hinv0 _].
  destruct (ctor_establishes_frame _ _ _ _ _ _ _ Hctor ltac:(lia)) as (HcN & _ & Hframe0).
  rewrite <- HcN in Hinv0, HN.
  assert (Hk0 : aliveBuffers w0 = bump (ring_share r0) (aliveBuffers w)).
  { rewrite (ctor_alive _ _ _ _ _ _ _ Hctor Hu).
    destruct (ctor_success _ _ _ _ _ _ _ Hctor) as (s & _ & -> & _). reflexivity. }
  pose proof (ring_run_alive r0 (aliveBuffers w) evs r0 w0 r w1 HN Hinv0 Hframe0 Hk0 Hrun)
    as Hk.
  split; [exact Hk|].
  destruct (ring_run_frame r0 evs r0 w0 r w1 HN Hinv0 Hframe0 Hrun)
    as [_ (Hmb & _ & _ & _ & _ & h & Hmain & _ & Haux)].
  assert (Hshape :
    MetalRingBuffer.mAuxBuffer r =
      {| TrackedMetalBuffer.mBuffer := None;
         TrackedMetalBuffer.mType := TrackedMetalBuffer.NONE |} \/
    (exists x, MetalRingBuffer.mAuxBuffer r =
                 {| TrackedMetalBuffer.mBuffer := Some x;
                    TrackedMetalBuffer.mType := TrackedMetalBuffer.RING |})).
  { destruct Haux as [E|(x & E & _)]; [left; exact E | right; exists x; exact E]. }
  unfold MetalRingBuffer.dtor, shared_release, modify. unfold mbind, M_bind.
  set (wa := set_counters _ w1).
  destruct (dtor_ring_alive (MetalRingBuffer.mAuxBuffer r) wa Hshape
              (aliveBuffers w) (ring_share r) Hk) as (wb & Hd1 & Ha1 & _).
  rewrite Hd1.
  destruct (dtor_ring_alive (MetalRingBuffer.mBuffer r) wb
              (or_intror (ex_intro _ h (eq_trans Hmb Hmain)))
              (aliveBuffers w) _ Ha1) as (wc & Hd2 & Ha2 & _).
  exists wc. split; [exact Hd2|]. rewrite Ha2, Hmb, Hmain. unfold ring_share. cbn.
  replace (1 + indicator (TrackedMetalBuffer.to_bool (MetalRingBuffer.mAuxBuffer r))
           - indicator (TrackedMetalBuffer.to_bool (MetalRingBuffer.mAuxBuffer r)) - 1)
    with 0 by lia.
  apply bump_zero. exact Hu.
Qed.

Lemma ring_lifetime_restores_alive_counters_witness :
  exists r0 w0 r w1 w2,
    MetalRingBuffer.ctor OTHER tt 0 {| MTL.size := 40; MTL.align := 8 |} 2
      {| aliveBuffers := [3; 4; 5]; platform := None; stats := [];
         device := {| dev_next := 1%positive; dev_outcomes := [] |};
         counters := []; handlers := [] |} = Ok (r0, w0) /\
    ring_run [Allocate 5%positive; Allocate 6%positive] r0 w0 = Ok (r, w1) /\
    aliveBuffers w1 = bump (ring_share r) [3; 4; 5] /\
    MetalRingBuffer.dtor r w1 = Ok (tt, w2) /\ aliveBuffers w2 = [3; 4; 5].
Proof.
  assert (Hctor :
    MetalRingBuffer.ctor OTHER tt 0 {| MTL.size := 40; MTL.align := 8 |} 2
      {| aliveBuffers := [3; 4; 5]; platform := None; stats := [];
         device := {| dev_next := 1%positive; dev_outcomes := [] |};
         counters := []; handlers := [] |} = Ok _) by (vm_compute; reflexivity).
  match type of Hctor with
  | _ = Ok (?r0, ?w0) =>
      assert (Hrun : ring_run [Allocate 5%positive; Allocate 6%positive] r0 w0 = Ok _)
        by (vm_compute; reflexivity)
  end.
  destruct (ring_lifetime_restores_alive_counters _ _ _ _ _ _ _ _ _ _ Hctor
              ltac:(lia) ltac:(constructor)
              ltac:(repeat constructor; unfold u64; lia) Hrun)
    as (Hk & w2 & Hd & Ha).
  do 4 eexists. exists w2. split; [exact Hctor|]. split; [exact Hrun|].
  split; [exact Hk|]. split; [exact Hd | exact Ha].
Defined.

(** ** How construction and allocation end *)

Lemma align_platform_ok x t : exists s, align x (METAL_CONSTANT_BUFFER_OFFSET_ALIGNMENT t) = Ok s.
Proof. destruct t; eexists; reflexivity. Qed.

Lemma computeSlotSize_defined t layout :
  is_power_of_two (MTL.align layout) = true -> exists s, computeSlotSize t layout = Ok s.
Proof.
  intros Hp. unfold computeSlotSize.
  assert (E : align (MTL.size layout) (MTL.align layout) =
              Ok (Z.land (wrap (MTL.size layout + MTL.align layout - 1))
                         (bnot (wrap (MTL.align layout - 1)))))
    by (unfold align; rewrite Hp; reflexivity).
  rewrite E. apply align_platform_ok.
Qed.

Lemma computeSlotSize_undefined t layout :
  is_power_of_two (MTL.align layout) = false -> computeSlotSize t layout = Fail AssertFailed.
Proof.
  intros Hp. unfold computeSlotSize.
  assert (E : align (MTL.size layout) (MTL.align layout) = Fail AssertFailed)
    by (unfold align; rewrite Hp; reflexivity).
  rewrite E. reflexivity.
Qed.

(** X18: how the constructor of a ring buffer ends is decided by two
    things only: it stops at the [assert] of [align] exactly when the
    layout's alignment is not a power of two, it stops at
    [assert_invariant(mBuffer)] exactly when the alignment is a power of two
    and the device delivers no buffer, and it returns otherwise; the size,
    the slot count and the options play no part. *)
Theorem ring_ctor_outcomes target opts layout N w :
  match MetalRingBuffer.ctor target tt opts layout N w with
  | Ok _ =>
      is_power_of_two (MTL.align layout) = true /\
      hd true (dev_outcomes (device w)) = true
  | Fail AssertFailed => is_power_of_two (MTL.align layout) = false
  | Fail AssertInvariantFailed =>
      is_power_of_two (MTL.align layout) = true /\
      hd true (dev_outcomes (device w)) = false
  | Fail Dangling => False
  end.
Proof.
  unfold MetalRingBuffer.ctor, TrackedMetalBuffer.ctor_default,
    TrackedMetalBuffer.ctor_nullptr, make_shared.
  unfold mbind at 1 2 3 4 5 6. unfold M_bind at 1 2 3 4 5 6.
  unfold mret at 1 2. unfold M_ret at 1 2. unfold lift.
  destruct (is_power_of_two (MTL.align layout)) eqn:Hp.
  - destruct (computeSlotSize_defined target layout Hp) as (s & ->).
    set (w1 := set_counters (fun l => l ++ [Some 1]) w).
    destruct (newBuffer_cases (wrap (s * N)) opts w1) as [(rest & Hout & _)|[_ Hhd]].
    + pose proof (assign_failed_buffer
                    {| TrackedMetalBuffer.mBuffer := None;
                       TrackedMetalBuffer.mType := TrackedMetalBuffer.NONE |}
                    (wrap (s * N)) opts w1 rest Hout) as Hfail.
      revert Hfail.
      unfold TrackedMetalBuffer.assign_temporary, TrackedMetalBuffer.swap, newBufferWithLength.
      unfold mbind, M_bind, mret, M_ret. rewrite Hout.
      rewrite ctor_nil by discriminate.
      cbn [TrackedMetalBuffer.mBuffer TrackedMetalBuffer.mType TrackedMetalBuffer.dtor].
      unfold mret, M_ret. intros _.
      cbn [TrackedMetalBuffer.to_bool TrackedMetalBuffer.mBuffer assert_invariant].
      change (dev_outcomes (device w)) with (dev_outcomes (device w1)).
      rewrite Hout. split; reflexivity.
    + destruct (assign_fresh_buffer
                  {| TrackedMetalBuffer.mBuffer := None;
                     TrackedMetalBuffer.mType := TrackedMetalBuffer.NONE |}
                  (wrap (s * N)) opts w1 ltac:(intros H; discriminate H) Hhd)
        as (w2 & Hassign & _).
      rewrite Hassign. cbn. split; [reflexivity | exact Hhd].
  - rewrite (computeSlotSize_undefined target layout Hp). reflexivity.
Qed.

(** X19: between calls of a ring buffer with [N >= 1] slots,
    [createNewAllocation] fails in one situation only: the in-flight count
    equals [N] and the device delivers no buffer; it then stops at
    [assert_invariant(mAuxBuffer)].  In every other state it returns. *)
Theorem allocation_fails_only_full_without_buffer N r w c :
  1 <= N < 2 ^ 64 -> ring_inv N r w ->
  match MetalRingBuffer.createNewAllocation r c w with
  | Ok _ =>
      in_flight r w <> Some N \/ hd true (dev_outcomes (device w)) = true
  | Fail AssertInvariantFailed =>
      in_flight r w = Some N /\ hd true (dev_outcomes (device w)) = false
  | Fail _ => False
  end.
Proof.
  intros HN (Hcount & Hwt & v & Hcell & Hv).
  assert (Hfl : in_flight r w = Some v) by (unfold in_flight; rewrite Hcell; reflexivity).
  destruct (Z.eq_dec v N) as [HvN|HvN].
  - destruct (newBuffer_cases (MetalRingBuffer.mSlotSizeBytes r)
                (MetalRingBuffer.mBufferOptions r) w) as [(rest & Hout & _)|[_ Hhd]].
    + pose proof (assign_failed_buffer (MetalRingBuffer.mAuxBuffer r)
                    (MetalRingBuffer.mSlotSizeBytes r) (MetalRingBuffer.mBufferOptions r)
                    w rest Hout) as Hfail.
      unfold MetalRingBuffer.createNewAllocation, load.
      unfold mbind at 1 2. unfold M_bind at 1 2. rewrite Hcell. unfold assert_invariant.
      assert (Hle : (v <=? MetalRingBuffer.mSlotCount r) = true) by (apply Z.leb_le; lia).
      assert (Heq : (v =? MetalRingBuffer.mSlotCount r) = true) by (apply Z.eqb_eq; lia).
      rewrite Hle, Heq. unfold mbind at 1. unfold M_bind at 1.
      assert (Hres : forall old, well_typed old -> forall e,
        TrackedMetalBuffer.assign_temporary old
          (b ← newBufferWithLength (MetalRingBuffer.mSlotSizeBytes r)
                 (MetalRingBuffer.mBufferOptions r);
           TrackedMetalBuffer.ctor b TrackedMetalBuffer.RING) w = Fail e ->
        e = AssertInvariantFailed).
      { intros [ob ty] Hwo e.
        unfold TrackedMetalBuffer.assign_temporary, TrackedMetalBuffer.swap,
          newBufferWithLength.
        unfold mbind, M_bind, mret, M_ret. rewrite Hout.
        rewrite ctor_nil by discriminate.
        cbn [TrackedMetalBuffer.mBuffer TrackedMetalBuffer.mType].
        set (w1 := set_device _ w).
        destruct (dtor_well_typed _ w1 Hwo) as (w2 & ->). discriminate. }
      destruct (TrackedMetalBuffer.assign_temporary _ _ w) as [[b w']|e] eqn:E.
      * specialize (Hfail b w' eq_refl).
        unfold mbind, M_bind. cbn [MetalRingBuffer.mAuxBuffer MetalRingBuffer.set_mAuxBuffer].
        rewrite Hfail. rewrite Hfl, Hout. split; [f_equal; exact HvN | reflexivity].
      * rewrite (Hres _ Hwt e E). rewrite Hfl, Hout. split; [f_equal; exact HvN | reflexivity].
    + destruct (createNewAllocation_overflow r w v Hcell c ltac:(lia) Hwt Hhd)
        as (w1 & -> & _).
      right. exact Hhd.
  - destruct (allocate_step_cases N r w c HN
                (conj Hcount (conj Hwt (ex_intro _ v (conj Hcell Hv)))))
      as [(a & r1 & w1 & -> & _)|[Hfail Hnrel]].
    + left. rewrite Hfl. intros [= E]. contradiction.
    + exfalso.
      destruct (MetalRingBuffer.mAuxBuffer r) as [[a|] ty] eqn:Haux.
      * assert (Hty : ty <> TrackedMetalBuffer.NONE) by (apply Hwt; reflexivity).
        destruct (toIndex_not_NONE ty Hty) as (_ & i & Hi & _).
        apply (Hfail _ (createNewAllocation_slot_after_aux r w v Hcell c a ty i
                          ltac:(lia) Haux Hi)).
      * pose proof (createNewAllocation_slot r w v Hcell c ltac:(lia)) as Hstep.
        rewrite Haux in Hstep. apply (Hfail _ (Hstep eq_refl)).
Qed.

Lemma allocation_fails_only_full_without_buffer_witness :
  exists r0 w0,
    MetalRingBuffer.ctor OTHER tt 0 {| MTL.size := 40; MTL.align := 8 |} 1
      {| aliveBuffers := [0; 0; 0]; platform := None; stats := [];
         device := {| dev_next := 1%positive; dev_outcomes := [true; false] |};
         counters := []; handlers := [] |} = Ok (r0, w0) /\
    MetalRingBuffer.createNewAllocation r0 5%positive w0 = Fail AssertInvariantFailed /\
    in_flight r0 w0 = Some 1 /\ hd true (dev_outcomes (device w0)) = false.
Proof.
  assert (Hctor :
    MetalRingBuffer.ctor OTHER tt 0 {| MTL.size := 40; MTL.align := 8 |} 1
      {| aliveBuffers := [0; 0; 0]; platform := None; stats := [];
         device := {| dev_next := 1%positive; dev_outcomes := [true; false] |};
         counters := []; handlers := [] |} = Ok _) by (vm_compute; reflexivity).
  match type of Hctor with
  | _ = Ok (?r0, ?w0) =>
      assert (E : MetalRingBuffer.createNewAllocation r0 5%positive w0 =
                  Fail AssertInvariantFailed) by (vm_compute; reflexivity);
      pose proof (allocation_fails_only_full_without_buffer 1 r0 w0 5%positive
                    ltac:(lia)
                    (proj1 (ctor_establishes_inv _ _ _ _ _ _ _ Hctor ltac:(lia)
                              ltac:(constructor)))) as H
  end.
  rewrite E in H. destruct H as [Hfull Hdev].
  do 2 eexists. split; [exact Hctor|]. split; [exact E|]. split; [exact Hfull | exact Hdev].
Defined.

(** X20: a ring buffer constructed with zero slots cannot allocate: its
    in-flight count starts at 1, above the slot count, so the first
    [createNewAllocation] stops at
    [assert_invariant(occupiedSlots <= mSlotCount)], before any slot
    arithmetic and before the device is asked for a buffer. *)
Theorem zero_slot_ring_cannot_allocate target opts layout w r0 w0 c :
  MetalRingBuffer.ctor target tt opts layout 0 w = Ok (r0, w0) ->
  MetalRingBuffer.createNewAllocation r0 c w0 = Fail AssertInvariantFailed.
Proof.
  intros Hctor.
  destruct (ctor_success _ _ _ _ _ _ _ Hctor) as (s & _ & -> & _ & Hc & _).
  unfold MetalRingBuffer.createNewAllocation, load.
  unfold mbind at 1 2. unfold M_bind at 1 2.
  cbn [MetalRingBuffer.mOccupiedSlots MetalRingBuffer.mSlotCount].
  rewrite Hc, lookup_app_r by lia. rewrite Nat.sub_diag. reflexivity.
Qed.

Lemma zero_slot_ring_cannot_allocate_witness :
  exists r0 w0,
    MetalRingBuffer.ctor OTHER tt 0 {| MTL.size := 40; MTL.align := 8 |} 0
      {| aliveBuffers := [0; 0; 0]; platform := None; stats := [];
         device := {| dev_next := 1%positive; dev_outcomes := [] |};
         counters := []; handlers := [] |} = Ok (r0, w0) /\
    MetalRingBuffer.createNewAllocation r0 5%positive w0 = Fail AssertInvariantFailed.
Proof.
  assert (Hctor :
    MetalRingBuffer.ctor OTHER tt 0 {| MTL.size := 40; MTL.align := 8 |} 0
      {| aliveBuffers := [0; 0; 0]; platform := None; stats := [];
         device := {| dev_next := 1%positive; dev_outcomes := [] |};
         counters := []; handlers := [] |} = Ok _) by (vm_compute; reflexivity).
  do 2 eexists. split; [exact Hctor|].
  exact (zero_slot_ring_cannot_allocate _ _ _ _ _ _ 5%positive Hctor).
Defined.
